(** * The request scheduler of omniserve (omniserve/core/scheduler.py)

    A shallow embedding of [Scheduler] and [SchedulerOutputs], followed by the
    properties of one scheduling tick.

    Python objects are modelled by values.  A method that mutates an object
    it was handed (a sequence group, a dict) returns the mutated value; the
    three queues hold the current value of each group.  Exceptions are
    results, and a result always carries the state reached when the
    exception was raised, because a Python exception does not undo earlier
    mutations. *)

From stdpp Require Import base numbers list gmap strings.

Set Default Proof Using "Type".

(** ** Sequences and sequence groups (omniserve/sequence.py) *)

(** Modelled from the spec: the status set of section 3; [SequenceStatus] is
    declared in omniserve/sequence.py. *)
Inductive SequenceStatus :=
  | WAITING
  | RUNNING
  | SWAPPED
  | FINISHED_STOPPED
  | FINISHED_ABORTED
  | FINISHED_IGNORED.

#[global] Instance SequenceStatus_eq_dec : EqDecision SequenceStatus.
Proof. solve_decision. Defined.

(** Modelled from the spec: the terminal statuses are the FINISHED ones
    ([SequenceStatus.is_finished] in omniserve/sequence.py). *)
Definition status_is_finished (s : SequenceStatus) : bool :=
  match s with
  | FINISHED_STOPPED | FINISHED_ABORTED | FINISHED_IGNORED => true
  | WAITING | RUNNING | SWAPPED => false
  end.

(** Modelled from the spec: what the scheduler observes of a [Sequence]: its
    id, its status and its current length. *)
Record Sequence := mkSequence {
  seq_id : nat;
  status : SequenceStatus;
  get_len : nat
}.

#[global] Instance Sequence_eq_dec : EqDecision Sequence.
Proof. solve_decision. Defined.

Definition seq_is_finished (seq : Sequence) : bool :=
  status_is_finished (status seq).

(** [seq.status = st] *)
Definition set_status (st : SequenceStatus) (seq : Sequence) : Sequence :=
  {| seq_id := seq_id seq; status := st; get_len := get_len seq |}.

(** Modelled from the spec: a request with its ordered sequences, its
    arrival time and its immutable sampling parameters, which the scheduler
    never inspects. *)
Record SequenceGroup := mkSequenceGroup {
  request_id : string;
  seqs : list Sequence;
  arrival_time : nat;
  sampling_params : nat
}.

#[global] Instance SequenceGroup_eq_dec : EqDecision SequenceGroup.
Proof. solve_decision. Defined.

(** [seq_group.get_seqs(status=...)]: every sequence, or those in one
    status, in the group's order. *)
Definition get_seqs (st : option SequenceStatus) (g : SequenceGroup)
  : list Sequence :=
  match st with
  | None => seqs g
  | Some s => filter (λ seq, status seq = s) (seqs g)
  end.

(** [seq_group.num_seqs(status=...)] *)
Definition num_seqs (st : option SequenceStatus) (g : SequenceGroup) : nat :=
  length (get_seqs st g).

(** [seq_group.is_finished()]: all its sequences are finished. *)
Definition is_finished (g : SequenceGroup) : bool :=
  forallb seq_is_finished (seqs g).

(** The loop [for seq in seq_group.get_seqs(status=from): seq.status = to],
    seen on the group: the selected sequences change status in place. *)
Definition retag (from to : SequenceStatus) (g : SequenceGroup)
  : SequenceGroup :=
  {| request_id := request_id g;
     seqs := (λ seq, if decide (status seq = from) then set_status to seq
                     else seq) <$> seqs g;
     arrival_time := arrival_time g;
     sampling_params := sampling_params g |}.

(** The part of a group that is not declared in scheduler.py: the bound on
    the sequences a group may run at once. *)
Class SequenceGroupBound := {
  get_max_num_running_seqs : SequenceGroup → nat
}.

(** ** The collaborators of the scheduler *)

(** omniserve/core/block_manager.py *)
Inductive AllocStatus := OK | LATER | NEVER.

#[global] Instance AllocStatus_eq_dec : EqDecision AllocStatus.
Proof. solve_decision. Defined.

(** Modelled from the spec: the contract of section 4.1.  The block manager
    is a state [BM]; a predicate reads it, a mutator returns the next state
    with its answer.  Block ids are numbers; a swap plan is a [gmap nat nat]
    and [append_slot] answers with at most one (source, destination) pair
    per class. *)
Class BlockSpaceManager (BM : Type) := {
  can_allocate : BM → SequenceGroup → bool → option nat → AllocStatus;
  allocate : BM → SequenceGroup → bool → option nat → BM;
  can_append_slot : BM → SequenceGroup → bool;
  append_slot : BM → Sequence → BM * (option (nat * nat) * option (nat * nat));
  can_swap_in : BM → SequenceGroup → bool;
  swap_in : BM → SequenceGroup → BM * (gmap nat nat * gmap nat nat);
  can_swap_out : BM → SequenceGroup → bool;
  swap_out : BM → SequenceGroup → BM * (gmap nat nat * gmap nat nat);
  fork : BM → Sequence → Sequence → BM;
  free : BM → Sequence → BM;
  get_retrieval_block_table : BM → Sequence → list nat;
  get_streaming_block_table : BM → Sequence → option (list nat)
}.

(** The reading of [time.monotonic()] taken at the start of a tick. *)
Definition Time := Z.

(** Modelled from the spec: the one operation of section 4.2. *)
Class Policy := {
  sort_by_priority : Time → list SequenceGroup → list SequenceGroup
}.

(** ** Exceptions and results *)

(** The [assert] statements of scheduler.py, by place. *)
Inductive Assertion :=
  | retrieval_swap_in_and_out
  | streaming_swap_in_and_out
  | one_prompt_sequence
  | one_running_sequence.

Inductive Exn :=
  | AssertionError (a : Assertion)
  | RuntimeError (msg : string).

Inductive Res (A : Type) :=
  | Val (a : A)
  | Raise (e : Exn).
Arguments Val {A} a.
Arguments Raise {A} e.

(** A computation over a mutable state [S]: the result, and the state at the
    return or at the raise. *)
Definition M (S A : Type) : Type := S → Res A * S.

Definition ret {S A} (a : A) : M S A := λ s, (Val a, s).

Definition bind {S A B} (m : M S A) (k : A → M S B) : M S B :=
  λ s, match m s with
       | (Val a, s') => k a s'
       | (Raise e, s') => (Raise e, s')
       end.

Notation "'do' x <- m ; k" := (bind m (λ x, k))
  (at level 10, x name, m at level 100, k at level 200).
Notation "'do' ' pat <- m ; k" := (bind m (λ x, match x with pat => k end))
  (at level 10, pat pattern, m at level 100, k at level 200).

(** A pure result inside a computation: [Val] returns, [Raise] raises. *)
Definition lift {S A} (r : Res A) : M S A := λ s, (r, s).

(** Truth value of a dict or of a list: non-empty. *)
Definition dict_bool {V} `{EqDecision V} (d : gmap nat V) : bool :=
  negb (bool_decide (d = ∅)).

Definition list_bool {A} (l : list A) : bool :=
  match l with [] => false | _ :: _ => true end.

(** [deque.pop()]: the right end and what is left of the deque. *)
Fixpoint pop_right {A} (l : list A) : option (list A * A) :=
  match l with
  | [] => None
  | x :: l' =>
      match pop_right l' with
      | None => Some ([], x)
      | Some (front, y) => Some (x :: front, y)
      end
  end.

(** [deque.remove(x)] where [x] is present: drops its first occurrence.
    Python compares sequence groups by identity, the model by value; the
    group that [abort_seq_group] removes is the first of its request id in
    the queue, so both drop the same entry. *)
Fixpoint remove_first {A} `{EqDecision A} (x : A) (l : list A) : list A :=
  match l with
  | [] => []
  | y :: l' => if decide (y = x) then l' else y :: remove_first x l'
  end.

(** ** SchedulerOutputs *)

Module SchedulerOutputs.

Record t := mk {
  scheduled_seq_groups : list SequenceGroup;
  prompt_run : bool;
  num_batched_tokens : nat;
  retrieval_blocks_to_swap_in : gmap nat nat;
  streaming_blocks_to_swap_in : gmap nat nat;
  retrieval_blocks_to_swap_out : gmap nat nat;
  streaming_blocks_to_swap_out : gmap nat nat;
  retrieval_blocks_to_copy : gmap nat (list nat);
  streaming_blocks_to_copy : gmap nat (list nat);
  ignored_seq_groups : list SequenceGroup
}.

(** [SchedulerOutputs.__init__]: the fields are stored, and swap in and
    swap out must not happen at the same time. *)
Definition init
    (scheduled_seq_groups : list SequenceGroup) (prompt_run : bool)
    (num_batched_tokens : nat)
    (retrieval_blocks_to_swap_in streaming_blocks_to_swap_in
     retrieval_blocks_to_swap_out streaming_blocks_to_swap_out
       : gmap nat nat)
    (retrieval_blocks_to_copy streaming_blocks_to_copy
       : gmap nat (list nat))
    (ignored_seq_groups : list SequenceGroup) : Res t :=
  if dict_bool retrieval_blocks_to_swap_in
     && dict_bool retrieval_blocks_to_swap_out
  then Raise (AssertionError retrieval_swap_in_and_out)
  else if dict_bool streaming_blocks_to_swap_in
          && dict_bool streaming_blocks_to_swap_out
  then Raise (AssertionError streaming_swap_in_and_out)
  else Val (mk scheduled_seq_groups prompt_run num_batched_tokens
               retrieval_blocks_to_swap_in streaming_blocks_to_swap_in
               retrieval_blocks_to_swap_out streaming_blocks_to_swap_out
               retrieval_blocks_to_copy streaming_blocks_to_copy
               ignored_seq_groups).

(** The ignored sequence groups are not considered. *)
Definition is_empty (o : t) : bool :=
  negb (list_bool (scheduled_seq_groups o))
  && negb (dict_bool (retrieval_blocks_to_swap_in o))
  && negb (dict_bool (streaming_blocks_to_swap_in o))
  && negb (dict_bool (retrieval_blocks_to_swap_out o))
  && negb (dict_bool (streaming_blocks_to_swap_out o))
  && negb (dict_bool (retrieval_blocks_to_copy o))
  && negb (dict_bool (streaming_blocks_to_copy o)).

End SchedulerOutputs.

(** ** Scheduler *)

Inductive PreemptionMode := SWAP | RECOMPUTE.

Record SchedulerConfig := mkSchedulerConfig {
  max_model_len : nat;
  max_num_batched_tokens : nat;
  max_num_seqs : nat
}.

(** [abort_seq_group] takes one request id or several. *)
Inductive RequestIds :=
  | one_id (request_id : string)
  | many_ids (request_ids : list string).

(** [SequenceGroupMetadata], as [schedule] and [prepare_input] fill it;
    [prepare_input] leaves the block tables out. *)
Record SequenceGroupMetadata := mkMetadata {
  md_request_id : string;
  md_is_prompt : bool;
  md_seq_data : list (nat * Sequence);
  md_sampling_params : nat;
  md_retrieval_block_tables : option (list (nat * list nat));
  md_streaming_block_tables : option (list (nat * option (list nat)))
}.

Module Scheduler.
Section scheduler.
Context {BM : Type} `{!BlockSpaceManager BM}.
Context `{!SequenceGroupBound} `{!Policy}.

(** The fields of a [Scheduler] that the scheduling code reads or writes.
    The policy and the bound of a group are the instances above. *)
Record t := mk {
  scheduler_config : SchedulerConfig;
  ifb_mode : bool;
  init_num_blocks : option nat;
  prompt_limit : nat;
  block_manager : BM;
  waiting : list SequenceGroup;
  running : list SequenceGroup;
  swapped : list SequenceGroup
}.

(** [Scheduler.__init__], given the block manager it creates. *)
Definition init (scheduler_config : SchedulerConfig) (ifb_mode : bool)
    (block_manager : BM) : t :=
  {| scheduler_config := scheduler_config;
     ifb_mode := ifb_mode;
     init_num_blocks := None;
     prompt_limit := min (max_model_len scheduler_config)
                         (max_num_batched_tokens scheduler_config);
     block_manager := block_manager;
     waiting := [];
     running := [];
     swapped := [] |}.

Definition set_waiting (q : list SequenceGroup) (s : t) : t :=
  mk (scheduler_config s) (ifb_mode s) (init_num_blocks s) (prompt_limit s)
     (block_manager s) q (running s) (swapped s).

Definition set_running (q : list SequenceGroup) (s : t) : t :=
  mk (scheduler_config s) (ifb_mode s) (init_num_blocks s) (prompt_limit s)
     (block_manager s) (waiting s) q (swapped s).

Definition set_swapped (q : list SequenceGroup) (s : t) : t :=
  mk (scheduler_config s) (ifb_mode s) (init_num_blocks s) (prompt_limit s)
     (block_manager s) (waiting s) (running s) q.

Definition set_block_manager (bm : BM) (s : t) : t :=
  mk (scheduler_config s) (ifb_mode s) (init_num_blocks s) (prompt_limit s)
     bm (waiting s) (running s) (swapped s).

Definition add_seq_group (seq_group : SequenceGroup) (s : t) : t :=
  set_waiting (waiting s ++ [seq_group]) s.

Definition free_seq (seq : Sequence) (s : t) : t :=
  set_block_manager (free (block_manager s) seq) s.

Definition fork_seq (parent_seq child_seq : Sequence) (s : t) : t :=
  set_block_manager (fork (block_manager s) parent_seq child_seq) s.

Definition has_unfinished_seqs (s : t) : bool :=
  list_bool (waiting s) || list_bool (running s) || list_bool (swapped s).

Definition get_num_unfinished_seq_groups (s : t) : nat :=
  length (waiting s) + length (running s) + length (swapped s).

Definition update_init_num_blocks (init_num_blocks : nat) (s : t) : t :=
  mk (scheduler_config s) (ifb_mode s) (Some init_num_blocks)
     (prompt_limit s) (block_manager s) (waiting s) (running s) (swapped s).

Definition free_finished_seq_groups (s : t) : t :=
  set_running
    (filter (λ seq_group, is_finished seq_group = false) (running s)) s.

(** *** abort_seq_group *)

(** The first inner loop over one state queue: the groups to abort, in
    queue order, and the request ids still looked for. *)
Fixpoint abort_scan (state_queue : list SequenceGroup)
    (request_ids : gset string) (aborted_groups : list SequenceGroup)
    : list SequenceGroup * gset string :=
  match state_queue with
  | [] => (aborted_groups, request_ids)
  | seq_group :: state_queue' =>
      if decide (request_ids = ∅) then (aborted_groups, request_ids)
      else if decide (request_id seq_group ∈ request_ids) then
        abort_scan state_queue' (request_ids ∖ {[request_id seq_group]})
                   (aborted_groups ++ [seq_group])
      else abort_scan state_queue' request_ids aborted_groups
  end.

(** The loop over the sequences of an aborted group: a sequence that is
    not finished gets [FINISHED_ABORTED] and is freed. *)
Definition abort_seqs (bm : BM) (aborted_group : SequenceGroup)
    : BM * SequenceGroup :=
  (foldl (λ bm seq, if seq_is_finished seq then bm
                    else free bm (set_status FINISHED_ABORTED seq))
         bm (get_seqs None aborted_group),
   {| request_id := request_id aborted_group;
      seqs := (λ seq, if seq_is_finished seq then seq
                      else set_status FINISHED_ABORTED seq)
              <$> seqs aborted_group;
      arrival_time := arrival_time aborted_group;
      sampling_params := sampling_params aborted_group |}).

(** The second inner loop: each aborted group leaves the state queue and
    has its sequences aborted.  The third component collects the aborted
    groups as the loop leaves them. *)
Fixpoint abort_groups (aborted_groups : list SequenceGroup)
    (state_queue : list SequenceGroup) (bm : BM)
    (done : list SequenceGroup)
    : list SequenceGroup * BM * list SequenceGroup :=
  match aborted_groups with
  | [] => (state_queue, bm, done)
  | aborted_group :: aborted_groups' =>
      let '(bm', g') := abort_seqs bm aborted_group in
      abort_groups aborted_groups' (remove_first aborted_group state_queue)
                   bm' (done ++ [g'])
  end.

(** One round of the outer loop, on one state queue. *)
Definition abort_in_queue (state_queue : list SequenceGroup)
    (request_ids : gset string) (bm : BM) (done : list SequenceGroup)
    : list SequenceGroup * gset string * BM * list SequenceGroup :=
  let '(aborted_groups, request_ids') :=
    abort_scan state_queue request_ids [] in
  let '(state_queue', bm', done') :=
    abort_groups aborted_groups state_queue bm done in
  (state_queue', request_ids', bm', done').

(** Returns the scheduler and, for the callers that still hold them, the
    aborted groups as the call left them. *)
Definition abort_seq_group (request_id : RequestIds) (s : t)
    : t * list SequenceGroup :=
  let request_id :=
    match request_id with one_id r => [r] | many_ids l => l end in
  let request_ids : gset string := list_to_set request_id in
  let '(waiting', request_ids, bm, done) :=
    abort_in_queue (waiting s) request_ids (block_manager s) [] in
  let '(running', request_ids, bm, done) :=
    abort_in_queue (running s) request_ids bm done in
  let '(swapped', request_ids, bm, done) :=
    abort_in_queue (swapped s) request_ids bm done in
  (mk (scheduler_config s) (ifb_mode s) (init_num_blocks s) (prompt_limit s)
      bm waiting' running' swapped',
   done).

(** *** The state of one tick *)

(** The scheduler together with the six dicts that [_schedule] creates
    and hands to its helpers. *)
Record Frame := mkFrame {
  self : t;
  retrieval_blocks_to_swap_in : gmap nat nat;
  streaming_blocks_to_swap_in : gmap nat nat;
  retrieval_blocks_to_swap_out : gmap nat nat;
  streaming_blocks_to_swap_out : gmap nat nat;
  retrieval_blocks_to_copy : gmap nat (list nat);
  streaming_blocks_to_copy : gmap nat (list nat)
}.

Definition new_frame (s : t) : Frame := mkFrame s ∅ ∅ ∅ ∅ ∅ ∅.

Definition set_self (s : t) (f : Frame) : Frame :=
  mkFrame s (retrieval_blocks_to_swap_in f) (streaming_blocks_to_swap_in f)
    (retrieval_blocks_to_swap_out f) (streaming_blocks_to_swap_out f)
    (retrieval_blocks_to_copy f) (streaming_blocks_to_copy f).

Definition set_swap_in (r s : gmap nat nat) (f : Frame) : Frame :=
  mkFrame (self f) r s
    (retrieval_blocks_to_swap_out f) (streaming_blocks_to_swap_out f)
    (retrieval_blocks_to_copy f) (streaming_blocks_to_copy f).

Definition set_swap_out (r s : gmap nat nat) (f : Frame) : Frame :=
  mkFrame (self f)
    (retrieval_blocks_to_swap_in f) (streaming_blocks_to_swap_in f) r s
    (retrieval_blocks_to_copy f) (streaming_blocks_to_copy f).

Definition set_copy (r s : gmap nat (list nat)) (f : Frame) : Frame :=
  mkFrame (self f)
    (retrieval_blocks_to_swap_in f) (streaming_blocks_to_swap_in f)
    (retrieval_blocks_to_swap_out f) (streaming_blocks_to_swap_out f) r s.

(** A helper sees the frame and the sequence group it was handed. *)
Definition Call : Type := Frame * SequenceGroup.

(** Calls a helper on [seq_group] and gives the group back as the call
    left it. *)
Definition on_group (h : M Call ()) (seq_group : SequenceGroup)
    : M Frame SequenceGroup :=
  λ f, match h (f, seq_group) with
       | (Val _, (f', g')) => (Val g', f')
       | (Raise e, (f', _)) => (Raise e, f')
       end.

(** *** The helpers *)

Definition _allocate : M Call () := λ '(f, seq_group),
  let bm := allocate (block_manager (self f)) seq_group
              (ifb_mode (self f)) (init_num_blocks (self f)) in
  (Val (), (set_self (set_block_manager bm (self f)) f,
            retag WAITING RUNNING seq_group)).

(** [if ret is not None: ...]: [dst_block] joins the list of [src_block]. *)
Definition add_copy (ret : option (nat * nat))
    (blocks_to_copy : gmap nat (list nat)) : gmap nat (list nat) :=
  match ret with
  | None => blocks_to_copy
  | Some (src_block, dst_block) =>
      match blocks_to_copy !! src_block with
      | Some l => <[src_block := l ++ [dst_block]]> blocks_to_copy
      | None => <[src_block := [dst_block]]> blocks_to_copy
      end
  end.

(** The body of the loop of [_append_slot]. *)
Definition append_slot_seq (f : Frame) (seq : Sequence) : Frame :=
  let '(bm, (retrieval_ret, streaming_ret)) :=
    append_slot (block_manager (self f)) seq in
  set_copy (add_copy retrieval_ret (retrieval_blocks_to_copy f))
           (add_copy streaming_ret (streaming_blocks_to_copy f))
           (set_self (set_block_manager bm (self f)) f).

Definition _append_slot : M Call () := λ '(f, seq_group),
  (Val (),
   (foldl append_slot_seq f (get_seqs (Some RUNNING) seq_group),
    seq_group)).

Definition _swap_in : M Call () := λ '(f, seq_group),
  let '(bm, (retrieval_mapping, streaming_mapping)) :=
    swap_in (block_manager (self f)) seq_group in
  (Val (),
   (set_swap_in (retrieval_mapping ∪ retrieval_blocks_to_swap_in f)
                (streaming_mapping ∪ streaming_blocks_to_swap_in f)
                (set_self (set_block_manager bm (self f)) f),
    retag SWAPPED RUNNING seq_group)).

Definition _swap_out : M Call () := λ '(f, seq_group),
  if negb (can_swap_out (block_manager (self f)) seq_group) then
    (Raise (RuntimeError
       "Aborted due to the lack of CPU swap space. Please increase the swap space to avoid this error."),
     (f, seq_group))
  else
    let '(bm, (retrieval_mapping, streaming_mapping)) :=
      swap_out (block_manager (self f)) seq_group in
    (Val (),
     (set_swap_out (retrieval_mapping ∪ retrieval_blocks_to_swap_out f)
                   (streaming_mapping ∪ streaming_blocks_to_swap_out f)
                   (set_self (set_block_manager bm (self f)) f),
      retag RUNNING SWAPPED seq_group)).

Definition _preempt_by_recompute : M Call () := λ '(f, seq_group),
  let seqs := get_seqs (Some RUNNING) seq_group in
  if negb (length seqs =? 1) then
    (Raise (AssertionError one_running_sequence), (f, seq_group))
  else
    let bm := foldl (λ bm seq, free bm (set_status WAITING seq))
                    (block_manager (self f)) seqs in
    let seq_group := retag RUNNING WAITING seq_group in
    let s := set_block_manager bm (self f) in
    (Val (), (set_self (set_waiting (seq_group :: waiting s) s) f,
              seq_group)).

Definition _preempt_by_swap : M Call () :=
  do _ <- _swap_out;
  λ '(f, seq_group),
    (Val (),
     (set_self (set_swapped (swapped (self f) ++ [seq_group]) (self f)) f,
      seq_group)).

(** [PreemptionMode] has two members, so the final [else] of the source
    cannot be reached. *)
Definition _preempt (preemption_mode : option PreemptionMode)
    : M Call () := λ '(f, seq_group),
  let preemption_mode :=
    match preemption_mode with
    | Some mode => mode
    | None => if get_max_num_running_seqs seq_group =? 1 then RECOMPUTE
              else SWAP
    end in
  match preemption_mode with
  | RECOMPUTE => _preempt_by_recompute (f, seq_group)
  | SWAP => _preempt_by_swap (f, seq_group)
  end.

(** *** _schedule: joining waiting sequence groups *)

(** The locals of the first loop of [_schedule]. *)
Record Admission := mkAdmission {
  ignored_seq_groups : list SequenceGroup;
  scheduled : list SequenceGroup;
  num_curr_seqs : nat;
  seq_lens : list nat
}.

(** [self.waiting.popleft()] *)
Definition popleft_waiting (f : Frame) : Frame :=
  set_self (set_waiting (tail (waiting (self f))) (self f)) f.

(** The two places that ignore a prompt: its waiting sequences get
    [FINISHED_IGNORED] and the group joins [ignored_seq_groups]. *)
Definition ignore (seq_group : SequenceGroup) (a : Admission) : Admission :=
  mkAdmission
    (ignored_seq_groups a ++ [retag WAITING FINISHED_IGNORED seq_group])
    (scheduled a) (num_curr_seqs a) (seq_lens a).

(** [while self.waiting: ...].  Every turn that does not leave the loop
    pops the waiting queue, so its length is fuel enough. *)
Fixpoint admit_waiting (fuel : nat) (a : Admission) : M Frame Admission :=
  λ f,
  match waiting (self f) with
  | [] => (Val a, f)
  | seq_group :: _ =>
    match fuel with
    | 0 => (Val a, f)
    | S fuel =>
      match get_seqs (Some WAITING) seq_group with
      | [seq] =>
        let num_prompt_tokens := get_len seq in
        if prompt_limit (self f) <? num_prompt_tokens then
          admit_waiting fuel (ignore seq_group a) (popleft_waiting f)
        else
          match can_allocate (block_manager (self f)) seq_group
                  (ifb_mode (self f)) (init_num_blocks (self f)) with
          | LATER => (Val a, f)
          | NEVER =>
              admit_waiting fuel (ignore seq_group a) (popleft_waiting f)
          | OK =>
            let new_seq_lens := seq_lens a ++ [num_prompt_tokens] in
            let num_batched_tokens := sum_list new_seq_lens in
            if max_num_batched_tokens (scheduler_config (self f))
               <? num_batched_tokens
            then (Val a, f)
            else
              let num_new_seqs := get_max_num_running_seqs seq_group in
              if max_num_seqs (scheduler_config (self f))
                 <? num_curr_seqs a + num_new_seqs
              then (Val a, f)
              else
                match on_group _allocate seq_group (popleft_waiting f) with
                | (Val seq_group, f) =>
                    admit_waiting fuel
                      (mkAdmission (ignored_seq_groups a)
                         (scheduled a ++ [seq_group])
                         (num_curr_seqs a + num_new_seqs) new_seq_lens)
                      (set_self (set_running (running (self f) ++ [seq_group])
                                             (self f)) f)
                | (Raise e, f) => (Raise e, f)
                end
          end
      | _ => (Raise (AssertionError one_prompt_sequence), f)
      end
    end
  end.

(** [sum(g.get_max_num_running_seqs() for g in self.running)] *)
Definition running_seqs_bound (s : t) : nat :=
  sum_list_with get_max_num_running_seqs (running s).

(** The body of [if not self.swapped:].  [Some] is the [return] in it;
    [leftover_waiting_sequences] stays empty, so extending the waiting
    queue by it changes nothing. *)
Definition schedule_waiting : M Frame (option SchedulerOutputs.t) :=
  do a <- (λ f, admit_waiting (length (waiting (self f)))
                  (mkAdmission [] [] (running_seqs_bound (self f)) []) f);
  if list_bool (scheduled a) || list_bool (ignored_seq_groups a) then
    do scheduler_outputs <-
      (λ f, lift (SchedulerOutputs.init (scheduled a) true
                    (match seq_lens a with
                     | [] => 0
                     | _ :: _ => length (seq_lens a) * max_list (seq_lens a)
                     end)
                    (retrieval_blocks_to_swap_in f)
                    (streaming_blocks_to_swap_in f)
                    (retrieval_blocks_to_swap_out f)
                    (streaming_blocks_to_swap_out f)
                    (retrieval_blocks_to_copy f)
                    (streaming_blocks_to_copy f)
                    (ignored_seq_groups a)) f);
    ret (Some scheduler_outputs)
  else ret None.

(** *** _schedule: the running and the swapped sequence groups *)

(** [while not self.block_manager.can_append_slot(seq_group): ... else: ...]
    with the locals [running] (here [local_running]) and [preempted].
    Every turn that stays in the loop pops [self.running]. *)
Fixpoint reserve_slot (fuel : nat) (seq_group : SequenceGroup)
    (local_running preempted : list SequenceGroup)
    : M Frame (list SequenceGroup * list SequenceGroup) :=
  λ f,
  if can_append_slot (block_manager (self f)) seq_group then
    match on_group _append_slot seq_group f with
    | (Val seq_group, f) => (Val (local_running ++ [seq_group], preempted), f)
    | (Raise e, f) => (Raise e, f)
    end
  else
    match pop_right (running (self f)) with
    | Some (rest, victim_seq_group) =>
      match fuel with
      | 0 => (Val (local_running, preempted), f)
      | S fuel =>
        match on_group (_preempt None) victim_seq_group
                (set_self (set_running rest (self f)) f) with
        | (Val victim_seq_group, f) =>
            reserve_slot fuel seq_group local_running
                         (preempted ++ [victim_seq_group]) f
        | (Raise e, f) => (Raise e, f)
        end
      end
    | None =>
      match on_group (_preempt None) seq_group f with
      | (Val seq_group, f) => (Val (local_running, preempted ++ [seq_group]), f)
      | (Raise e, f) => (Raise e, f)
      end
    end.

(** [while self.running: seq_group = self.running.popleft(); ...] *)
Fixpoint reserve_running (fuel : nat)
    (local_running preempted : list SequenceGroup)
    : M Frame (list SequenceGroup * list SequenceGroup) :=
  λ f,
  match running (self f) with
  | [] => (Val (local_running, preempted), f)
  | seq_group :: rest =>
    match fuel with
    | 0 => (Val (local_running, preempted), f)
    | S fuel =>
      match reserve_slot fuel seq_group local_running preempted
              (set_self (set_running rest (self f)) f) with
      | (Val (local_running, preempted), f) =>
          reserve_running fuel local_running preempted f
      | (Raise e, f) => (Raise e, f)
      end
    end
  end.

(** From the sort of [self.running] to [self.running = running]; the
    value is [preempted]. *)
Definition reserve_phase (now : Time) : M Frame (list SequenceGroup) :=
  λ f,
  let f := set_self (set_running (sort_by_priority now (running (self f)))
                                 (self f)) f in
  match reserve_running (length (running (self f))) [] [] f with
  | (Val (local_running, preempted), f) =>
      (Val preempted, set_self (set_running local_running (self f)) f)
  | (Raise e, f) => (Raise e, f)
  end.

(** [while self.swapped: ...] of the swap-in part, with the local
    [num_curr_seqs]. *)
Fixpoint swap_in_loop (fuel : nat) (num_curr_seqs : nat) : M Frame nat :=
  λ f,
  match swapped (self f) with
  | [] => (Val num_curr_seqs, f)
  | seq_group :: rest =>
    match fuel with
    | 0 => (Val num_curr_seqs, f)
    | S fuel =>
      if negb (can_swap_in (block_manager (self f)) seq_group) then
        (Val num_curr_seqs, f)
      else
        let num_new_seqs := get_max_num_running_seqs seq_group in
        if max_num_seqs (scheduler_config (self f))
           <? num_curr_seqs + num_new_seqs
        then (Val num_curr_seqs, f)
        else
          (do seq_group <- on_group (do _ <- _swap_in; _append_slot) seq_group;
           λ f, swap_in_loop fuel (num_curr_seqs + num_new_seqs)
                  (set_self (set_running (running (self f) ++ [seq_group])
                                         (self f)) f))
            (set_self (set_swapped rest (self f)) f)
    end
  end.

(** The sort of [self.swapped] and, when nothing was preempted, the
    swap-in loop; [leftover_swapped] stays empty. *)
Definition swap_in_phase (now : Time) (preempted : list SequenceGroup)
    : M Frame () :=
  λ f,
  let f := set_self (set_swapped (sort_by_priority now (swapped (self f)))
                                 (self f)) f in
  if list_bool preempted then (Val (), f)
  else
    match swap_in_loop (length (swapped (self f)))
            (running_seqs_bound (self f)) f with
    | (Val _, f) => (Val (), f)
    | (Raise e, f) => (Raise e, f)
    end.

(** The end of [_schedule]: the outputs of a tick that runs no prompt. *)
Definition decode_outputs : M Frame SchedulerOutputs.t :=
  λ f,
  let num_batched_tokens :=
    sum_list_with (num_seqs (Some RUNNING)) (running (self f)) in
  lift (SchedulerOutputs.init (running (self f)) false num_batched_tokens
          (retrieval_blocks_to_swap_in f) (streaming_blocks_to_swap_in f)
          (retrieval_blocks_to_swap_out f) (streaming_blocks_to_swap_out f)
          (retrieval_blocks_to_copy f) (streaming_blocks_to_copy f) []) f.

Definition schedule_running (now : Time) : M Frame SchedulerOutputs.t :=
  do preempted <- reserve_phase now;
  do _ <- swap_in_phase now preempted;
  decode_outputs.

(** [_schedule], with [now] the time that it fixes at its start. *)
Definition _schedule (now : Time) : M t SchedulerOutputs.t :=
  λ s,
  let '(r, f) :=
    (do early <- (if list_bool (swapped s) then ret None
                  else schedule_waiting);
     match early with
     | Some scheduler_outputs => ret scheduler_outputs
     | None => schedule_running now
     end) (new_frame s) in
  (r, self f).

(** *** schedule and prepare_input *)

Definition running_seq_data (seq_group : SequenceGroup)
    : list (nat * Sequence) :=
  (λ seq, (seq_id seq, seq)) <$> get_seqs (Some RUNNING) seq_group.

Definition schedule (now : Time)
    : M t (list SequenceGroupMetadata * SchedulerOutputs.t) :=
  do scheduler_outputs <- _schedule now;
  λ s,
  (Val ((λ seq_group,
           mkMetadata (request_id seq_group)
             (SchedulerOutputs.prompt_run scheduler_outputs)
             (running_seq_data seq_group)
             (sampling_params seq_group)
             (Some ((λ seq, (seq_id seq,
                      get_retrieval_block_table (block_manager s) seq))
                    <$> get_seqs (Some RUNNING) seq_group))
             (Some ((λ seq, (seq_id seq,
                      get_streaming_block_table (block_manager s) seq))
                    <$> get_seqs (Some RUNNING) seq_group)))
        <$> SchedulerOutputs.scheduled_seq_groups scheduler_outputs,
        scheduler_outputs), s).

Definition prepare_input (now : Time)
    : M t (list SequenceGroupMetadata * SchedulerOutputs.t) :=
  do scheduler_outputs <- _schedule now;
  ret ((λ seq_group,
          mkMetadata (request_id seq_group)
            (SchedulerOutputs.prompt_run scheduler_outputs)
            (running_seq_data seq_group)
            (sampling_params seq_group) None None)
       <$> SchedulerOutputs.scheduled_seq_groups scheduler_outputs,
       scheduler_outputs).

End scheduler.
End Scheduler.

Arguments Scheduler.t BM : clear implicits.
Arguments Scheduler.Frame BM : clear implicits.

(** ** A small block manager, a bound and the FCFS policy

    Concrete collaborators on which the scheduler can be run. *)

(** A block manager that only counts: a sequence holds one block per token,
    [gpu_free] and [cpu_free] are the free blocks of the two tiers, and
    [freed] lists the ids of the sequences freed so far. *)
Record CountingBM := mkCountingBM {
  gpu_total : nat;
  gpu_free : nat;
  cpu_free : nat;
  freed : list nat
}.

Definition blocks_of (st : SequenceStatus) (g : SequenceGroup) : nat :=
  sum_list_with get_len (get_seqs (Some st) g).

Definition identity_map (st : SequenceStatus) (g : SequenceGroup)
  : gmap nat nat :=
  list_to_map ((λ seq, (seq_id seq, seq_id seq)) <$> get_seqs (Some st) g).

#[global] Instance CountingBM_manager : BlockSpaceManager CountingBM := {
  can_allocate bm g _ _ :=
    if gpu_total bm <? blocks_of WAITING g then NEVER
    else if gpu_free bm <? blocks_of WAITING g then LATER
    else OK;
  allocate bm g _ _ :=
    mkCountingBM (gpu_total bm) (gpu_free bm - blocks_of WAITING g)
                 (cpu_free bm) (freed bm);
  can_append_slot bm g := num_seqs (Some RUNNING) g <=? gpu_free bm;
  append_slot bm seq :=
    (mkCountingBM (gpu_total bm) (gpu_free bm - 1) (cpu_free bm) (freed bm),
     (None, None));
  can_swap_in bm g := blocks_of SWAPPED g <=? gpu_free bm;
  swap_in bm g :=
    (mkCountingBM (gpu_total bm) (gpu_free bm - blocks_of SWAPPED g)
                  (cpu_free bm + blocks_of SWAPPED g) (freed bm),
     (identity_map SWAPPED g, ∅));
  can_swap_out bm g := blocks_of RUNNING g <=? cpu_free bm;
  swap_out bm g :=
    (mkCountingBM (gpu_total bm) (gpu_free bm + blocks_of RUNNING g)
                  (cpu_free bm - blocks_of RUNNING g) (freed bm),
     (identity_map RUNNING g, ∅));
  fork bm _ _ := bm;
  free bm seq :=
    mkCountingBM (gpu_total bm) (gpu_free bm + get_len seq) (cpu_free bm)
                 (freed bm ++ [seq_id seq]);
  get_retrieval_block_table _ _ := [];
  get_streaming_block_table _ _ := None
}.

(** A bound that reads the sampling parameters as the number of sequences
    asked for: that number while the group has fewer sequences, and then the
    number of its sequences that are not finished. *)
#[global] Instance live_bound : SequenceGroupBound := {
  get_max_num_running_seqs g :=
    if length (seqs g) <? sampling_params g then sampling_params g
    else length (filter (λ seq, seq_is_finished seq = false) (seqs g))
}.

(** Modelled from the spec: first come, first served, which is a stable
    sort by arrival time ascending (omniserve/core/policy.py). *)
Definition arrived_before (g1 g2 : SequenceGroup) : Prop :=
  arrival_time g1 ≤ arrival_time g2.

#[global] Instance arrived_before_dec : RelDecision arrived_before.
Proof. intros g1 g2. unfold arrived_before. apply _. Defined.

(** [g] goes in front of the first group that did not arrive before it. *)
Fixpoint insert_by_arrival (g : SequenceGroup) (l : list SequenceGroup)
  : list SequenceGroup :=
  match l with
  | [] => [g]
  | h :: l' =>
      if decide (arrived_before g h) then g :: l
      else h :: insert_by_arrival g l'
  end.

#[global] Instance fcfs : Policy := {
  sort_by_priority _ seq_groups := foldr insert_by_arrival [] seq_groups
}.

(** ** Schedulers to run

    A configuration with [prompt_limit] 16, a block manager with room, and
    a few groups. *)

Definition small_config : SchedulerConfig := mkSchedulerConfig 64 16 4.

Definition roomy_manager : CountingBM := mkCountingBM 100 100 100 [].

(** A fresh request: one waiting sequence, the prompt. *)
Definition prompt_group (id : string) (seq : nat) (len : nat) (arrival : nat)
  : SequenceGroup :=
  mkSequenceGroup id [mkSequence seq WAITING len] arrival 1.

Definition G1 : SequenceGroup := prompt_group "G1" 1 12 0.
Definition G2 : SequenceGroup := prompt_group "G2" 2 12 1.
Definition G3 : SequenceGroup := prompt_group "G3" 3 100 2.
Definition G4 : SequenceGroup := prompt_group "G4" 4 16 3.

Definition fresh_scheduler : Scheduler.t CountingBM :=
  Scheduler.init small_config false roomy_manager.

(** Two prompts of 12 tokens, then one of 100. *)
Definition three_waiting : Scheduler.t CountingBM :=
  Scheduler.add_seq_group G3
    (Scheduler.add_seq_group G2 (Scheduler.add_seq_group G1 fresh_scheduler)).

(** The prompt of 100 tokens first, then one of 12. *)
Definition long_prompt_first : Scheduler.t CountingBM :=
  Scheduler.add_seq_group G1 (Scheduler.add_seq_group G3 fresh_scheduler).

(** A prompt of exactly [prompt_limit] tokens. *)
Definition exact_prompt : Scheduler.t CountingBM :=
  Scheduler.add_seq_group G4 fresh_scheduler.

(** The prompt of 12 tokens first, then the one of 100. *)
Definition long_prompt_second : Scheduler.t CountingBM :=
  Scheduler.add_seq_group G3 (Scheduler.add_seq_group G1 fresh_scheduler).

(** The prompt of 100 tokens first, then the one of exactly [prompt_limit]
    tokens. *)
Definition exact_behind_long : Scheduler.t CountingBM :=
  Scheduler.add_seq_group G4 (Scheduler.add_seq_group G3 fresh_scheduler).

(** The prompt of 12 tokens first, then the one of exactly [prompt_limit]
    tokens. *)
Definition exact_behind_prompt : Scheduler.t CountingBM :=
  Scheduler.add_seq_group G4 (Scheduler.add_seq_group G1 fresh_scheduler).

(** One group runs, and a group of two sequences is swapped out. *)
Definition one_running_one_swapped : Scheduler.t CountingBM :=
  Scheduler.mk small_config false None 16 roomy_manager []
    [mkSequenceGroup "R1" [mkSequence 5 RUNNING 7] 0 1]
    [mkSequenceGroup "S1" [mkSequence 6 SWAPPED 9; mkSequence 7 SWAPPED 9]
       1 2].

(** Two groups run and the block manager has no free block: the group
    of two sequences has to be swapped out. *)
Definition no_block_left : Scheduler.t CountingBM :=
  Scheduler.mk small_config false None 16 (mkCountingBM 100 0 100 []) []
    [mkSequenceGroup "R1" [mkSequence 5 RUNNING 7] 0 1;
     mkSequenceGroup "R2" [mkSequence 6 RUNNING 9; mkSequence 7 RUNNING 9]
       1 2]
    [].

(** Prompts of 2, 14 and 1 tokens: the first two fill the budget of 16
    tokens, and their padded rectangle is 28. *)
Definition P2 : SequenceGroup := prompt_group "P2" 11 2 0.
Definition P14 : SequenceGroup := prompt_group "P14" 12 14 1.
Definition P1 : SequenceGroup := prompt_group "P1" 13 1 2.

Definition two_and_fourteen : Scheduler.t CountingBM :=
  Scheduler.add_seq_group P1
    (Scheduler.add_seq_group P14
       (Scheduler.add_seq_group P2 fresh_scheduler)).

(** A group whose two sequences both wait: it is not a prompt. *)
Definition G5 : SequenceGroup :=
  mkSequenceGroup "G5" [mkSequence 9 WAITING 4; mkSequence 10 WAITING 4] 0 2.

Definition two_waiting_sequences : Scheduler.t CountingBM :=
  Scheduler.add_seq_group G5 fresh_scheduler.

(** A block manager of 8 blocks in all: a prompt of 12 tokens never fits. *)
Definition too_small : Scheduler.t CountingBM :=
  Scheduler.add_seq_group G2
    (Scheduler.add_seq_group G1
       (Scheduler.init small_config false (mkCountingBM 8 8 8 []))).

(** 100 blocks of which 4 are free: a prompt of 12 tokens has to wait. *)
Definition no_room_yet : Scheduler.t CountingBM :=
  Scheduler.add_seq_group G2
    (Scheduler.add_seq_group G1
       (Scheduler.init small_config false (mkCountingBM 100 4 100 []))).

(** [init_num_blocks] set to 8 before the first request comes. *)
Definition with_init_blocks : Scheduler.t CountingBM :=
  Scheduler.add_seq_group G1
    (Scheduler.update_init_num_blocks 8 fresh_scheduler).

Definition R1 : SequenceGroup :=
  mkSequenceGroup "R1" [mkSequence 5 RUNNING 7] 0 1.

Definition R2 : SequenceGroup :=
  mkSequenceGroup "R2" [mkSequence 6 RUNNING 9; mkSequence 7 RUNNING 9] 1 2.

(** A block manager that copies on every write: [append_slot] copies the
    block numbered by the id of the sequence to the next fresh block. *)
Record CopyingBM := mkCopyingBM { next_block : nat }.

#[global] Instance CopyingBM_manager : BlockSpaceManager CopyingBM := {
  can_allocate _ _ _ _ := OK;
  allocate bm _ _ _ := bm;
  can_append_slot _ _ := true;
  append_slot bm seq :=
    (mkCopyingBM (S (next_block bm)),
     (Some (seq_id seq, next_block bm), None));
  can_swap_in _ _ := true;
  swap_in bm _ := (bm, (∅, ∅));
  can_swap_out _ _ := true;
  swap_out bm _ := (bm, (∅, ∅));
  fork bm _ _ := bm;
  free bm _ := bm;
  get_retrieval_block_table _ _ := [];
  get_streaming_block_table _ _ := None
}.

(** A frame in which block 6 was already copied to block 40. *)
Definition copying_frame : Scheduler.Frame CopyingBM :=
  Scheduler.mkFrame
    (Scheduler.set_running [R2]
       (Scheduler.init small_config false (mkCopyingBM 50)))
    ∅ ∅ ∅ ∅ {[6 := [40]]} ∅.


(** The prompt [G1], then the group [G5] that is not a prompt. *)
Definition prompt_then_pair : Scheduler.t CountingBM :=
  Scheduler.add_seq_group G5 (Scheduler.add_seq_group G1 fresh_scheduler).


(** ** The predicates of the statements *)

Section statements.
Context {BM : Type} `{!BlockSpaceManager BM}.
Context `{!SequenceGroupBound} `{!Policy}.

Implicit Types (f : Scheduler.Frame BM) (s : Scheduler.t BM).
Implicit Types (g seq_group : SequenceGroup) (seq : Sequence).

Local Abbreviation bound := (sum_list_with get_max_num_running_seqs).

(** The exceptions that [_preempt] can raise. *)
Definition from_preempt (e : Exn) : Prop :=
  e = AssertionError one_running_sequence ∨ ∃ msg, e = RuntimeError msg.

(** What a frame keeps through the reserve loops: the configuration and
    the two swap-in dicts. *)
Definition reserve_keeps f f' : Prop :=
  Scheduler.scheduler_config (Scheduler.self f')
  = Scheduler.scheduler_config (Scheduler.self f)
  ∧ Scheduler.retrieval_blocks_to_swap_in f'
    = Scheduler.retrieval_blocks_to_swap_in f
  ∧ Scheduler.streaming_blocks_to_swap_in f'
    = Scheduler.streaming_blocks_to_swap_in f.

(** Nothing preempted means nothing swapped out. *)
Definition preempted_grows (p p' : list SequenceGroup) f f' : Prop :=
  ∃ q, p' = p ++ q
       ∧ (q = [] →
          Scheduler.retrieval_blocks_to_swap_out f'
          = Scheduler.retrieval_blocks_to_swap_out f
          ∧ Scheduler.streaming_blocks_to_swap_out f'
            = Scheduler.streaming_blocks_to_swap_out f).

(** Why the swap-in loop stopped in frame [f] with [n] sequences counted. *)
Definition swap_in_stopped (n : nat) f : Prop :=
  match Scheduler.swapped (Scheduler.self f) with
  | [] => True
  | g :: _ =>
      can_swap_in (Scheduler.block_manager (Scheduler.self f)) g = false
      ∨ max_num_seqs (Scheduler.scheduler_config (Scheduler.self f))
        < n + get_max_num_running_seqs g
  end.

Definition swap_in_loop_post (n : nat) f (r : Res nat) f' : Prop :=
  ∃ pre,
    r = Val (n + bound pre)
    ∧ Scheduler.swapped (Scheduler.self f)
      = pre ++ Scheduler.swapped (Scheduler.self f')
    ∧ Scheduler.running (Scheduler.self f')
      = Scheduler.running (Scheduler.self f)
        ++ (retag SWAPPED RUNNING <$> pre)
    ∧ (pre ≠ [] →
       n + bound pre
       ≤ max_num_seqs (Scheduler.scheduler_config (Scheduler.self f)))
    ∧ swap_in_stopped (n + bound pre) f'
    ∧ (pre = [] → f' = f)
    ∧ Scheduler.scheduler_config (Scheduler.self f')
      = Scheduler.scheduler_config (Scheduler.self f)
    ∧ Scheduler.waiting (Scheduler.self f')
      = Scheduler.waiting (Scheduler.self f)
    ∧ Scheduler.retrieval_blocks_to_swap_out f'
      = Scheduler.retrieval_blocks_to_swap_out f
    ∧ Scheduler.streaming_blocks_to_swap_out f'
      = Scheduler.streaming_blocks_to_swap_out f.

(** What swapping the groups [pre] in, one after the other, makes of the
    block manager [bm] and of the swap-in dicts [r] and [s]: the block
    manager swaps the group in, the mapping it returns updates the dicts,
    and it appends a slot for each sequence of the group, now [RUNNING]. *)
Fixpoint swapped_in (pre : list SequenceGroup) (bm : BM)
    (r s : gmap nat nat) : BM * (gmap nat nat * gmap nat nat) :=
  match pre with
  | [] => (bm, (r, s))
  | g :: pre =>
      let '(bm, (retrieval_mapping, streaming_mapping)) := swap_in bm g in
      swapped_in pre
        (foldl (λ bm seq, (append_slot bm seq).1) bm
           (get_seqs (Some RUNNING) (retag SWAPPED RUNNING g)))
        (retrieval_mapping ∪ r) (streaming_mapping ∪ s)
  end.

(** The block manager of [s] after [_allocate] of the groups [admitted],
    one after the other. *)
Definition allocated (admitted : list SequenceGroup) s : BM :=
  foldl (λ bm g, allocate bm g (Scheduler.ifb_mode s)
                   (Scheduler.init_num_blocks s))
        (Scheduler.block_manager s) admitted.

(** A group with its one waiting sequence, the prompt, of length [n]. *)
Definition prompt_of_length (g : SequenceGroup) (n : nat) : Prop :=
  ∃ seq, get_seqs (Some WAITING) g = [seq] ∧ get_len seq = n.

(** What the admission loop has done when it stops in frame [f'], having
    started in frame [f] with the locals [a]: the groups [consumed] have
    left the front of the waiting queue, [admitted] of them to the running
    queue and [ignored] of them for good. *)
Definition admit_post (a : Scheduler.Admission) f
    (r : Res Scheduler.Admission) f' : Prop :=
  ∃ (admitted ignored consumed : list SequenceGroup) (lens : list nat)
    (bm : BM),
    Forall2 prompt_of_length admitted lens
    ∧ admitted `sublist_of` consumed
    ∧ ignored `sublist_of` consumed
    ∧ length consumed = length admitted + length ignored
    ∧ Scheduler.waiting (Scheduler.self f)
      = consumed ++ Scheduler.waiting (Scheduler.self f')
    ∧ f' = Scheduler.set_self
             (Scheduler.set_running
                (Scheduler.running (Scheduler.self f)
                 ++ (retag WAITING RUNNING <$> admitted))
                (Scheduler.set_waiting
                   (Scheduler.waiting (Scheduler.self f'))
                   (Scheduler.set_block_manager bm (Scheduler.self f)))) f
    ∧ (admitted ≠ [] →
       sum_list (Scheduler.seq_lens a ++ lens)
       ≤ max_num_batched_tokens
           (Scheduler.scheduler_config (Scheduler.self f))
       ∧ Scheduler.num_curr_seqs a + bound admitted
         ≤ max_num_seqs (Scheduler.scheduler_config (Scheduler.self f)))
    ∧ (consumed = [] → f' = f)
    ∧ match r with
      | Val a' =>
          a' = Scheduler.mkAdmission
                 (Scheduler.ignored_seq_groups a
                  ++ (retag WAITING FINISHED_IGNORED <$> ignored))
                 (Scheduler.scheduled a
                  ++ (retag WAITING RUNNING <$> admitted))
                 (Scheduler.num_curr_seqs a + bound admitted)
                 (Scheduler.seq_lens a ++ lens)
      | Raise e => e = AssertionError one_prompt_sequence
      end.

(** Why the admission loop stops at the prompt [seq] of the group [g], in
    the scheduler [s] with the lengths [seq_lens] admitted so far and
    [num_curr_seqs] sequences counted: the block manager answers [LATER];
    or it answers [OK] and the sum of the lengths with this prompt is over
    [max_num_batched_tokens]; or the sum fits and the bound of the group
    takes the count over [max_num_seqs]. *)
Definition admission_stopped s (seq_lens : list nat) (num_curr_seqs : nat)
    g seq : Prop :=
  can_allocate (Scheduler.block_manager s) g (Scheduler.ifb_mode s)
    (Scheduler.init_num_blocks s) = LATER
  ∨ (can_allocate (Scheduler.block_manager s) g (Scheduler.ifb_mode s)
       (Scheduler.init_num_blocks s) = OK
     ∧ max_num_batched_tokens (Scheduler.scheduler_config s)
       < sum_list (seq_lens ++ [get_len seq]))
  ∨ (can_allocate (Scheduler.block_manager s) g (Scheduler.ifb_mode s)
       (Scheduler.init_num_blocks s) = OK
     ∧ sum_list (seq_lens ++ [get_len seq])
       ≤ max_num_batched_tokens (Scheduler.scheduler_config s)
     ∧ max_num_seqs (Scheduler.scheduler_config s)
       < num_curr_seqs + get_max_num_running_seqs g).

Definition first_locals s : Scheduler.Admission :=
  Scheduler.mkAdmission [] [] (Scheduler.running_seqs_bound s) [].

(** [num_batched_tokens] of a prompt run. *)
Definition padded_tokens (seq_lens : list nat) : nat :=
  match seq_lens with
  | [] => 0
  | _ :: _ => length seq_lens * max_list seq_lens
  end.

(** In each class, swap in and swap out are not both non-empty. *)
Definition swap_exclusive (o : SchedulerOutputs.t) : Prop :=
  ¬ (SchedulerOutputs.retrieval_blocks_to_swap_in o ≠ ∅
     ∧ SchedulerOutputs.retrieval_blocks_to_swap_out o ≠ ∅)
  ∧ ¬ (SchedulerOutputs.streaming_blocks_to_swap_in o ≠ ∅
       ∧ SchedulerOutputs.streaming_blocks_to_swap_out o ≠ ∅).

(** The two assertions of [SchedulerOutputs.__init__]. *)
Definition constructor_assertion (e : Exn) : Prop :=
  e = AssertionError retrieval_swap_in_and_out
  ∨ e = AssertionError streaming_swap_in_and_out.

(** The outcome of a tick: a plan that keeps swap in and swap out apart,
    or an exception that is not of the constructor's assertions. *)
Definition tick_outcome {A} (outputs : A → SchedulerOutputs.t)
    (r : Res A) : Prop :=
  match r with
  | Val a => swap_exclusive (outputs a)
  | Raise e => ¬ constructor_assertion e
  end.

(** C8 as it is worded: a tick in the prompt-admission mode ignores every
    waiting group whose prompt is over the limit, wherever it stands in the
    waiting queue. *)
Definition every_prompt_over_limit_ignored : Prop :=
  ∀ now s out s' g seq,
    Scheduler.swapped s = [] →
    Scheduler._schedule now s = (Val out, s') →
    SchedulerOutputs.prompt_run out = true →
    g ∈ Scheduler.waiting s →
    get_seqs (Some WAITING) g = [seq] →
    Scheduler.prompt_limit s < get_len seq →
    retag WAITING FINISHED_IGNORED g ∈ SchedulerOutputs.ignored_seq_groups out
    ∧ g ∉ Scheduler.waiting s'.

(** The mode that [_preempt] chooses for a group when it is given none:
    recomputation for a group whose bound is one. *)
Definition recomputes (g : SequenceGroup) : Prop :=
  get_max_num_running_seqs g = 1.

#[global] Instance recomputes_dec (g : SequenceGroup) : Decision (recomputes g).
Proof. unfold recomputes. apply _. Defined.

(** A group as [_preempt] leaves it when it is given no mode. *)
Definition preempted_as (g : SequenceGroup) : SequenceGroup :=
  if decide (recomputes g) then retag RUNNING WAITING g
  else retag RUNNING SWAPPED g.


(** The set of request ids that a call of [abort_seq_group] looks for. *)
Definition requested (r : RequestIds) : gset string :=
  list_to_set (match r with one_id r => [r] | many_ids l => l end).

(** A metadata record without its block tables. *)
Definition without_tables (m : SequenceGroupMetadata)
  : SequenceGroupMetadata :=
  mkMetadata (md_request_id m) (md_is_prompt m) (md_seq_data m)
    (md_sampling_params m) None None.


(** A group as [abort_seq_group] leaves it: each sequence that is not
    finished is [FINISHED_ABORTED]. *)
Definition aborted_group (g : SequenceGroup) : SequenceGroup :=
  mkSequenceGroup (request_id g)
    ((λ seq, if seq_is_finished seq then seq
             else set_status FINISHED_ABORTED seq) <$> seqs g)
    (arrival_time g) (sampling_params g).


(** The fields of a scheduler that are set when it is made or by
    [update_init_num_blocks]. *)
Definition same_settings s s' : Prop :=
  Scheduler.scheduler_config s' = Scheduler.scheduler_config s
  ∧ Scheduler.ifb_mode s' = Scheduler.ifb_mode s
  ∧ Scheduler.init_num_blocks s' = Scheduler.init_num_blocks s
  ∧ Scheduler.prompt_limit s' = Scheduler.prompt_limit s.


End statements.

(** ** Properties *)

Section properties.
Context {BM : Type} `{!BlockSpaceManager BM}.
Context `{!SequenceGroupBound} `{!Policy}.

Implicit Types (f : Scheduler.Frame BM) (s : Scheduler.t BM).
Implicit Types (g seq_group : SequenceGroup) (seq : Sequence).

(** *** Statuses after [retag] *)

Lemma get_seqs_retag_from from to g :
  from ≠ to → get_seqs (Some from) (retag from to g) = [].
Proof.
  intros Hne. unfold get_seqs, retag; simpl.
  induction (seqs g) as [|seq l IH]; [done|]. csimpl.
  destruct (decide (status seq = from)) as [Heq|Hneq].
  - rewrite filter_cons_False; [exact IH|]. simpl. congruence.
  - rewrite filter_cons_False; [exact IH|]. exact Hneq.
Qed.

Lemma elem_of_seqs_retag from to g seq :
  seq ∈ seqs g → status seq = from → set_status to seq ∈ seqs (retag from to g).
Proof.
  intros Hin Hst. unfold retag; simpl.
  apply list_elem_of_fmap. exists seq. split; [|done].
  by rewrite decide_True.
Qed.

(** *** _swap_out *)

(** C7: [_swap_out] raises exactly when the block manager cannot swap the
    group out, and a raise leaves the frame (the scheduler and the
    swap-out dicts with it) and the group as they were. *)
Theorem swap_out_raises_before_mutating f g :
  ((∃ e c, Scheduler._swap_out (f, g) = (Raise e, c))
   ↔ can_swap_out (Scheduler.block_manager (Scheduler.self f)) g = false)
  ∧ (∀ e c, Scheduler._swap_out (f, g) = (Raise e, c) → c = (f, g)).
Proof.
  unfold Scheduler._swap_out.
  destruct (can_swap_out _ g) eqn:Hcan; simpl.
  - destruct (swap_out _ g) as [bm [rm sm]]. split.
    + split; [intros (e & c & Heq); discriminate | discriminate].
    + intros e c Heq; discriminate.
  - split.
    + split; [done | intros _; eauto].
    + intros e c Heq. by inversion Heq.
Qed.

(** *** _preempt *)

Lemma preempt_by_recompute_one f g seq :
  get_seqs (Some RUNNING) g = [seq] →
  Scheduler._preempt_by_recompute (f, g)
  = (Val (),
     (Scheduler.set_self
        (Scheduler.set_waiting
           (retag RUNNING WAITING g :: Scheduler.waiting (Scheduler.self f))
           (Scheduler.set_block_manager
              (free (Scheduler.block_manager (Scheduler.self f))
                    (set_status WAITING seq))
              (Scheduler.self f))) f,
      retag RUNNING WAITING g)).
Proof. intros Hseqs. unfold Scheduler._preempt_by_recompute. by rewrite Hseqs. Qed.

Lemma preempt_by_swap_ok f g :
  can_swap_out (Scheduler.block_manager (Scheduler.self f)) g = true →
  Scheduler._preempt_by_swap (f, g)
  = (Val (),
     (Scheduler.set_self
        (Scheduler.set_swapped
           (Scheduler.swapped (Scheduler.self f) ++ [retag RUNNING SWAPPED g])
           (Scheduler.set_block_manager
              (swap_out (Scheduler.block_manager (Scheduler.self f)) g).1
              (Scheduler.self f)))
        (Scheduler.set_swap_out
           ((swap_out (Scheduler.block_manager (Scheduler.self f)) g).2.1
            ∪ Scheduler.retrieval_blocks_to_swap_out f)
           ((swap_out (Scheduler.block_manager (Scheduler.self f)) g).2.2
            ∪ Scheduler.streaming_blocks_to_swap_out f)
           f),
      retag RUNNING SWAPPED g)).
Proof.
  intros Hcan. unfold Scheduler._preempt_by_swap, Scheduler._swap_out, bind.
  rewrite Hcan; simpl.
  by destruct (swap_out _ g) as [bm [rm sm]].
Qed.

(** C5: with no explicit mode, a group whose bound is one is preempted by
    recomputation: its one running sequence becomes [WAITING] and is freed,
    and the group goes to the front of the waiting queue.  Any other group
    is preempted by swapping: it is swapped out and goes to the back of the
    swapped queue. *)
Theorem preempt_chooses_mode_by_shape f g :
  (get_max_num_running_seqs g = 1 →
     Scheduler._preempt None (f, g) = Scheduler._preempt_by_recompute (f, g)
     ∧ ∀ seq, get_seqs (Some RUNNING) g = [seq] →
         ∃ f' g',
           Scheduler._preempt None (f, g) = (Val (), (f', g'))
           ∧ g' = retag RUNNING WAITING g
           ∧ set_status WAITING seq ∈ seqs g'
           ∧ get_seqs (Some RUNNING) g' = []
           ∧ Scheduler.block_manager (Scheduler.self f')
             = free (Scheduler.block_manager (Scheduler.self f))
                    (set_status WAITING seq)
           ∧ Scheduler.waiting (Scheduler.self f')
             = g' :: Scheduler.waiting (Scheduler.self f)
           ∧ Scheduler.swapped (Scheduler.self f')
             = Scheduler.swapped (Scheduler.self f))
  ∧ (get_max_num_running_seqs g ≠ 1 →
     Scheduler._preempt None (f, g) = Scheduler._preempt_by_swap (f, g)
     ∧ (can_swap_out (Scheduler.block_manager (Scheduler.self f)) g = true →
         ∃ f' g',
           Scheduler._preempt None (f, g) = (Val (), (f', g'))
           ∧ g' = retag RUNNING SWAPPED g
           ∧ Scheduler.block_manager (Scheduler.self f')
             = (swap_out (Scheduler.block_manager (Scheduler.self f)) g).1
           ∧ Scheduler.retrieval_blocks_to_swap_out f'
             = (swap_out (Scheduler.block_manager (Scheduler.self f)) g).2.1
               ∪ Scheduler.retrieval_blocks_to_swap_out f
           ∧ Scheduler.streaming_blocks_to_swap_out f'
             = (swap_out (Scheduler.block_manager (Scheduler.self f)) g).2.2
               ∪ Scheduler.streaming_blocks_to_swap_out f
           ∧ Scheduler.swapped (Scheduler.self f')
             = Scheduler.swapped (Scheduler.self f) ++ [g']
           ∧ Scheduler.waiting (Scheduler.self f')
             = Scheduler.waiting (Scheduler.self f))).
Proof.
  split.
  - intros Hone.
    assert (Hmode : Scheduler._preempt None (f, g)
                    = Scheduler._preempt_by_recompute (f, g)).
    { unfold Scheduler._preempt. by rewrite Hone. }
    split; [exact Hmode|]. intros seq Hseqs.
    eexists _, _. rewrite Hmode, (preempt_by_recompute_one f g seq Hseqs).
    split; [reflexivity|]. split; [reflexivity|].
    split.
    { apply elem_of_seqs_retag.
      - assert (Hin : seq ∈ get_seqs (Some RUNNING) g)
          by (rewrite Hseqs; apply list_elem_of_here).
        unfold get_seqs in Hin. by apply list_elem_of_filter in Hin as [_ ?].
      - assert (Hin : seq ∈ get_seqs (Some RUNNING) g)
          by (rewrite Hseqs; apply list_elem_of_here).
        unfold get_seqs in Hin. by apply list_elem_of_filter in Hin as [? _]. }
    split; [by apply get_seqs_retag_from|]. done.
  - intros Hmany.
    assert (Hmode : Scheduler._preempt None (f, g)
                    = Scheduler._preempt_by_swap (f, g)).
    { unfold Scheduler._preempt.
      destruct (get_max_num_running_seqs g =? 1) eqn:Heq; [|done].
      apply Nat.eqb_eq in Heq. done. }
    split; [exact Hmode|]. intros Hcan.
    eexists _, _. rewrite Hmode, (preempt_by_swap_ok f g Hcan).
    split; [reflexivity|]. done.
Qed.

(** *** free_finished_seq_groups *)

(** C10: [free_finished_seq_groups] keeps, in their order and as they are,
    exactly the running groups that are not finished, and touches nothing
    else: not the waiting queue, not the swapped queue, not the block
    manager. *)
Theorem free_finished_seq_groups_frame s :
  (∀ g, g ∈ Scheduler.running (Scheduler.free_finished_seq_groups s)
        ↔ g ∈ Scheduler.running s ∧ is_finished g = false)
  ∧ Scheduler.running (Scheduler.free_finished_seq_groups s)
    `sublist_of` Scheduler.running s
  ∧ Scheduler.waiting (Scheduler.free_finished_seq_groups s)
    = Scheduler.waiting s
  ∧ Scheduler.swapped (Scheduler.free_finished_seq_groups s)
    = Scheduler.swapped s
  ∧ Scheduler.block_manager (Scheduler.free_finished_seq_groups s)
    = Scheduler.block_manager s
  ∧ Scheduler.free_finished_seq_groups s
    = Scheduler.set_running
        (Scheduler.running (Scheduler.free_finished_seq_groups s)) s.
Proof.
  unfold Scheduler.free_finished_seq_groups; simpl.
  split; [|split; [|done]].
  - intros g. rewrite list_elem_of_filter. tauto.
  - apply sublist_filter.
Qed.

(** *** add_seq_group, then abort_seq_group *)

Lemma abort_frees_unfinished (bm : BM) (l : list Sequence) :
  foldl (λ bm seq, if seq_is_finished seq then bm
                   else free bm (set_status FINISHED_ABORTED seq)) bm l
  = foldl (λ bm seq, free bm (set_status FINISHED_ABORTED seq)) bm
          (filter (λ seq, seq_is_finished seq = false) l).
Proof.
  revert bm. induction l as [|seq l IH]; intros bm; [done|]. simpl.
  destruct (seq_is_finished seq) eqn:Hfin.
  - rewrite filter_cons_False by (rewrite Hfin; done). apply IH.
  - rewrite filter_cons_True by done. simpl. apply IH.
Qed.

Lemma abort_in_queue_nil (ids : gset string) (bm : BM) done :
  Scheduler.abort_in_queue [] ids bm done = ([], ids, bm, done).
Proof. done. Qed.

Lemma abort_in_queue_one g (bm : BM) :
  Scheduler.abort_in_queue [g] (list_to_set [request_id g]) bm []
  = ([], list_to_set [request_id g] ∖ {[request_id g]},
     (Scheduler.abort_seqs bm g).1, [(Scheduler.abort_seqs bm g).2]).
Proof.
  unfold Scheduler.abort_in_queue; simpl.
  rewrite decide_False by set_solver.
  rewrite decide_True by set_solver.
  simpl. by rewrite decide_True.
Qed.

(** C9: on a scheduler with empty queues, adding a group and aborting its
    request leaves nothing unfinished; every sequence of the group that was
    not finished is [FINISHED_ABORTED] and has been freed, in order, in the
    block manager. *)
Theorem add_then_abort_round_trip s g :
  Scheduler.waiting s = [] →
  Scheduler.running s = [] →
  Scheduler.swapped s = [] →
  ∃ s' g',
    Scheduler.abort_seq_group (one_id (request_id g))
      (Scheduler.add_seq_group g s) = (s', [g'])
    ∧ Scheduler.has_unfinished_seqs s' = false
    ∧ seqs g' = (λ seq, if seq_is_finished seq then seq
                        else set_status FINISHED_ABORTED seq) <$> seqs g
    ∧ (∀ seq, seq ∈ seqs g → seq_is_finished seq = false →
              set_status FINISHED_ABORTED seq ∈ seqs g')
    ∧ Scheduler.block_manager s'
      = foldl (λ bm seq, free bm (set_status FINISHED_ABORTED seq))
              (Scheduler.block_manager s)
              (filter (λ seq, seq_is_finished seq = false) (seqs g)).
Proof.
  intros Hw Hr Hs.
  unfold Scheduler.abort_seq_group, Scheduler.add_seq_group; simpl.
  rewrite Hw, Hr, Hs; simpl.
  rewrite abort_in_queue_one; simpl; rewrite ?abort_in_queue_nil.
  eexists _, _. split; [reflexivity|]. simpl.
  split; [done|]. split; [done|]. split.
  - intros seq Hin Hfin. apply list_elem_of_fmap. exists seq.
    by rewrite Hfin.
  - apply abort_frees_unfinished.
Qed.

(** *** What the helpers leave of a frame *)

Local Abbreviation bound := (sum_list_with get_max_num_running_seqs).

Lemma pop_right_Some {A} (l rest : list A) (x : A) :
  pop_right l = Some (rest, x) → l = rest ++ [x].
Proof.
  revert rest. induction l as [|y l IH]; intros rest; simpl; [done|].
  destruct (pop_right l) as [[front z]|] eqn:Hpop.
  - intros [= <- <-]. simpl. f_equal. by apply IH.
  - intros [= <- <-]. destruct l as [|z l]; [done|].
    simpl in Hpop. by destruct (pop_right l) as [[??]|].
Qed.

Lemma pop_right_None {A} (l : list A) : pop_right l = None → l = [].
Proof.
  destruct l as [|y l]; simpl; [done|].
  by destruct (pop_right l) as [[??]|].
Qed.

Lemma append_slot_seqs_shape f (l : list Sequence) :
  ∃ bm rc sc,
    foldl Scheduler.append_slot_seq f l
    = Scheduler.set_copy rc sc
        (Scheduler.set_self
           (Scheduler.set_block_manager bm (Scheduler.self f)) f).
Proof.
  revert f. induction l as [|seq l IH]; intros f; simpl.
  - exists (Scheduler.block_manager (Scheduler.self f)),
      (Scheduler.retrieval_blocks_to_copy f),
      (Scheduler.streaming_blocks_to_copy f).
    by destruct f as [[] ? ? ? ? ? ?].
  - destruct (IH (Scheduler.append_slot_seq f seq)) as (bm & rc & sc & ->).
    exists bm, rc, sc. unfold Scheduler.append_slot_seq.
    by destruct (append_slot _ seq) as [bm' [rr sr]].
Qed.

Lemma on_group_append_slot f g :
  ∃ bm rc sc,
    Scheduler.on_group Scheduler._append_slot g f
    = (Val g,
       Scheduler.set_copy rc sc
         (Scheduler.set_self
            (Scheduler.set_block_manager bm (Scheduler.self f)) f)).
Proof.
  unfold Scheduler.on_group, Scheduler._append_slot.
  destruct (append_slot_seqs_shape f (get_seqs (Some RUNNING) g))
    as (bm & rc & sc & ->).
  by exists bm, rc, sc.
Qed.

Lemma on_group_swap_in_append_slot f g :
  ∃ bm rc sc,
    Scheduler.on_group (do _ <- Scheduler._swap_in; Scheduler._append_slot)
      g f
    = (Val (retag SWAPPED RUNNING g),
       Scheduler.set_copy rc sc
         (Scheduler.set_self
            (Scheduler.set_block_manager bm (Scheduler.self f))
            (Scheduler.set_swap_in
               ((swap_in (Scheduler.block_manager (Scheduler.self f)) g).2.1
                ∪ Scheduler.retrieval_blocks_to_swap_in f)
               ((swap_in (Scheduler.block_manager (Scheduler.self f)) g).2.2
                ∪ Scheduler.streaming_blocks_to_swap_in f)
               f))).
Proof.
  unfold Scheduler.on_group, bind, Scheduler._swap_in,
    Scheduler._append_slot.
  destruct (swap_in _ g) as [bm' [rm sm]]; simpl.
  match goal with
  | |- context [foldl Scheduler.append_slot_seq ?f0 ?l] =>
      destruct (append_slot_seqs_shape f0 l) as (bm & rc & sc & ->)
  end.
  by exists bm, rc, sc.
Qed.

Lemma on_group_allocate f g :
  Scheduler.on_group Scheduler._allocate g f
  = (Val (retag WAITING RUNNING g),
     Scheduler.set_self
       (Scheduler.set_block_manager
          (allocate (Scheduler.block_manager (Scheduler.self f)) g
             (Scheduler.ifb_mode (Scheduler.self f))
             (Scheduler.init_num_blocks (Scheduler.self f)))
          (Scheduler.self f)) f).
Proof. done. Qed.

(** The three ways [_preempt] ends when no mode is given. *)
Lemma on_group_preempt f g r f' :
  Scheduler.on_group (Scheduler._preempt None) g f = (r, f') →
  (∃ e, r = Raise e ∧ f' = f ∧ from_preempt e)
  ∨ (∃ bm, r = Val (retag RUNNING WAITING g)
           ∧ f' = Scheduler.set_self
                    (Scheduler.set_waiting
                       (retag RUNNING WAITING g
                        :: Scheduler.waiting (Scheduler.self f))
                       (Scheduler.set_block_manager bm (Scheduler.self f)))
                    f)
  ∨ (∃ bm rm sm, r = Val (retag RUNNING SWAPPED g)
           ∧ f' = Scheduler.set_self
                    (Scheduler.set_swapped
                       (Scheduler.swapped (Scheduler.self f)
                        ++ [retag RUNNING SWAPPED g])
                       (Scheduler.set_block_manager bm (Scheduler.self f)))
                    (Scheduler.set_swap_out
                       (rm ∪ Scheduler.retrieval_blocks_to_swap_out f)
                       (sm ∪ Scheduler.streaming_blocks_to_swap_out f) f)).
Proof.
  unfold Scheduler.on_group, Scheduler._preempt.
  destruct (get_max_num_running_seqs g =? 1).
  - unfold Scheduler._preempt_by_recompute.
    destruct (length (get_seqs (Some RUNNING) g) =? 1); simpl.
    + intros [= <- <-]. right; left. by eexists.
    + intros [= <- <-]. left. eexists. split; [done|]. split; [done|].
      by left.
  - unfold Scheduler._preempt_by_swap, Scheduler._swap_out, bind.
    destruct (can_swap_out _ g); simpl.
    + destruct (swap_out _ g) as [bm [rm sm]]. intros [= <- <-].
      right; right. by exists bm, rm, sm.
    + intros [= <- <-]. left. eexists. split; [done|]. split; [done|].
      right. by eexists.
Qed.

(** *** The loop that reserves slots *)

Lemma reserve_slot_unfold fuel g lr p f :
  Scheduler.reserve_slot fuel g lr p f
  = if can_append_slot (Scheduler.block_manager (Scheduler.self f)) g then
      match Scheduler.on_group Scheduler._append_slot g f with
      | (Val g', f') => (Val (lr ++ [g'], p), f')
      | (Raise e, f') => (Raise e, f')
      end
    else
      match pop_right (Scheduler.running (Scheduler.self f)) with
      | Some (rest, v) =>
        match fuel with
        | 0 => (Val (lr, p), f)
        | S fuel =>
          match Scheduler.on_group (Scheduler._preempt None) v
                  (Scheduler.set_self
                     (Scheduler.set_running rest (Scheduler.self f)) f) with
          | (Val v', f') => Scheduler.reserve_slot fuel g lr (p ++ [v']) f'
          | (Raise e, f') => (Raise e, f')
          end
        end
      | None =>
        match Scheduler.on_group (Scheduler._preempt None) g f with
        | (Val g', f') => (Val (lr, p ++ [g']), f')
        | (Raise e, f') => (Raise e, f')
        end
      end.
Proof. by destruct fuel. Qed.

Lemma reserve_slot_spec fuel g lr p f r f' :
  Scheduler.reserve_slot fuel g lr p f = (r, f') →
  reserve_keeps f f'
  ∧ bound (Scheduler.running (Scheduler.self f'))
    ≤ bound (Scheduler.running (Scheduler.self f))
  ∧ length (Scheduler.running (Scheduler.self f'))
    ≤ length (Scheduler.running (Scheduler.self f))
  ∧ match r with
    | Val (lr', p') =>
        preempted_grows p p' f f'
        ∧ bound lr' ≤ bound lr + get_max_num_running_seqs g
    | Raise e => from_preempt e
    end.
Proof.
  revert p f.
  induction fuel as [|fuel IH]; intros p f; rewrite reserve_slot_unfold;
    (destruct (can_append_slot _ g);
     [ destruct (on_group_append_slot f g) as (bm & rc & sc & ->);
       intros [= <- <-]; simpl; repeat split; try done;
       [ exists []; by rewrite app_nil_r
       | rewrite sum_list_with_app; simpl; lia ]
     | destruct (pop_right _) as [[rest v]|] eqn:Hpop;
       [ apply pop_right_Some in Hpop
       | destruct (Scheduler.on_group _ g f) as [r0 f0] eqn:Hpre;
         apply on_group_preempt in Hpre
           as [(e & -> & -> & He)|[(bm & -> & ->)|(bm & rm & sm & -> & ->)]];
         intros [= <- <-]; simpl; repeat split; try done; try lia;
         by eexists ] ]).
  - intros [= <- <-]. repeat split; try done; try lia.
    exists []. by rewrite app_nil_r.
  - destruct (Scheduler.on_group _ v _) as [r0 f0] eqn:Hpre.
    apply on_group_preempt in Hpre
      as [(e & -> & -> & He)|[(bm & -> & ->)|(bm & rm & sm & -> & ->)]].
    + intros [= <- <-]. simpl. rewrite Hpop, sum_list_with_app, length_app.
      repeat split; try done; lia.
    + intros Hrec. apply IH in Hrec as ((Hc & Hri & Hsi) & Hb & Hl & Hr).
      simpl in *. rewrite Hpop, sum_list_with_app, length_app.
      split; [done|]. split; [lia|]. split; [lia|].
      destruct r as [[lr' p']|e]; [|done].
      destruct Hr as [(q & -> & Hq) Hlr]. split; [|done].
      exists (retag RUNNING WAITING v :: q).
      split; [by rewrite <-app_assoc|]. done.
    + intros Hrec. apply IH in Hrec as ((Hc & Hri & Hsi) & Hb & Hl & Hr).
      simpl in *. rewrite Hpop, sum_list_with_app, length_app.
      split; [done|]. split; [lia|]. split; [lia|].
      destruct r as [[lr' p']|e]; [|done].
      destruct Hr as [(q & -> & Hq) Hlr]. split; [|done].
      exists (retag RUNNING SWAPPED v :: q).
      split; [by rewrite <-app_assoc|]. done.
Qed.

Lemma reserve_running_unfold fuel lr p f :
  Scheduler.reserve_running fuel lr p f
  = match Scheduler.running (Scheduler.self f) with
    | [] => (Val (lr, p), f)
    | g :: rest =>
      match fuel with
      | 0 => (Val (lr, p), f)
      | S fuel =>
        match Scheduler.reserve_slot fuel g lr p
                (Scheduler.set_self
                   (Scheduler.set_running rest (Scheduler.self f)) f) with
        | (Val (lr', p'), f') => Scheduler.reserve_running fuel lr' p' f'
        | (Raise e, f') => (Raise e, f')
        end
      end
    end.
Proof. by destruct fuel. Qed.

Lemma preempted_grows_refl p f : preempted_grows p p f f.
Proof. exists []. by rewrite app_nil_r. Qed.

Lemma preempted_grows_trans p1 p2 p3 f1 f2 f3 :
  preempted_grows p1 p2 f1 f2 → preempted_grows p2 p3 f2 f3 →
  preempted_grows p1 p3 f1 f3.
Proof.
  intros (q1 & -> & H1) (q2 & -> & H2). exists (q1 ++ q2).
  split; [by rewrite app_assoc|].
  intros [-> ->]%app_eq_nil.
  destruct (H1 eq_refl) as [<- <-]. by apply H2.
Qed.

Lemma reserve_running_spec fuel lr p f r f' :
  Scheduler.reserve_running fuel lr p f = (r, f') →
  reserve_keeps f f'
  ∧ bound (Scheduler.running (Scheduler.self f'))
    ≤ bound (Scheduler.running (Scheduler.self f))
  ∧ match r with
    | Val (lr', p') =>
        preempted_grows p p' f f'
        ∧ bound lr' ≤ bound lr + bound (Scheduler.running (Scheduler.self f))
        ∧ (length (Scheduler.running (Scheduler.self f)) ≤ fuel →
           Scheduler.running (Scheduler.self f') = [])
    | Raise e => from_preempt e
    end.
Proof.
  revert lr p f.
  induction fuel as [|fuel IH]; intros lr p f; rewrite reserve_running_unfold;
    destruct (Scheduler.running (Scheduler.self f)) as [|g rest] eqn:Hrun.
  - intros [= <- <-]. rewrite Hrun. repeat split; try done; simpl; try lia.
    apply preempted_grows_refl.
  - intros [= <- <-]. rewrite Hrun. repeat split; try done; simpl; try lia.
    apply preempted_grows_refl.
  - intros [= <- <-]. rewrite Hrun. repeat split; try done; simpl; try lia.
    apply preempted_grows_refl.
  - destruct (Scheduler.reserve_slot _ _ _ _ _) as [r1 f1] eqn:Hslot.
    apply reserve_slot_spec in Hslot
      as ((Hc1 & Hri1 & Hsi1) & Hb1 & Hl1 & Hr1).
    simpl in Hc1, Hri1, Hsi1, Hb1, Hl1.
    destruct r1 as [[lr1 p1]|e].
    + destruct Hr1 as [Hg1 Hlr1].
      intros Hrec. apply IH in Hrec as ((Hc & Hri & Hsi) & Hb & Hr).
      split; [unfold reserve_keeps; by rewrite Hc, Hri, Hsi|].
      simpl. split; [lia|].
      destruct r as [[lr' p']|e]; [|done].
      destruct Hr as (Hg & Hlr & Hempty).
      split; [|split; [lia|intros ?; apply Hempty; lia]].
      eapply preempted_grows_trans; [|exact Hg].
      destruct Hg1 as (q & -> & Hq). exists q. split; [done|].
      intros Hnil. by destruct (Hq Hnil).
    + intros [= <- <-]. repeat split; try done. simpl; lia.
Qed.

(** Fuel beyond the length of [self.running] changes nothing. *)
Lemma reserve_slot_fuel n m g lr p f :
  length (Scheduler.running (Scheduler.self f)) ≤ n →
  length (Scheduler.running (Scheduler.self f)) ≤ m →
  Scheduler.reserve_slot n g lr p f = Scheduler.reserve_slot m g lr p f.
Proof.
  revert m p f. induction n as [|n IH]; intros m p f Hn Hm;
    rewrite !(reserve_slot_unfold _ g lr p f);
    destruct (can_append_slot _ g); try done;
    destruct (pop_right _) as [[rest v]|] eqn:Hpop; try done;
    apply pop_right_Some in Hpop; rewrite Hpop, length_app in Hn, Hm;
    simpl in Hn, Hm; [lia|].
  destruct m as [|m]; [lia|].
  destruct (Scheduler.on_group _ v _) as [r0 f0] eqn:Hpre.
  apply on_group_preempt in Hpre
    as [(e & -> & -> & He)|[(bm & -> & ->)|(bm & rm & sm & -> & ->)]];
    [done | apply IH; simpl; lia..].
Qed.

Lemma reserve_running_fuel n m lr p f :
  length (Scheduler.running (Scheduler.self f)) ≤ n →
  length (Scheduler.running (Scheduler.self f)) ≤ m →
  Scheduler.reserve_running n lr p f = Scheduler.reserve_running m lr p f.
Proof.
  revert m lr p f. induction n as [|n IH]; intros m lr p f Hn Hm;
    rewrite !(reserve_running_unfold _ lr p f);
    destruct (Scheduler.running (Scheduler.self f)) as [|g rest] eqn:Hrun;
    try done; simpl in Hn, Hm; [lia|].
  destruct m as [|m]; [lia|].
  rewrite (reserve_slot_fuel n m) by (simpl; lia).
  destruct (Scheduler.reserve_slot m _ _ _ _) as [[[lr1 p1]|e] f1] eqn:Hslot;
    [|done].
  apply reserve_slot_spec in Hslot as (_ & _ & Hl & _). simpl in Hl.
  apply IH; lia.
Qed.

Lemma reserve_phase_spec now f r f' :
  Scheduler.reserve_phase now f = (r, f') →
  reserve_keeps f f'
  ∧ bound (Scheduler.running (Scheduler.self f'))
    ≤ bound (sort_by_priority now (Scheduler.running (Scheduler.self f)))
  ∧ match r with
    | Val preempted =>
        preempted = [] →
        Scheduler.retrieval_blocks_to_swap_out f'
        = Scheduler.retrieval_blocks_to_swap_out f
        ∧ Scheduler.streaming_blocks_to_swap_out f'
          = Scheduler.streaming_blocks_to_swap_out f
    | Raise e => from_preempt e
    end.
Proof.
  unfold Scheduler.reserve_phase.
  destruct (Scheduler.reserve_running _ _ _ _) as [r1 f1] eqn:Hres.
  apply reserve_running_spec in Hres as ((Hc & Hri & Hsi) & Hb & Hr).
  simpl in Hc, Hri, Hsi, Hb, Hr.
  destruct r1 as [[lr p]|e]; intros [= <- <-]; simpl.
  - destruct Hr as ((q & Hq & Hmaps) & Hlr & _). simpl in *.
    split; [done|]. split; [lia|].
    intros ->. apply Hmaps. by rewrite <-Hq.
  - done.
Qed.

(** *** The swap-in loop *)

Lemma swap_in_loop_unfold fuel n f :
  Scheduler.swap_in_loop fuel n f
  = match Scheduler.swapped (Scheduler.self f) with
    | [] => (Val n, f)
    | g :: rest =>
      match fuel with
      | 0 => (Val n, f)
      | S fuel =>
        if negb (can_swap_in (Scheduler.block_manager (Scheduler.self f)) g)
        then (Val n, f)
        else if max_num_seqs (Scheduler.scheduler_config (Scheduler.self f))
                <? n + get_max_num_running_seqs g
        then (Val n, f)
        else
          match Scheduler.on_group
                  (do _ <- Scheduler._swap_in; Scheduler._append_slot) g
                  (Scheduler.set_self
                     (Scheduler.set_swapped rest (Scheduler.self f)) f) with
          | (Val g', f') =>
              Scheduler.swap_in_loop fuel (n + get_max_num_running_seqs g)
                (Scheduler.set_self
                   (Scheduler.set_running
                      (Scheduler.running (Scheduler.self f') ++ [g'])
                      (Scheduler.self f')) f')
          | (Raise e, f') => (Raise e, f')
          end
      end
    end.
Proof. by destruct fuel. Qed.

Lemma swap_in_loop_stay n f :
  swap_in_stopped n f → swap_in_loop_post n f (Val n) f.
Proof.
  intros Hstop. exists []. simpl. rewrite Nat.add_0_r, app_nil_r.
  by repeat split.
Qed.

Lemma swap_in_loop_spec fuel n f r f' :
  Scheduler.swap_in_loop fuel n f = (r, f') →
  length (Scheduler.swapped (Scheduler.self f)) ≤ fuel →
  swap_in_loop_post n f r f'.
Proof.
  revert n f. induction fuel as [|fuel IH]; intros n f;
    rewrite swap_in_loop_unfold;
    destruct (Scheduler.swapped (Scheduler.self f)) as [|g rest] eqn:Hsw;
    simpl.
  - intros [= <- <-] _. apply swap_in_loop_stay.
    unfold swap_in_stopped. by rewrite Hsw.
  - intros _ ?. lia.
  - intros [= <- <-] _. apply swap_in_loop_stay.
    unfold swap_in_stopped. by rewrite Hsw.
  - destruct (can_swap_in _ g) eqn:Hcan; simpl.
    2:{ intros [= <- <-] _. apply swap_in_loop_stay.
        unfold swap_in_stopped. rewrite Hsw. by left. }
    destruct (Nat.ltb_spec
                (max_num_seqs (Scheduler.scheduler_config (Scheduler.self f)))
                (n + get_max_num_running_seqs g)) as [Hcap|Hcap].
    { intros [= <- <-] _. apply swap_in_loop_stay.
      unfold swap_in_stopped. rewrite Hsw. by right. }
    match goal with
    | |- context [Scheduler.on_group _ g ?f0] =>
        destruct (on_group_swap_in_append_slot f0 g)
          as (bm & rc & sc & ->)
    end.
    intros Hrec Hlen. apply IH in Hrec; [|simpl; lia].
    destruct Hrec as (pre & -> & Hpre & Hrun & Hmax & Hstop & _ & Hc & Hw
                      & Hro & Hso).
    simpl in *.
    exists (g :: pre). simpl.
    rewrite Nat.add_assoc. split; [done|].
    split; [by rewrite <-Hpre|].
    split; [by rewrite Hrun, <-app_assoc|].
    split.
    { intros _. destruct pre as [|g' pre]; [simpl; lia|].
      apply Hmax. done. }
    done.
Qed.

Lemma swap_in_loop_fuel n m k f :
  length (Scheduler.swapped (Scheduler.self f)) ≤ n →
  length (Scheduler.swapped (Scheduler.self f)) ≤ m →
  Scheduler.swap_in_loop n k f = Scheduler.swap_in_loop m k f.
Proof.
  revert m k f. induction n as [|n IH]; intros m k f Hn Hm;
    rewrite !(swap_in_loop_unfold _ k f);
    destruct (Scheduler.swapped (Scheduler.self f)) as [|g rest] eqn:Hsw;
    try done; simpl in Hn, Hm; [lia|].
  destruct m as [|m]; [lia|].
  destruct (negb _); [done|]. destruct (_ <? _); [done|].
  match goal with
  | |- context [Scheduler.on_group _ g ?f0] =>
      destruct (on_group_swap_in_append_slot f0 g) as (bm & rc & sc & ->)
  end.
  apply IH; simpl; lia.
Qed.

(** *** The loop that admits waiting groups *)

Lemma admit_waiting_unfold fuel a f :
  Scheduler.admit_waiting fuel a f
  = match Scheduler.waiting (Scheduler.self f) with
    | [] => (Val a, f)
    | g :: _ =>
      match fuel with
      | 0 => (Val a, f)
      | S fuel =>
        match get_seqs (Some WAITING) g with
        | [seq] =>
          if Scheduler.prompt_limit (Scheduler.self f) <? get_len seq then
            Scheduler.admit_waiting fuel (Scheduler.ignore g a)
              (Scheduler.popleft_waiting f)
          else
            match can_allocate (Scheduler.block_manager (Scheduler.self f))
                    g (Scheduler.ifb_mode (Scheduler.self f))
                    (Scheduler.init_num_blocks (Scheduler.self f)) with
            | LATER => (Val a, f)
            | NEVER =>
                Scheduler.admit_waiting fuel (Scheduler.ignore g a)
                  (Scheduler.popleft_waiting f)
            | OK =>
              if max_num_batched_tokens
                   (Scheduler.scheduler_config (Scheduler.self f))
                 <? sum_list (Scheduler.seq_lens a ++ [get_len seq])
              then (Val a, f)
              else if max_num_seqs
                        (Scheduler.scheduler_config (Scheduler.self f))
                      <? Scheduler.num_curr_seqs a
                         + get_max_num_running_seqs g
              then (Val a, f)
              else
                match Scheduler.on_group Scheduler._allocate g
                        (Scheduler.popleft_waiting f) with
                | (Val g', f') =>
                    Scheduler.admit_waiting fuel
                      (Scheduler.mkAdmission
                         (Scheduler.ignored_seq_groups a)
                         (Scheduler.scheduled a ++ [g'])
                         (Scheduler.num_curr_seqs a
                          + get_max_num_running_seqs g)
                         (Scheduler.seq_lens a ++ [get_len seq]))
                      (Scheduler.set_self
                         (Scheduler.set_running
                            (Scheduler.running (Scheduler.self f') ++ [g'])
                            (Scheduler.self f')) f')
                | (Raise e, f') => (Raise e, f')
                end
            end
        | _ => (Raise (AssertionError one_prompt_sequence), f)
        end
      end
    end.
Proof. by destruct fuel. Qed.

Lemma admit_post_stay a f : admit_post a f (Val a) f.
Proof.
  exists [], [], [], [], (Scheduler.block_manager (Scheduler.self f)).
  simpl. rewrite !app_nil_r, Nat.add_0_r.
  split; [constructor|]. split; [done|]. split; [done|]. split; [done|].
  split; [done|]. split; [by destruct f as [[] ? ? ? ? ? ?]|].
  split; [done|]. split; [done|]. by destruct a.
Qed.

Lemma admit_post_raise a f :
  admit_post a f (Raise (AssertionError one_prompt_sequence)) f.
Proof.
  exists [], [], [], [], (Scheduler.block_manager (Scheduler.self f)).
  simpl. rewrite !app_nil_r.
  split; [constructor|]. split; [done|]. split; [done|]. split; [done|].
  split; [done|]. split; [by destruct f as [[] ? ? ? ? ? ?]|]. done.
Qed.

Lemma admit_post_ignore a f g w r f' :
  Scheduler.waiting (Scheduler.self f) = g :: w →
  admit_post (Scheduler.ignore g a) (Scheduler.popleft_waiting f) r f' →
  admit_post a f r f'.
Proof.
  intros Hw (adm & ign & con & lens & bm & Hlens & Hadm & Hign & Hlen & Hcon
             & Hf' & Hcap & _ & Hr).
  simpl in *. rewrite Hw in Hcon; simpl in Hcon.
  exists adm, (g :: ign), (g :: con), lens, bm.
  split; [done|]. split; [by apply sublist_cons|].
  split; [by apply sublist_skip|]. split; [simpl; lia|].
  split; [by rewrite Hw, Hcon|]. split; [done|]. split; [done|].
  split; [done|].
  destruct r as [a'|e]; [|done].
  rewrite Hr. simpl. by rewrite <-app_assoc.
Qed.

Lemma admit_post_admit a f g w seq (bm1 : BM) r f' :
  Scheduler.waiting (Scheduler.self f) = g :: w →
  get_seqs (Some WAITING) g = [seq] →
  sum_list (Scheduler.seq_lens a ++ [get_len seq])
  ≤ max_num_batched_tokens (Scheduler.scheduler_config (Scheduler.self f)) →
  Scheduler.num_curr_seqs a + get_max_num_running_seqs g
  ≤ max_num_seqs (Scheduler.scheduler_config (Scheduler.self f)) →
  admit_post
    (Scheduler.mkAdmission (Scheduler.ignored_seq_groups a)
       (Scheduler.scheduled a ++ [retag WAITING RUNNING g])
       (Scheduler.num_curr_seqs a + get_max_num_running_seqs g)
       (Scheduler.seq_lens a ++ [get_len seq]))
    (Scheduler.set_self
       (Scheduler.set_running
          (Scheduler.running (Scheduler.self f) ++ [retag WAITING RUNNING g])
          (Scheduler.set_block_manager bm1
             (Scheduler.self (Scheduler.popleft_waiting f))))
       f) r f' →
  admit_post a f r f'.
Proof.
  intros Hw Hseq Htok Hcap
    (adm & ign & con & lens & bm & Hlens & Hadm & Hign & Hlen & Hcon & Hf'
     & Hcaps & _ & Hr).
  simpl in *. rewrite Hw in Hcon; simpl in Hcon.
  exists (g :: adm), ign, (g :: con), (get_len seq :: lens), bm.
  split; [constructor; [by exists seq|done]|].
  split; [by apply sublist_skip|]. split; [by apply sublist_cons|].
  split; [simpl; lia|].
  split; [by rewrite Hw, Hcon|].
  split; [by rewrite Hf' at 1; simpl; rewrite <-app_assoc|].
  split.
  { intros _. destruct adm as [|g' adm].
    - apply Forall2_nil_inv_l in Hlens as ->. simpl. lia.
    - destruct Hcaps as [H1 H2]; [done|].
      rewrite <-app_assoc in H1. simpl in *. lia. }
  split; [done|].
  destruct r as [a'|e]; [|done].
  rewrite Hr. simpl. rewrite <-!app_assoc. simpl. f_equal. lia.
Qed.

Lemma admit_waiting_spec fuel a f r f' :
  Scheduler.admit_waiting fuel a f = (r, f') → admit_post a f r f'.
Proof.
  revert a f. induction fuel as [|fuel IH]; intros a f;
    rewrite admit_waiting_unfold;
    destruct (Scheduler.waiting (Scheduler.self f)) as [|g w] eqn:Hw;
    try (intros [= <- <-]; apply admit_post_stay).
  destruct (get_seqs (Some WAITING) g) as [|seq [|??]] eqn:Hseq;
    try (intros [= <- <-]; apply admit_post_raise).
  destruct (_ <? get_len seq).
  { intros Hrec. eapply admit_post_ignore; [done|]. by apply IH. }
  destruct (can_allocate _ _ _ _).
  - destruct (Nat.ltb_spec
                (max_num_batched_tokens
                   (Scheduler.scheduler_config (Scheduler.self f)))
                (sum_list (Scheduler.seq_lens a ++ [get_len seq])))
      as [Htok|Htok]; [intros [= <- <-]; apply admit_post_stay|].
    destruct (Nat.ltb_spec
                (max_num_seqs (Scheduler.scheduler_config (Scheduler.self f)))
                (Scheduler.num_curr_seqs a + get_max_num_running_seqs g))
      as [Hcap|Hcap]; [intros [= <- <-]; apply admit_post_stay|].
    rewrite on_group_allocate. intros Hrec. apply IH in Hrec.
    eapply admit_post_admit; [done..|]. exact Hrec.
  - intros [= <- <-]; apply admit_post_stay.
  - intros Hrec. eapply admit_post_ignore; [done|]. by apply IH.
Qed.

Lemma admit_waiting_fuel n m a f :
  length (Scheduler.waiting (Scheduler.self f)) ≤ n →
  length (Scheduler.waiting (Scheduler.self f)) ≤ m →
  Scheduler.admit_waiting n a f = Scheduler.admit_waiting m a f.
Proof.
  revert m a f. induction n as [|n IH]; intros m a f Hn Hm;
    rewrite !(admit_waiting_unfold _ a f);
    destruct (Scheduler.waiting (Scheduler.self f)) as [|g w] eqn:Hw;
    try done; simpl in Hn, Hm; [lia|].
  destruct m as [|m]; [lia|].
  destruct (get_seqs (Some WAITING) g) as [|seq [|??]]; try done.
  destruct (_ <? get_len seq).
  { apply IH; simpl; rewrite Hw; simpl; lia. }
  destruct (can_allocate _ _ _ _); try done.
  - destruct (_ <? _); [done|]. destruct (_ <? _); [done|].
    rewrite on_group_allocate. apply IH; simpl; rewrite Hw; simpl; lia.
  - apply IH; simpl; rewrite Hw; simpl; lia.
Qed.

(** *** The anatomy of a tick *)

Lemma dict_bool_false {V} `{EqDecision V} (d : gmap nat V) :
  dict_bool d = false ↔ d = ∅.
Proof.
  unfold dict_bool. rewrite negb_false_iff. apply bool_decide_eq_true.
Qed.

(** The constructor returns exactly when, in each class, one of swap in
    and swap out is empty. *)
Lemma SchedulerOutputs_init_cases sg pr nbt (ri si ro so : gmap nat nat)
    (rc sc : gmap nat (list nat)) ig :
  ((ri = ∅ ∨ ro = ∅) ∧ (si = ∅ ∨ so = ∅)
   ∧ SchedulerOutputs.init sg pr nbt ri si ro so rc sc ig
     = Val (SchedulerOutputs.mk sg pr nbt ri si ro so rc sc ig))
  ∨ (¬ ((ri = ∅ ∨ ro = ∅) ∧ (si = ∅ ∨ so = ∅))
     ∧ ∃ a, SchedulerOutputs.init sg pr nbt ri si ro so rc sc ig
            = Raise (AssertionError a)
            ∧ (a = retrieval_swap_in_and_out
               ∨ a = streaming_swap_in_and_out)).
Proof.
  unfold SchedulerOutputs.init.
  destruct (dict_bool ri) eqn:Hri, (dict_bool ro) eqn:Hro;
    destruct (dict_bool si) eqn:Hsi, (dict_bool so) eqn:Hso; simpl;
    rewrite ?dict_bool_false in *;
    try (left; split; [|split]; by auto);
    right; (split; [|eexists; by eauto]);
    intros [[?|?] [?|?]]; subst;
    match goal with
    | H : dict_bool ∅ = true |- _ =>
        unfold dict_bool in H; by rewrite bool_decide_eq_true_2 in H
    end.
Qed.

Lemma swap_in_phase_spec now p f1 r f2 :
  Scheduler.swap_in_phase now p f1 = (r, f2) →
  r = Val ()
  ∧ (p ≠ [] →
     f2 = Scheduler.set_self
            (Scheduler.set_swapped
               (sort_by_priority now (Scheduler.swapped (Scheduler.self f1)))
               (Scheduler.self f1)) f1)
  ∧ (p = [] →
     ∃ n, swap_in_loop_post (bound (Scheduler.running (Scheduler.self f1)))
            (Scheduler.set_self
               (Scheduler.set_swapped
                  (sort_by_priority now
                     (Scheduler.swapped (Scheduler.self f1)))
                  (Scheduler.self f1)) f1)
            (Val n) f2).
Proof.
  unfold Scheduler.swap_in_phase.
  destruct p as [|g p]; simpl.
  - destruct (Scheduler.swap_in_loop _ _ _) as [r1 f3] eqn:Hloop.
    apply swap_in_loop_spec in Hloop; [|done].
    pose proof Hloop as (pre & -> & _).
    intros [= <- <-]. split; [done|]. split; [done|]. intros _.
    eexists. exact Hloop.
  - intros [= <- <-]. done.
Qed.

Lemma schedule_running_anatomy now f r f' :
  Scheduler.schedule_running now f = (r, f') →
  ∃ rp f1,
    Scheduler.reserve_phase now f = (rp, f1)
    ∧ match rp with
      | Raise e => r = Raise e ∧ f' = f1
      | Val preempted =>
          Scheduler.swap_in_phase now preempted f1 = (Val (), f')
          ∧ r = SchedulerOutputs.init
                  (Scheduler.running (Scheduler.self f')) false
                  (sum_list_with (num_seqs (Some RUNNING))
                     (Scheduler.running (Scheduler.self f')))
                  (Scheduler.retrieval_blocks_to_swap_in f')
                  (Scheduler.streaming_blocks_to_swap_in f')
                  (Scheduler.retrieval_blocks_to_swap_out f')
                  (Scheduler.streaming_blocks_to_swap_out f')
                  (Scheduler.retrieval_blocks_to_copy f')
                  (Scheduler.streaming_blocks_to_copy f') []
      end.
Proof.
  unfold Scheduler.schedule_running, bind.
  destruct (Scheduler.reserve_phase now f) as [[p|e] f1] eqn:Hres.
  - destruct (Scheduler.swap_in_phase now p f1) as [r2 f2] eqn:Hswap.
    pose proof (swap_in_phase_spec _ _ _ _ _ Hswap) as (-> & _).
    unfold Scheduler.decode_outputs, lift. intros [= <- <-].
    by eexists _, _.
  - intros [= <- <-]. by eexists _, _.
Qed.

Lemma schedule_anatomy now s r s' :
  Scheduler._schedule now s = (r, s') →
  (Scheduler.swapped s = []
   ∧ ∃ ra fa,
       Scheduler.admit_waiting (length (Scheduler.waiting s))
         (first_locals s) (Scheduler.new_frame s) = (ra, fa)
       ∧ s' = Scheduler.self fa
       ∧ match ra with
         | Raise e => r = Raise e
         | Val a =>
             list_bool (Scheduler.scheduled a)
             || list_bool (Scheduler.ignored_seq_groups a) = true
             ∧ r = Val (SchedulerOutputs.mk (Scheduler.scheduled a) true
                          (padded_tokens (Scheduler.seq_lens a))
                          ∅ ∅ ∅ ∅ ∅ ∅ (Scheduler.ignored_seq_groups a))
         end)
  ∨ (∃ f', Scheduler.schedule_running now (Scheduler.new_frame s) = (r, f')
           ∧ s' = Scheduler.self f'
           ∧ (Scheduler.swapped s = [] →
              Scheduler.admit_waiting (length (Scheduler.waiting s))
                (first_locals s) (Scheduler.new_frame s)
              = (Val (first_locals s), Scheduler.new_frame s))).
Proof.
  unfold Scheduler._schedule, bind.
  destruct (Scheduler.swapped s) as [|g0 sw] eqn:Hsw; simpl.
  2:{ destruct (Scheduler.schedule_running _ _) as [r1 f1].
      intros [= <- <-]. right. by eexists. }
  unfold Scheduler.schedule_waiting, bind. simpl.
  fold (first_locals s).
  destruct (Scheduler.admit_waiting _ _ _) as [[a|e] fa] eqn:Hadm.
  - pose proof (admit_waiting_spec _ _ _ _ _ Hadm) as Hpost.
    destruct (list_bool (Scheduler.scheduled a)
              || list_bool (Scheduler.ignored_seq_groups a)) eqn:Hany.
    + destruct Hpost as (adm & ign & con & lens & bm & _ & _ & _ & _ & _
                         & Hfa & _).
      unfold lift, ret. rewrite Hfa. simpl.
      intros [= <- <-]. left. split; [done|]. eexists _, _.
      split; [done|]. rewrite Hfa. simpl. split; [done|]. by split.
    + unfold ret.
      destruct Hpost as (adm & ign & con & lens & bm & Hlens & _ & _ & Hlen
                         & _ & _ & _ & Hstay & ->).
      simpl in Hany. apply orb_false_iff in Hany as [Hs Hi].
      destruct adm; [|done]. destruct ign; [|done].
      destruct con; [|done]. rewrite Hstay in * by done.
      apply Forall2_nil_inv_l in Hlens as ->.
      destruct (Scheduler.schedule_running _ _) as [r1 f1].
      intros [= <- <-]. right. eexists. split; [done|]. split; [done|].
      intros _. simpl. unfold first_locals. by rewrite Nat.add_0_r.
  - intros [= <- <-]. left. split; [done|]. by eexists _, _.
Qed.

(** *** Swap in and swap out exclude each other *)

Lemma from_preempt_not_constructor e :
  from_preempt e → ¬ constructor_assertion e.
Proof. intros [->|[msg ->]] [?|?]; discriminate. Qed.

(** A tick that runs no prompt, from the frame that [_schedule] builds. *)
Lemma schedule_running_outcome now s r f' :
  Scheduler.schedule_running now (Scheduler.new_frame s) = (r, f') →
  match r with
  | Val out =>
      SchedulerOutputs.prompt_run out = false
      ∧ SchedulerOutputs.scheduled_seq_groups out
        = Scheduler.running (Scheduler.self f')
      ∧ swap_exclusive out
  | Raise e => from_preempt e
  end.
Proof.
  intros Hrun. apply schedule_running_anatomy in Hrun
    as (rp & f1 & Hres & Hrp).
  apply reserve_phase_spec in Hres as ((_ & Hri & Hsi) & _ & Hp).
  simpl in Hri, Hsi.
  destruct rp as [p|e]; [|by destruct Hrp as [-> _]].
  destruct Hrp as [Hswap ->].
  apply swap_in_phase_spec in Hswap as (_ & Hsome & Hnone).
  match goal with
  | |- context [SchedulerOutputs.init ?sg ?pr ?n ?ri ?si ?ro ?so ?rc ?sc ?ig] =>
      destruct (SchedulerOutputs_init_cases sg pr n ri si ro so rc sc ig)
        as [(Hr & Hs & ->)|[Hno _]]
  end.
  - split; [done|]. split; [done|]. unfold swap_exclusive; simpl.
    split; intros [??]; tauto.
  - exfalso. apply Hno. destruct p as [|g p].
    + destruct Hnone as (n & pre & _ & _ & _ & _ & _ & _ & _ & _ & Hro & Hso);
        [done|].
      destruct Hp as [Hro1 Hso1]; [done|]. simpl in *.
      rewrite Hro, Hso, Hro1, Hso1. auto.
    + rewrite Hsome by done. simpl. rewrite Hri, Hsi. auto.
Qed.

(** C1: the plan that a tick returns never has, in one class, both a
    non-empty swap-in dict and a non-empty swap-out dict; and when a tick
    raises, it is not one of the two assertions of the constructor of
    [SchedulerOutputs].  This holds for [_schedule] and so for [schedule]
    and [prepare_input]. *)
Theorem swap_in_and_out_never_together now s :
  (∀ r s', Scheduler._schedule now s = (r, s') → tick_outcome id r)
  ∧ (∀ r s', Scheduler.schedule now s = (r, s') → tick_outcome snd r)
  ∧ (∀ r s', Scheduler.prepare_input now s = (r, s') → tick_outcome snd r).
Proof.
  assert (Htick : ∀ r s', Scheduler._schedule now s = (r, s') →
                          tick_outcome id r).
  { intros r s' Hsched.
    apply schedule_anatomy in Hsched
      as [(Hsw & ra & fa & Hadm & -> & Hra)|(f' & Hrun & -> & Hfall)].
    - apply admit_waiting_spec in Hadm
        as (? & ? & ? & ? & ? & _ & _ & _ & _ & _ & _ & _ & _ & Hr).
      destruct ra as [a|e].
      + destruct Hra as [_ ->]. simpl. unfold swap_exclusive; simpl.
        split; intros [? _]; done.
      + subst. simpl. intros [?|?]; discriminate.
    - apply schedule_running_outcome in Hrun.
      destruct r as [out|e]; simpl.
      + by destruct Hrun as (_ & _ & ?).
      + by apply from_preempt_not_constructor. }
  split; [exact Htick|]. split.
  - intros r s'. unfold Scheduler.schedule, bind.
    destruct (Scheduler._schedule now s) as [[out|e] s1];
      intros [= <- <-]; exact (Htick _ _ eq_refl).
  - intros r s'. unfold Scheduler.prepare_input, bind, ret.
    destruct (Scheduler._schedule now s) as [[out|e] s1];
      intros [= <- <-]; exact (Htick _ _ eq_refl).
Qed.

(** C2: a plan with [prompt_run] set moves no block, and comes from a tick
    that began with an empty swapped queue. *)
Theorem prompt_run_moves_no_block now s out s' :
  Scheduler._schedule now s = (Val out, s') →
  SchedulerOutputs.prompt_run out = true →
  Scheduler.swapped s = []
  ∧ SchedulerOutputs.retrieval_blocks_to_swap_in out = ∅
  ∧ SchedulerOutputs.streaming_blocks_to_swap_in out = ∅
  ∧ SchedulerOutputs.retrieval_blocks_to_swap_out out = ∅
  ∧ SchedulerOutputs.streaming_blocks_to_swap_out out = ∅
  ∧ SchedulerOutputs.retrieval_blocks_to_copy out = ∅
  ∧ SchedulerOutputs.streaming_blocks_to_copy out = ∅.
Proof.
  intros Hsched Hprompt.
  apply schedule_anatomy in Hsched
    as [(Hsw & ra & fa & Hadm & -> & Hra)|(f' & Hrun & -> & Hfall)].
  - destruct ra as [a|e]; [|done].
    destruct Hra as [_ [= ->]]. done.
  - apply schedule_running_outcome in Hrun as (Hfalse & _).
    congruence.
Qed.

(** *** The bound on the running sequences *)

Lemma bound_fmap_retag from to (l : list SequenceGroup) :
  (∀ g, get_max_num_running_seqs (retag from to g)
        = get_max_num_running_seqs g) →
  bound (retag from to <$> l) = bound l.
Proof.
  intros Hlaw. induction l as [|g l IH]; [done|].
  csimpl. by rewrite Hlaw, IH.
Qed.

(** C3: when the bound of a group does not depend on which of its live
    sequences wait, run or are swapped, and the policy only reorders, a
    tick keeps the sum of the bounds of the running groups within
    [max_num_seqs], whether it returns or raises. *)
Theorem running_bound_is_kept now s r s' :
  (∀ g, get_max_num_running_seqs (retag WAITING RUNNING g)
        = get_max_num_running_seqs g) →
  (∀ g, get_max_num_running_seqs (retag SWAPPED RUNNING g)
        = get_max_num_running_seqs g) →
  (∀ l, sort_by_priority now l ≡ₚ l) →
  Scheduler.running_seqs_bound s
  ≤ max_num_seqs (Scheduler.scheduler_config s) →
  Scheduler._schedule now s = (r, s') →
  Scheduler.running_seqs_bound s'
  ≤ max_num_seqs (Scheduler.scheduler_config s').
Proof.
  intros Hadmit Hswapin Hsort Hbound Hsched.
  unfold Scheduler.running_seqs_bound in *.
  apply schedule_anatomy in Hsched
    as [(Hsw & ra & fa & Hadm & -> & Hra)|(f' & Hrun & -> & Hfall)].
  - apply admit_waiting_spec in Hadm
      as (adm & ign & con & lens & bm & _ & _ & _ & _ & _ & -> & Hcap & _).
    simpl in *. rewrite sum_list_with_app, bound_fmap_retag by done.
    destruct adm as [|g adm]; [simpl; lia|].
    destruct Hcap as [_ Hcap]; [done|].
    unfold Scheduler.running_seqs_bound in Hcap. simpl in *. lia.
  - apply schedule_running_anatomy in Hrun as (rp & f1 & Hres & Hrp).
    apply reserve_phase_spec in Hres as ((Hc & _) & Hb & _).
    simpl in Hc, Hb. rewrite Hsort in Hb.
    destruct rp as [p|e]; [|destruct Hrp as [_ ->]; rewrite Hc; lia].
    destruct Hrp as [Hswap _].
    apply swap_in_phase_spec in Hswap as (_ & Hsome & Hnone).
    destruct p as [|g p].
    + destruct Hnone as (n & pre & _ & _ & Hrun & Hcap & _ & _ & Hc2 & _);
        [done|].
      simpl in *. rewrite Hc2, Hrun, Hc, sum_list_with_app.
      rewrite bound_fmap_retag by done.
      destruct pre as [|g pre]; [simpl; lia|].
      rewrite Hc in Hcap. apply Hcap. done.
    + rewrite Hsome by done. simpl. rewrite Hc. lia.
Qed.

(** *** The tokens of a prompt run *)

(** Why the admission loop stopped with a group left at the front of the
    waiting queue: the group is a prompt within the limit, and the block
    manager answered [LATER], or the sum of the prompt lengths with it goes
    over [max_num_batched_tokens], or its bound goes over [max_num_seqs]. *)
Lemma admit_waiting_stop fuel a f a' f' g rest :
  Scheduler.admit_waiting fuel a f = (Val a', f') →
  length (Scheduler.waiting (Scheduler.self f)) ≤ fuel →
  Scheduler.waiting (Scheduler.self f') = g :: rest →
  ∃ seq,
    get_seqs (Some WAITING) g = [seq]
    ∧ get_len seq ≤ Scheduler.prompt_limit (Scheduler.self f')
    ∧ admission_stopped (Scheduler.self f') (Scheduler.seq_lens a')
        (Scheduler.num_curr_seqs a') g seq.
Proof.
  revert a f. induction fuel as [|fuel IH]; intros a f;
    rewrite admit_waiting_unfold;
    destruct (Scheduler.waiting (Scheduler.self f)) as [|h w] eqn:Hw.
  - intros [= <- <-] _ Hw'. congruence.
  - simpl. lia.
  - intros [= <- <-] _ Hw'. congruence.
  - intros Hloop Hfuel Hw'. simpl in Hfuel.
    assert (Hrec : ∀ a1, Scheduler.admit_waiting fuel a1
                           (Scheduler.popleft_waiting f) = (Val a', f') →
              ∃ seq,
                get_seqs (Some WAITING) g = [seq]
                ∧ get_len seq ≤ Scheduler.prompt_limit (Scheduler.self f')
                ∧ admission_stopped (Scheduler.self f')
                    (Scheduler.seq_lens a') (Scheduler.num_curr_seqs a')
                    g seq).
    { intros a1 H1. apply (IH a1 _ H1); [|done].
      simpl. rewrite Hw. simpl. lia. }
    destruct (get_seqs (Some WAITING) h) as [|seq [|??]] eqn:Hseq; try done.
    destruct (Nat.ltb_spec (Scheduler.prompt_limit (Scheduler.self f))
                (get_len seq)) as [Hlong|Hlimit]; [by eapply Hrec|].
    unfold admission_stopped.
    destruct (can_allocate _ _ _ _) eqn:Hcan; [| |by eapply Hrec].
    + destruct (Nat.ltb_spec
                  (max_num_batched_tokens
                     (Scheduler.scheduler_config (Scheduler.self f)))
                  (sum_list (Scheduler.seq_lens a ++ [get_len seq])))
        as [Hover|Hfits].
      { injection Hloop as <- <-. rewrite Hw in Hw'. injection Hw' as <- <-.
        exists seq. split; [done|]. split; [done|]. right; left. by split. }
      destruct (Nat.ltb_spec
                  (max_num_seqs
                     (Scheduler.scheduler_config (Scheduler.self f)))
                  (Scheduler.num_curr_seqs a + get_max_num_running_seqs h))
        as [Hcap|Hroom].
      { injection Hloop as <- <-. rewrite Hw in Hw'. injection Hw' as <- <-.
        exists seq. split; [done|]. split; [done|]. right; right.
        by repeat split. }
      rewrite on_group_allocate in Hloop.
      apply (IH _ _ Hloop); [|done]. simpl. rewrite Hw. simpl. lia.
    + injection Hloop as <- <-. rewrite Hw in Hw'. injection Hw' as <- <-.
      exists seq. split; [done|]. split; [done|]. by left.
Qed.

(** C4: in a prompt run the admitted prompts, taken in order from the
    waiting queue, have lengths that sum to at most
    [max_num_batched_tokens], while the plan reports the padded rectangle,
    their number times the longest, which is 0 when none was admitted.
    Admission is gated by the sum: a group that the prompt run leaves at the
    front of the waiting queue is a prompt within the limit for which the
    block manager answered [LATER], or with which the sum of the lengths
    goes over [max_num_batched_tokens], or whose bound goes over
    [max_num_seqs]; the rectangle is no reason to stop.  The loop stops at
    a prompt that the limit and the block manager would let in when the sum
    with it goes over [max_num_batched_tokens]. *)
Theorem prompt_run_token_accounting now s out s' :
  Scheduler._schedule now s = (Val out, s') →
  SchedulerOutputs.prompt_run out = true →
  (∃ admitted seq_lens,
     admitted `sublist_of` Scheduler.waiting s
     ∧ Forall2 prompt_of_length admitted seq_lens
     ∧ SchedulerOutputs.scheduled_seq_groups out
       = retag WAITING RUNNING <$> admitted
     ∧ sum_list seq_lens
       ≤ max_num_batched_tokens (Scheduler.scheduler_config s)
     ∧ SchedulerOutputs.num_batched_tokens out
       = length seq_lens * max_list seq_lens
     ∧ (SchedulerOutputs.scheduled_seq_groups out = [] →
        SchedulerOutputs.num_batched_tokens out = 0)
     ∧ match Scheduler.waiting s' with
       | [] => True
       | g :: _ =>
           ∃ seq,
             get_seqs (Some WAITING) g = [seq]
             ∧ get_len seq ≤ Scheduler.prompt_limit s
             ∧ admission_stopped s' seq_lens
                 (Scheduler.running_seqs_bound s + bound admitted) g seq
       end
     ∧ Scheduler.scheduler_config s' = Scheduler.scheduler_config s
     ∧ Scheduler.ifb_mode s' = Scheduler.ifb_mode s
     ∧ Scheduler.init_num_blocks s' = Scheduler.init_num_blocks s)
  ∧ (∀ fuel a f g w seq,
       Scheduler.waiting (Scheduler.self f) = g :: w →
       get_seqs (Some WAITING) g = [seq] →
       get_len seq ≤ Scheduler.prompt_limit (Scheduler.self f) →
       can_allocate (Scheduler.block_manager (Scheduler.self f)) g
         (Scheduler.ifb_mode (Scheduler.self f))
         (Scheduler.init_num_blocks (Scheduler.self f)) ≠ NEVER →
       max_num_batched_tokens (Scheduler.scheduler_config (Scheduler.self f))
       < sum_list (Scheduler.seq_lens a ++ [get_len seq]) →
       Scheduler.admit_waiting fuel a f = (Val a, f)).
Proof.
  intros Hsched Hprompt. split.
  - apply schedule_anatomy in Hsched
      as [(Hsw & ra & fa & Hadm & -> & Hra)|(f' & Hrun & -> & Hfall)].
    2:{ apply schedule_running_outcome in Hrun as (Hfalse & _).
        congruence. }
    destruct ra as [a|e]; [|done]. destruct Hra as [_ [= ->]].
    assert (Hstop : ∀ g rest,
              Scheduler.waiting (Scheduler.self fa) = g :: rest →
              ∃ seq,
                get_seqs (Some WAITING) g = [seq]
                ∧ get_len seq ≤ Scheduler.prompt_limit (Scheduler.self fa)
                ∧ admission_stopped (Scheduler.self fa)
                    (Scheduler.seq_lens a) (Scheduler.num_curr_seqs a) g seq).
    { intros g rest. by apply (admit_waiting_stop _ _ _ _ _ _ _ Hadm). }
    apply admit_waiting_spec in Hadm
      as (adm & ign & con & lens & bm & Hlens & Hsub & _ & _ & Hcon & Hfa
          & Hcap & _ & ->).
    simpl in *. exists adm, lens.
    split; [rewrite Hcon; by apply sublist_inserts_r|].
    split; [done|]. split; [done|].
    split.
    { destruct adm as [|g adm].
      - apply Forall2_nil_inv_l in Hlens as ->. simpl. lia.
      - by destruct Hcap as [Hcap _]. }
    split; [by destruct lens|].
    split.
    { intros Hnone. apply fmap_nil_inv in Hnone as ->.
      by apply Forall2_nil_inv_l in Hlens as ->. }
    split; [|by rewrite Hfa].
    destruct (Scheduler.waiting (Scheduler.self fa)) as [|g rest] eqn:Hw';
      [done|].
    destruct (Hstop g rest eq_refl) as (seq & Hseq & Hlimit & Hwhy).
    exists seq. split; [done|]. split; [|done].
    by rewrite Hfa in Hlimit.
  - intros fuel a f g w seq Hw Hseq Hlimit Hnever Hover.
    rewrite admit_waiting_unfold, Hw.
    destruct fuel as [|fuel]; [done|]. rewrite Hseq.
    destruct (Nat.ltb_spec (Scheduler.prompt_limit (Scheduler.self f))
                (get_len seq)); [lia|].
    destruct (can_allocate _ _ _ _); [|done..].
    destruct (Nat.ltb_spec
                (max_num_batched_tokens
                   (Scheduler.scheduler_config (Scheduler.self f)))
                (sum_list (Scheduler.seq_lens a ++ [get_len seq])));
      [done|lia].
Qed.

(** *** Swapping in, only when nothing was preempted *)





(** *** Prompts over the limit *)

(** A tick that runs no prompt only pushes groups on the front of the
    waiting queue. *)
Lemma reserve_slot_waiting fuel g lr p f r f' :
  Scheduler.reserve_slot fuel g lr p f = (r, f') →
  Scheduler.waiting (Scheduler.self f)
  `suffix_of` Scheduler.waiting (Scheduler.self f').
Proof.
  revert p f.
  induction fuel as [|fuel IH]; intros p f; rewrite reserve_slot_unfold;
    (destruct (can_append_slot _ g);
     [ destruct (on_group_append_slot f g) as (bm & rc & sc & ->);
       by intros [= <- <-]
     | destruct (pop_right _) as [[rest v]|] eqn:Hpop;
       [ | destruct (Scheduler.on_group _ g f) as [r0 f0] eqn:Hpre;
           apply on_group_preempt in Hpre
             as [(e & -> & -> & He)|[(bm & -> & ->)|(bm & rm & sm & -> & ->)]];
           intros [= <- <-]; simpl; try done; by apply suffix_cons_r ] ]).
  - by intros [= <- <-].
  - destruct (Scheduler.on_group _ v _) as [r0 f0] eqn:Hpre.
    apply on_group_preempt in Hpre
      as [(e & -> & -> & He)|[(bm & -> & ->)|(bm & rm & sm & -> & ->)]].
    + by intros [= <- <-].
    + intros Hrec. apply IH in Hrec. simpl in Hrec.
      by eapply suffix_cons_l.
    + intros Hrec. by apply IH in Hrec.
Qed.

Lemma reserve_running_waiting fuel lr p f r f' :
  Scheduler.reserve_running fuel lr p f = (r, f') →
  Scheduler.waiting (Scheduler.self f)
  `suffix_of` Scheduler.waiting (Scheduler.self f').
Proof.
  revert lr p f.
  induction fuel as [|fuel IH]; intros lr p f; rewrite reserve_running_unfold;
    destruct (Scheduler.running (Scheduler.self f)) as [|g rest];
    try by intros [= <- <-].
  destruct (Scheduler.reserve_slot _ _ _ _ _) as [[[lr1 p1]|e] f1] eqn:Hslot;
    apply reserve_slot_waiting in Hslot; simpl in Hslot.
  - intros Hrec. apply IH in Hrec. by etrans.
  - by intros [= <- <-].
Qed.

Lemma schedule_running_waiting now f r f' :
  Scheduler.schedule_running now f = (r, f') →
  Scheduler.waiting (Scheduler.self f)
  `suffix_of` Scheduler.waiting (Scheduler.self f').
Proof.
  intros Hrun.
  apply schedule_running_anatomy in Hrun as (rp & f1 & Hres & Hrp).
  assert (Scheduler.waiting (Scheduler.self f)
          `suffix_of` Scheduler.waiting (Scheduler.self f1)) as H1.
  { unfold Scheduler.reserve_phase in Hres.
    destruct (Scheduler.reserve_running _ _ _ _) as [[[lr p]|e] f2] eqn:Hrr;
      apply reserve_running_waiting in Hrr; by injection Hres as <- <-. }
  destruct rp as [p|e]; [|by destruct Hrp as [_ ->]].
  destruct Hrp as [Hswap _].
  apply swap_in_phase_spec in Hswap as (_ & Hsome & Hnone).
  destruct p as [|g p].
  - destruct Hnone as (n & pre & _ & _ & _ & _ & _ & _ & _ & Hw & _); [done|].
    by rewrite Hw.
  - by rewrite Hsome.
Qed.

(** When the admission loop gets as far as a prompt over the limit, it
    ignores it. *)
Lemma admit_reaches_long_prompt fuel a f pre g post seq a' f' :
  Scheduler.admit_waiting fuel a f = (Val a', f') →
  length (Scheduler.waiting (Scheduler.self f)) ≤ fuel →
  Scheduler.waiting (Scheduler.self f) = pre ++ g :: post →
  get_seqs (Some WAITING) g = [seq] →
  Scheduler.prompt_limit (Scheduler.self f) < get_len seq →
  length (Scheduler.waiting (Scheduler.self f')) ≤ S (length post) →
  retag WAITING FINISHED_IGNORED g ∈ Scheduler.ignored_seq_groups a'
  ∧ length (Scheduler.waiting (Scheduler.self f')) ≤ length post.
Proof.
  revert a f pre.
  induction fuel as [|fuel IH]; intros a f pre Hloop Hfuel Hw Hseq Hlong Hlen.
  { rewrite Hw, length_app in Hfuel. simpl in Hfuel. lia. }
  rewrite admit_waiting_unfold in Hloop.
  assert (Hstay' : (Val a, f) = (Val a', f') → pre ≠ [] → False).
  { intros [= -> ->] Hpre. rewrite Hw, length_app in Hlen.
    destruct pre; [done|]. simpl in *. lia. }
  destruct pre as [|p pre]; simpl in Hw; rewrite Hw in Hloop.
  - rewrite Hseq in Hloop.
    destruct (Nat.ltb_spec (Scheduler.prompt_limit (Scheduler.self f))
                (get_len seq)); [|lia].
    apply admit_waiting_spec in Hloop
      as (adm & ign & con & lens & bm & _ & _ & _ & _ & Hcon & _ & _ & _
          & ->).
    simpl in *. rewrite Hw in Hcon. simpl in Hcon. split.
    + rewrite <-app_assoc. apply elem_of_app. right.
      apply list_elem_of_here.
    + rewrite Hcon, length_app. lia.
  - assert (Hrec : ∀ a1 f1,
              Scheduler.admit_waiting fuel a1 f1 = (Val a', f') →
              Scheduler.waiting (Scheduler.self f1) = pre ++ g :: post →
              Scheduler.prompt_limit (Scheduler.self f1)
              = Scheduler.prompt_limit (Scheduler.self f) →
              retag WAITING FINISHED_IGNORED g
              ∈ Scheduler.ignored_seq_groups a'
              ∧ length (Scheduler.waiting (Scheduler.self f'))
                ≤ length post).
    { intros a1 f1 H1 H2 H3. eapply (IH a1 f1 pre); try done.
      - rewrite H2. rewrite Hw in Hfuel. simpl in Hfuel. lia.
      - by rewrite H3. }
    destruct (get_seqs (Some WAITING) p) as [|sp [|??]]; try done.
    destruct (_ <? get_len sp).
    { eapply Hrec; [done|by simpl; rewrite Hw|done]. }
    destruct (can_allocate _ _ _ _).
    + destruct (_ <? _); [by destruct (Hstay' Hloop)|].
      destruct (_ <? _); [by destruct (Hstay' Hloop)|].
      rewrite on_group_allocate in Hloop.
      eapply Hrec; [done|by simpl; rewrite Hw|done].
    + by destruct (Hstay' Hloop).
    + eapply Hrec; [done|by simpl; rewrite Hw|done].
Qed.

Lemma suffix_of_shorter {A} (l1 l2 k1 k2 : list A) :
  l1 ++ l2 = k1 ++ k2 → length k2 ≤ length l2 → k2 `suffix_of` l2.
Proof.
  intros Heq Hlen.
  apply app_eq_inv in Heq as [(k & -> & ->)|(k & -> & ->)].
  - rewrite length_app in Hlen. destruct k; [by exists []|simpl in Hlen; lia].
  - by exists k.
Qed.

(** A prompt within the limit, wherever it stands in the waiting queue,
    still waits when the loop stops, or was admitted behind the groups
    admitted before it, or was ignored because the block manager, after
    these groups were allocated, answered [NEVER] for it. *)
Lemma admit_spares_prompt_within_limit fuel a f pre g post seq a' f' :
  Scheduler.admit_waiting fuel a f = (Val a', f') →
  length (Scheduler.waiting (Scheduler.self f)) ≤ fuel →
  Scheduler.waiting (Scheduler.self f) = pre ++ g :: post →
  get_seqs (Some WAITING) g = [seq] →
  get_len seq ≤ Scheduler.prompt_limit (Scheduler.self f) →
  (g :: post) `suffix_of` Scheduler.waiting (Scheduler.self f')
  ∨ ∃ admitted,
      admitted `sublist_of` pre
      ∧ ((∃ rest, Scheduler.scheduled a'
                  = Scheduler.scheduled a
                    ++ (retag WAITING RUNNING <$> admitted)
                    ++ retag WAITING RUNNING g :: rest)
         ∨ (retag WAITING FINISHED_IGNORED g
            ∈ Scheduler.ignored_seq_groups a'
            ∧ can_allocate (allocated admitted (Scheduler.self f)) g
                (Scheduler.ifb_mode (Scheduler.self f))
                (Scheduler.init_num_blocks (Scheduler.self f)) = NEVER)).
Proof.
  revert a f pre.
  induction fuel as [|fuel IH]; intros a f pre Hloop Hfuel Hw Hseq Hlimit.
  { rewrite Hw, length_app in Hfuel. simpl in Hfuel. lia. }
  rewrite admit_waiting_unfold in Hloop.
  destruct pre as [|p pre]; simpl in Hw; rewrite Hw in Hloop.
  - rewrite Hseq in Hloop.
    destruct (Nat.ltb_spec (Scheduler.prompt_limit (Scheduler.self f))
                (get_len seq)); [lia|].
    assert (Hstay : (Val a, f) = (Val a', f') →
              (g :: post) `suffix_of` Scheduler.waiting (Scheduler.self f')).
    { intros [= <- <-]. by rewrite Hw. }
    destruct (can_allocate _ _ _ _) eqn:Hcan; [|by left; apply Hstay|].
    + destruct (_ <? _); [by left; apply Hstay|].
      destruct (_ <? _); [by left; apply Hstay|].
      rewrite on_group_allocate in Hloop.
      apply admit_waiting_spec in Hloop
        as (adm & ? & ? & ? & ? & _ & _ & _ & _ & _ & _ & _ & _ & ->).
      right. exists []. split; [done|]. left. simpl.
      rewrite <-app_assoc. by eexists.
    + apply admit_waiting_spec in Hloop
        as (? & ign & ? & ? & ? & _ & _ & _ & _ & _ & _ & _ & _ & ->).
      right. exists []. split; [done|]. right. split; [|done].
      simpl. rewrite <-app_assoc. apply elem_of_app. right.
      apply list_elem_of_here.
  - assert (Hstay : (Val a, f) = (Val a', f') →
              (g :: post) `suffix_of` Scheduler.waiting (Scheduler.self f')).
    { intros [= <- <-]. rewrite Hw. by exists (p :: pre). }
    assert (Hfuel' : length (pre ++ g :: post) ≤ fuel).
    { rewrite Hw in Hfuel. simpl in Hfuel. lia. }
    assert (Hignore : Scheduler.admit_waiting fuel (Scheduler.ignore p a)
                        (Scheduler.popleft_waiting f) = (Val a', f') →
              (g :: post) `suffix_of` Scheduler.waiting (Scheduler.self f')
              ∨ ∃ admitted,
                  admitted `sublist_of` p :: pre
                  ∧ ((∃ rest, Scheduler.scheduled a'
                              = Scheduler.scheduled a
                                ++ (retag WAITING RUNNING <$> admitted)
                                ++ retag WAITING RUNNING g :: rest)
                     ∨ (retag WAITING FINISHED_IGNORED g
                        ∈ Scheduler.ignored_seq_groups a'
                        ∧ can_allocate (allocated admitted (Scheduler.self f))
                            g (Scheduler.ifb_mode (Scheduler.self f))
                            (Scheduler.init_num_blocks (Scheduler.self f))
                          = NEVER))).
    { intros Hrec.
      destruct (IH _ _ pre Hrec) as [Hwait|(adm & Hsub & Hwhat)];
        [simpl; rewrite Hw; exact Hfuel'|by simpl; rewrite Hw|done|done
        |by left|].
      right. exists adm. split; [by apply sublist_cons|]. done. }
    destruct (get_seqs (Some WAITING) p) as [|sp [|??]]; try done.
    destruct (_ <? get_len sp); [by apply Hignore|].
    destruct (can_allocate _ _ _ _);
      [|by left; apply Hstay|by apply Hignore].
    destruct (_ <? _); [by left; apply Hstay|].
    destruct (_ <? _); [by left; apply Hstay|].
    rewrite on_group_allocate in Hloop.
    destruct (IH _ _ pre Hloop) as [Hwait|(adm & Hsub & Hwhat)];
      [simpl; rewrite Hw; exact Hfuel'|by simpl; rewrite Hw|done|done
      |by left|].
    right. exists (p :: adm). split; [by apply sublist_skip|].
    destruct Hwhat as [[rest Hsched]|[Hign Hnever]]; [left|right].
    + exists rest. rewrite Hsched. simpl. by rewrite <-app_assoc.
    + split; [done|]. exact Hnever.
Qed.

(** C8, amended: take a tick that starts with an empty swapped queue and
    a group [g] of the waiting queue, [pre] ahead of it and [post] behind.
    If the prompt of [g] is longer than [prompt_limit] and the tick left no
    group of [pre] in the waiting queue, then the tick is a prompt run,
    [g] with its waiting sequence set to [FINISHED_IGNORED] is among the
    ignored groups, and only groups of [post] still wait.  If the prompt of
    [g] is exactly [prompt_limit] long, then, wherever [g] stands, the
    check of the limit does not reject it: after the tick it still waits
    ahead of [post], or it is scheduled behind the groups of [pre] that
    were admitted, or it is ignored because the block manager, after these
    were allocated, answered [NEVER] for it. *)
Theorem reached_prompt_over_limit_is_ignored now s out s' pre g post seq :
  Scheduler.swapped s = [] →
  Scheduler._schedule now s = (Val out, s') →
  Scheduler.waiting s = pre ++ g :: post →
  get_seqs (Some WAITING) g = [seq] →
  (Scheduler.prompt_limit s < get_len seq →
   length (Scheduler.waiting s') ≤ S (length post) →
   SchedulerOutputs.prompt_run out = true
   ∧ retag WAITING FINISHED_IGNORED g
     ∈ SchedulerOutputs.ignored_seq_groups out
   ∧ set_status FINISHED_IGNORED seq
     ∈ seqs (retag WAITING FINISHED_IGNORED g)
   ∧ get_seqs (Some WAITING) (retag WAITING FINISHED_IGNORED g) = []
   ∧ Scheduler.waiting s' `suffix_of` post)
  ∧ (get_len seq = Scheduler.prompt_limit s →
     (g :: post) `suffix_of` Scheduler.waiting s'
     ∨ ∃ admitted,
         admitted `sublist_of` pre
         ∧ ((∃ rest, SchedulerOutputs.scheduled_seq_groups out
                     = (retag WAITING RUNNING <$> admitted)
                       ++ retag WAITING RUNNING g :: rest)
            ∨ (retag WAITING FINISHED_IGNORED g
               ∈ SchedulerOutputs.ignored_seq_groups out
               ∧ can_allocate (allocated admitted s) g (Scheduler.ifb_mode s)
                   (Scheduler.init_num_blocks s) = NEVER))).
Proof.
  intros Hsw Hsched Hw Hseq.
  assert (Hin : seq ∈ seqs g ∧ status seq = WAITING).
  { assert (seq ∈ get_seqs (Some WAITING) g) as Hin
      by (rewrite Hseq; apply list_elem_of_here).
    unfold get_seqs in Hin. apply list_elem_of_filter in Hin. tauto. }
  apply schedule_anatomy in Hsched
    as [(_ & ra & fa & Hadm & -> & Hra)|(f' & Hrun & -> & Hfall)].
  - destruct ra as [a|e]; [|done]. destruct Hra as [_ [= ->]]. simpl.
    split.
    + intros Hlong Hlen.
      destruct (admit_reaches_long_prompt _ _ _ pre g post seq _ _ Hadm)
        as [Hign Hshort]; try done.
      split; [done|]. split; [done|].
      split.
      { apply (elem_of_seqs_retag WAITING FINISHED_IGNORED g seq); tauto. }
      split.
      { by apply (get_seqs_retag_from WAITING FINISHED_IGNORED g). }
      apply admit_waiting_spec in Hadm
        as (? & ? & con & ? & ? & _ & _ & _ & _ & Hcon & _).
      simpl in Hcon. rewrite Hw in Hcon.
      apply (suffix_of_shorter (pre ++ [g]) post con); [|done].
      by rewrite <-app_assoc.
    + intros Hexact.
      apply (admit_spares_prompt_within_limit _ _ _ pre g post seq _ _ Hadm);
        [done|done|done|simpl; lia].
  - apply schedule_running_waiting in Hrun. simpl in Hrun.
    rewrite Hw in Hrun. split.
    + intros Hlong Hlen. exfalso.
      destruct Hrun as [new Hnew]. rewrite Hnew, !length_app in Hlen.
      simpl in Hlen.
      destruct pre as [|p pre]; [|simpl in Hlen; lia].
      destruct (admit_reaches_long_prompt _ _ _ [] g post seq _ _
                  (Hfall Hsw)) as [Hign _]; try done.
      * simpl. rewrite Hw. simpl. lia.
      * simpl in Hign. by apply elem_of_nil in Hign.
    + intros _. left. destruct Hrun as [new ->].
      exists (new ++ pre). by rewrite <-app_assoc.
Qed.

End properties.


(** ** The properties on the schedulers above *)

Lemma live_bound_retag from to g :
  status_is_finished from = false → status_is_finished to = false →
  get_max_num_running_seqs (retag from to g) = get_max_num_running_seqs g.
Proof.
  intros Hfrom Hto. unfold get_max_num_running_seqs, live_bound, retag; simpl.
  rewrite length_fmap.
  destruct (length (seqs g) <? sampling_params g); [done|].
  induction (seqs g) as [|seq l IH]; [done|]. csimpl.
  assert (Hsame : seq_is_finished
                    (if decide (status seq = from) then set_status to seq
                     else seq) = seq_is_finished seq).
  { destruct (decide (status seq = from)) as [Heq|]; [|done].
    unfold seq_is_finished; simpl. by rewrite Heq, Hfrom, Hto. }
  destruct (seq_is_finished seq) eqn:Hfin.
  - rewrite !filter_cons_False by (rewrite ?Hsame, ?Hfin; done). exact IH.
  - rewrite !filter_cons_True by (rewrite ?Hsame, ?Hfin; done).
    simpl. by rewrite IH.
Qed.

Lemma insert_by_arrival_Permutation g (l : list SequenceGroup) :
  insert_by_arrival g l ≡ₚ g :: l.
Proof.
  induction l as [|h l IH]; simpl; [done|].
  destruct (decide (arrived_before g h)); [done|].
  rewrite IH. apply Permutation_swap.
Qed.

Lemma fcfs_reorders now (l : list SequenceGroup) :
  sort_by_priority now l ≡ₚ l.
Proof.
  simpl. induction l as [|g l IH]; simpl; [done|].
  by rewrite insert_by_arrival_Permutation, IH.
Qed.

(** The FCFS policy is stable: the groups that arrived at one time keep
    their order. *)
Lemma fcfs_stable now (t : nat) (l : list SequenceGroup) :
  filter (λ g, arrival_time g = t) (sort_by_priority now l)
  = filter (λ g, arrival_time g = t) l.
Proof.
  simpl. induction l as [|g l IH]; simpl; [done|].
  rewrite filter_cons, <-IH. clear IH.
  induction (foldr insert_by_arrival [] l) as [|h sorted IH]; simpl.
  { by rewrite filter_cons. }
  unfold arrived_before.
  destruct (decide (arrival_time g ≤ arrival_time h)) as [Hle|Hgt].
  { by rewrite filter_cons. }
  rewrite !(filter_cons _ h), IH.
  destruct (decide (arrival_time g = t)) as [Hg|Hg]; [|done].
  destruct (decide (arrival_time h = t)) as [Hh|Hh]; [lia|done].
Qed.

(** The tick of [three_waiting] is a prompt run, and it moves no block. *)
Lemma prompt_run_moves_no_block_witness :
  ∃ out s',
    Scheduler._schedule 0%Z three_waiting = (Val out, s')
    ∧ SchedulerOutputs.prompt_run out = true
    ∧ Scheduler.swapped three_waiting = []
    ∧ SchedulerOutputs.retrieval_blocks_to_swap_in out = ∅
    ∧ SchedulerOutputs.streaming_blocks_to_swap_in out = ∅
    ∧ SchedulerOutputs.retrieval_blocks_to_swap_out out = ∅
    ∧ SchedulerOutputs.streaming_blocks_to_swap_out out = ∅
    ∧ SchedulerOutputs.retrieval_blocks_to_copy out = ∅
    ∧ SchedulerOutputs.streaming_blocks_to_copy out = ∅.
Proof.
  eexists _, _. split; [vm_compute; reflexivity|]. split; [reflexivity|].
  eapply (prompt_run_moves_no_block 0%Z three_waiting);
    [vm_compute; reflexivity | reflexivity].
Defined.

(** The tick of [one_running_one_swapped] swaps a group of two sequences in
    and stays within [max_num_seqs]. *)
Lemma running_bound_is_kept_witness :
  ∃ r s',
    Scheduler._schedule 0%Z one_running_one_swapped = (r, s')
    ∧ Scheduler.running_seqs_bound one_running_one_swapped = 1
    ∧ Scheduler.running_seqs_bound s' = 3
    ∧ Scheduler.running_seqs_bound s'
      ≤ max_num_seqs (Scheduler.scheduler_config s').
Proof.
  eexists _, _. split; [vm_compute; reflexivity|].
  split; [reflexivity|]. split; [reflexivity|].
  eapply (running_bound_is_kept 0%Z one_running_one_swapped).
  - intros g. by apply live_bound_retag.
  - intros g. by apply live_bound_retag.
  - apply fcfs_reorders.
  - vm_compute. lia.
  - vm_compute; reflexivity.
Defined.

(** The tick of [two_and_fourteen] admits the prompts of 2 and of 14
    tokens, whose sum is the budget of 16, and reports the rectangle, 28,
    which is over the budget.  It stops at the prompt of 1 token, for which
    the block manager answers [OK] and with which the sum would be 17. *)
Lemma prompt_run_token_accounting_witness :
  ∃ out s',
    Scheduler._schedule 0%Z two_and_fourteen = (Val out, s')
    ∧ SchedulerOutputs.prompt_run out = true
    ∧ max_num_batched_tokens (Scheduler.scheduler_config two_and_fourteen)
      = 16
    ∧ SchedulerOutputs.scheduled_seq_groups out
      = retag WAITING RUNNING <$> [P2; P14]
    ∧ SchedulerOutputs.num_batched_tokens out = 28
    ∧ Scheduler.waiting s' = [P1]
    ∧ can_allocate (Scheduler.block_manager s') P1 (Scheduler.ifb_mode s')
        (Scheduler.init_num_blocks s') = OK
    ∧ ∃ admitted seq_lens,
        admitted `sublist_of` Scheduler.waiting two_and_fourteen
        ∧ Forall2 prompt_of_length admitted seq_lens
        ∧ SchedulerOutputs.scheduled_seq_groups out
          = retag WAITING RUNNING <$> admitted
        ∧ sum_list seq_lens
          ≤ max_num_batched_tokens
              (Scheduler.scheduler_config two_and_fourteen)
        ∧ SchedulerOutputs.num_batched_tokens out
          = length seq_lens * max_list seq_lens
        ∧ (SchedulerOutputs.scheduled_seq_groups out = [] →
           SchedulerOutputs.num_batched_tokens out = 0)
        ∧ match Scheduler.waiting s' with
          | [] => True
          | g :: _ =>
              ∃ seq,
                get_seqs (Some WAITING) g = [seq]
                ∧ get_len seq ≤ Scheduler.prompt_limit two_and_fourteen
                ∧ admission_stopped s' seq_lens
                    (Scheduler.running_seqs_bound two_and_fourteen
                     + sum_list_with get_max_num_running_seqs admitted)
                    g seq
          end
        ∧ Scheduler.scheduler_config s'
          = Scheduler.scheduler_config two_and_fourteen
        ∧ Scheduler.ifb_mode s' = Scheduler.ifb_mode two_and_fourteen
        ∧ Scheduler.init_num_blocks s'
          = Scheduler.init_num_blocks two_and_fourteen.
Proof.
  eexists _, _. split; [vm_compute; reflexivity|].
  split; [reflexivity|]. split; [reflexivity|]. split; [reflexivity|].
  split; [reflexivity|]. split; [reflexivity|]. split; [reflexivity|].
  eapply (prompt_run_token_accounting 0%Z two_and_fourteen);
    [vm_compute; reflexivity | reflexivity].
Defined.


(** On [fresh_scheduler], adding [G1] and aborting it leaves nothing
    unfinished, and the one sequence of [G1] is aborted and freed. *)
Lemma add_then_abort_round_trip_witness :
  Scheduler.waiting fresh_scheduler = []
  ∧ Scheduler.running fresh_scheduler = []
  ∧ Scheduler.swapped fresh_scheduler = []
  ∧ ∃ s' g',
      Scheduler.abort_seq_group (one_id (request_id G1))
        (Scheduler.add_seq_group G1 fresh_scheduler) = (s', [g'])
      ∧ Scheduler.has_unfinished_seqs s' = false
      ∧ seqs g' = (λ seq, if seq_is_finished seq then seq
                          else set_status FINISHED_ABORTED seq) <$> seqs G1
      ∧ (∀ seq, seq ∈ seqs G1 → seq_is_finished seq = false →
                set_status FINISHED_ABORTED seq ∈ seqs g')
      ∧ Scheduler.block_manager s'
        = foldl (λ bm seq, free bm (set_status FINISHED_ABORTED seq))
                (Scheduler.block_manager fresh_scheduler)
                (filter (λ seq, seq_is_finished seq = false) (seqs G1)).
Proof.
  split; [reflexivity|]. split; [reflexivity|]. split; [reflexivity|].
  apply (add_then_abort_round_trip fresh_scheduler G1); reflexivity.
Defined.

(** The prompt of 100 tokens is ignored at the front of the waiting queue
    ([long_prompt_first]) and behind an admitted prompt
    ([long_prompt_second]).  The prompt of exactly 16 tokens is admitted at
    the front ([exact_prompt]) and behind an ignored prompt
    ([exact_behind_long]); behind the admitted prompt of 12 tokens
    ([exact_behind_prompt]) it still waits, the token budget being used up,
    and it is not ignored. *)
Lemma reached_prompt_over_limit_is_ignored_witness :
  (∃ out s',
     Scheduler._schedule 0%Z long_prompt_first = (Val out, s')
     ∧ Scheduler.waiting long_prompt_first = [] ++ G3 :: [G1]
     ∧ Scheduler.prompt_limit long_prompt_first < 100
     ∧ SchedulerOutputs.prompt_run out = true
     ∧ retag WAITING FINISHED_IGNORED G3
       ∈ SchedulerOutputs.ignored_seq_groups out
     ∧ set_status FINISHED_IGNORED (mkSequence 3 WAITING 100)
       ∈ seqs (retag WAITING FINISHED_IGNORED G3)
     ∧ get_seqs (Some WAITING) (retag WAITING FINISHED_IGNORED G3) = []
     ∧ Scheduler.waiting s' `suffix_of` [G1])
  ∧ (∃ out s',
       Scheduler._schedule 0%Z long_prompt_second = (Val out, s')
       ∧ Scheduler.waiting long_prompt_second = [G1] ++ G3 :: []
       ∧ SchedulerOutputs.scheduled_seq_groups out
         = [retag WAITING RUNNING G1]
       ∧ SchedulerOutputs.prompt_run out = true
       ∧ retag WAITING FINISHED_IGNORED G3
         ∈ SchedulerOutputs.ignored_seq_groups out
       ∧ set_status FINISHED_IGNORED (mkSequence 3 WAITING 100)
         ∈ seqs (retag WAITING FINISHED_IGNORED G3)
       ∧ get_seqs (Some WAITING) (retag WAITING FINISHED_IGNORED G3) = []
       ∧ Scheduler.waiting s' `suffix_of` [])
  ∧ (∃ out s',
       Scheduler._schedule 0%Z exact_prompt = (Val out, s')
       ∧ Scheduler.prompt_limit exact_prompt = 16
       ∧ SchedulerOutputs.ignored_seq_groups out = []
       ∧ ((G4 :: []) `suffix_of` Scheduler.waiting s'
          ∨ ∃ admitted,
              admitted `sublist_of` []
              ∧ ((∃ rest, SchedulerOutputs.scheduled_seq_groups out
                          = (retag WAITING RUNNING <$> admitted)
                            ++ retag WAITING RUNNING G4 :: rest)
                 ∨ (retag WAITING FINISHED_IGNORED G4
                    ∈ SchedulerOutputs.ignored_seq_groups out
                    ∧ can_allocate (allocated admitted exact_prompt) G4
                        (Scheduler.ifb_mode exact_prompt)
                        (Scheduler.init_num_blocks exact_prompt) = NEVER))))
  ∧ (∃ out s',
       Scheduler._schedule 0%Z exact_behind_long = (Val out, s')
       ∧ Scheduler.waiting exact_behind_long = [G3] ++ G4 :: []
       ∧ SchedulerOutputs.scheduled_seq_groups out
         = [retag WAITING RUNNING G4]
       ∧ SchedulerOutputs.ignored_seq_groups out
         = [retag WAITING FINISHED_IGNORED G3]
       ∧ ((G4 :: []) `suffix_of` Scheduler.waiting s'
          ∨ ∃ admitted,
              admitted `sublist_of` [G3]
              ∧ ((∃ rest, SchedulerOutputs.scheduled_seq_groups out
                          = (retag WAITING RUNNING <$> admitted)
                            ++ retag WAITING RUNNING G4 :: rest)
                 ∨ (retag WAITING FINISHED_IGNORED G4
                    ∈ SchedulerOutputs.ignored_seq_groups out
                    ∧ can_allocate (allocated admitted exact_behind_long) G4
                        (Scheduler.ifb_mode exact_behind_long)
                        (Scheduler.init_num_blocks exact_behind_long)
                      = NEVER))))
  ∧ (∃ out s',
       Scheduler._schedule 0%Z exact_behind_prompt = (Val out, s')
       ∧ Scheduler.waiting exact_behind_prompt = [G1] ++ G4 :: []
       ∧ Scheduler.waiting s' = [G4]
       ∧ SchedulerOutputs.ignored_seq_groups out = []
       ∧ ((G4 :: []) `suffix_of` Scheduler.waiting s'
          ∨ ∃ admitted,
              admitted `sublist_of` [G1]
              ∧ ((∃ rest, SchedulerOutputs.scheduled_seq_groups out
                          = (retag WAITING RUNNING <$> admitted)
                            ++ retag WAITING RUNNING G4 :: rest)
                 ∨ (retag WAITING FINISHED_IGNORED G4
                    ∈ SchedulerOutputs.ignored_seq_groups out
                    ∧ can_allocate (allocated admitted exact_behind_prompt)
                        G4 (Scheduler.ifb_mode exact_behind_prompt)
                        (Scheduler.init_num_blocks exact_behind_prompt)
                      = NEVER)))).
Proof.
  split; [|split; [|split; [|split]]].
  - eexists _, _.
    lazymatch goal with
    | |- ?tick ∧ _ => assert (Htick : tick) by (vm_compute; reflexivity)
    end.
    split; [exact Htick|]. split; [reflexivity|]. split; [vm_compute; lia|].
    destruct (reached_prompt_over_limit_is_ignored 0%Z long_prompt_first _ _
                [] G3 [G1] (mkSequence 3 WAITING 100)
                eq_refl Htick eq_refl eq_refl)
      as [Hlong _].
    apply Hlong; vm_compute; lia.
  - eexists _, _.
    lazymatch goal with
    | |- ?tick ∧ _ => assert (Htick : tick) by (vm_compute; reflexivity)
    end.
    split; [exact Htick|]. split; [reflexivity|]. split; [reflexivity|].
    destruct (reached_prompt_over_limit_is_ignored 0%Z long_prompt_second _ _
                [G1] G3 [] (mkSequence 3 WAITING 100)
                eq_refl Htick eq_refl eq_refl)
      as [Hlong _].
    apply Hlong; vm_compute; lia.
  - eexists _, _.
    lazymatch goal with
    | |- ?tick ∧ _ => assert (Htick : tick) by (vm_compute; reflexivity)
    end.
    split; [exact Htick|]. split; [reflexivity|]. split; [reflexivity|].
    destruct (reached_prompt_over_limit_is_ignored 0%Z exact_prompt _ _
                [] G4 [] (mkSequence 4 WAITING 16)
                eq_refl Htick eq_refl eq_refl)
      as [_ Hexact].
    apply Hexact. reflexivity.
  - eexists _, _.
    lazymatch goal with
    | |- ?tick ∧ _ => assert (Htick : tick) by (vm_compute; reflexivity)
    end.
    split; [exact Htick|]. split; [reflexivity|]. split; [reflexivity|].
    split; [reflexivity|].
    destruct (reached_prompt_over_limit_is_ignored 0%Z exact_behind_long _ _
                [G3] G4 [] (mkSequence 4 WAITING 16)
                eq_refl Htick eq_refl eq_refl)
      as [_ Hexact].
    apply Hexact. reflexivity.
  - eexists _, _.
    lazymatch goal with
    | |- ?tick ∧ _ => assert (Htick : tick) by (vm_compute; reflexivity)
    end.
    split; [exact Htick|]. split; [reflexivity|]. split; [reflexivity|].
    split; [reflexivity|].
    destruct (reached_prompt_over_limit_is_ignored 0%Z exact_behind_prompt _ _
                [G1] G4 [] (mkSequence 4 WAITING 16)
                eq_refl Htick eq_refl eq_refl)
      as [_ Hexact].
    apply Hexact. reflexivity.
Defined.

(** [three_waiting]: the tick is a prompt run that admits [G1] and stops at
    [G2]; the prompt of [G3], 100 tokens against a limit of 16, is neither
    ignored nor taken off the waiting queue. *)
Lemma prompt_over_limit_left_waiting :
  ¬ every_prompt_over_limit_ignored (BM := CountingBM).
Proof.
  intros Hall.
  edestruct (Hall 0%Z three_waiting) as [Hignored _];
    [ reflexivity | vm_compute; reflexivity | reflexivity
    | vm_compute; do 2 apply list_elem_of_further; apply list_elem_of_here
    | vm_compute; reflexivity | vm_compute; lia | ].
  vm_compute in Hignored. by apply elem_of_nil in Hignored.
Qed.

(** ** Three more ticks, run *)

(** [no_block_left]: no slot can be appended for [R1], so the group at the
    back, [R2] with its two sequences, is preempted by swapping.  The plan
    swaps blocks out and none in, and [R2] is in the swapped queue. *)
Lemma preempt_by_swap_tick :
  ∃ out s',
    Scheduler._schedule 0%Z no_block_left = (Val out, s')
    ∧ SchedulerOutputs.prompt_run out = false
    ∧ request_id <$> SchedulerOutputs.scheduled_seq_groups out = ["R1"]
    ∧ SchedulerOutputs.retrieval_blocks_to_swap_out out = {[6 := 6; 7 := 7]}
    ∧ SchedulerOutputs.retrieval_blocks_to_swap_in out = ∅
    ∧ request_id <$> Scheduler.swapped s' = ["R2"]
    ∧ Scheduler.waiting s' = [].
Proof.
  eexists _, _. split; [vm_compute; reflexivity|].
  repeat split; vm_compute; reflexivity.
Qed.

(** The same with no CPU block either: [_swap_out] raises, and the tick
    with it; [R2] has left the running queue and is in no queue. *)
Lemma no_swap_space_tick :
  ∃ msg s',
    Scheduler._schedule 0%Z
      (Scheduler.set_block_manager (mkCountingBM 100 0 0 []) no_block_left)
    = (Raise (RuntimeError msg), s')
    ∧ Scheduler.running s' = []
    ∧ Scheduler.swapped s' = []
    ∧ Scheduler.waiting s' = [].
Proof.
  eexists _, _. split; [vm_compute; reflexivity|].
  repeat split; vm_compute; reflexivity.
Qed.

(** Two single-sequence groups run and no block is left: the group at the
    back is preempted by recomputation and goes to the front of the waiting
    queue, its sequence [WAITING] and freed. *)
Lemma preempt_by_recompute_tick :
  ∃ out s',
    Scheduler._schedule 0%Z
      (Scheduler.set_running
         [mkSequenceGroup "R1" [mkSequence 5 RUNNING 7] 0 1;
          mkSequenceGroup "R3" [mkSequence 8 RUNNING 3] 1 1]
         no_block_left)
    = (Val out, s')
    ∧ request_id <$> SchedulerOutputs.scheduled_seq_groups out = ["R1"]
    ∧ Scheduler.waiting s'
      = [mkSequenceGroup "R3" [mkSequence 8 WAITING 3] 1 1]
    ∧ freed (Scheduler.block_manager s') = [8]
    ∧ Scheduler.swapped s' = [].
Proof.
  eexists _, _. split; [vm_compute; reflexivity|].
  repeat split; vm_compute; reflexivity.
Qed.

(** ** More properties of a tick *)

Section more_properties.
Context {BM : Type} `{!BlockSpaceManager BM}.
Context `{!SequenceGroupBound} `{!Policy}.

Implicit Types (f : Scheduler.Frame BM) (s : Scheduler.t BM).
Implicit Types (g seq_group : SequenceGroup) (seq : Sequence).

Local Abbreviation bound := (sum_list_with get_max_num_running_seqs).

(** The first turn of the admission loop of a tick, on the group at the
    front of the waiting queue. *)
Lemma first_admission_turn s g post :
  Scheduler.waiting s = g :: post →
  Scheduler.admit_waiting (length (Scheduler.waiting s)) (first_locals s)
    (Scheduler.new_frame s)
  = match get_seqs (Some WAITING) g with
    | [seq] =>
      if Scheduler.prompt_limit s <? get_len seq then
        Scheduler.admit_waiting (length post)
          (Scheduler.ignore g (first_locals s))
          (Scheduler.popleft_waiting (Scheduler.new_frame s))
      else
        match can_allocate (Scheduler.block_manager s) g
                (Scheduler.ifb_mode s) (Scheduler.init_num_blocks s) with
        | LATER => (Val (first_locals s), Scheduler.new_frame s)
        | NEVER =>
            Scheduler.admit_waiting (length post)
              (Scheduler.ignore g (first_locals s))
              (Scheduler.popleft_waiting (Scheduler.new_frame s))
        | OK =>
          if max_num_batched_tokens (Scheduler.scheduler_config s)
             <? sum_list [get_len seq]
          then (Val (first_locals s), Scheduler.new_frame s)
          else if max_num_seqs (Scheduler.scheduler_config s)
                  <? Scheduler.running_seqs_bound s
                     + get_max_num_running_seqs g
          then (Val (first_locals s), Scheduler.new_frame s)
          else
            Scheduler.admit_waiting (length post)
              (Scheduler.mkAdmission [] [retag WAITING RUNNING g]
                 (Scheduler.running_seqs_bound s
                  + get_max_num_running_seqs g) [get_len seq])
              (Scheduler.set_self
                 (Scheduler.set_running
                    (Scheduler.running s ++ [retag WAITING RUNNING g])
                    (Scheduler.set_block_manager
                       (allocate (Scheduler.block_manager s) g
                          (Scheduler.ifb_mode s) (Scheduler.init_num_blocks s))
                       (Scheduler.set_waiting post s)))
                 (Scheduler.new_frame s))
        end
    | _ => (Raise (AssertionError one_prompt_sequence), Scheduler.new_frame s)
    end.
Proof.
  intros Hw. rewrite admit_waiting_unfold.
  change (Scheduler.self (Scheduler.new_frame s)) with s.
  rewrite Hw. simpl length.
  destruct (get_seqs (Some WAITING) g) as [|seq [|??]]; try done.
  destruct (_ <? get_len seq); [done|].
  destruct (can_allocate _ _ _ _); try done.
  destruct (_ <? _); [done|]. destruct (_ <? _); [done|].
  rewrite on_group_allocate. simpl. by rewrite Hw.
Qed.

(** X1: when the swapped queue is empty and the group at the front of the
    waiting queue does not have exactly one waiting sequence, the tick
    raises the assertion of the admission loop and leaves the scheduler as
    it was. *)
Theorem tick_asserts_one_prompt now s g post :
  Scheduler.swapped s = [] →
  Scheduler.waiting s = g :: post →
  length (get_seqs (Some WAITING) g) ≠ 1 →
  Scheduler._schedule now s
  = (Raise (AssertionError one_prompt_sequence), s).
Proof.
  intros Hsw Hw Hlen.
  assert (Hturn : Scheduler.admit_waiting (length (Scheduler.waiting s))
                    (first_locals s) (Scheduler.new_frame s)
                  = (Raise (AssertionError one_prompt_sequence),
                     Scheduler.new_frame s)).
  { rewrite (first_admission_turn s g post Hw).
    by destruct (get_seqs (Some WAITING) g) as [|seq [|??]]. }
  destruct (Scheduler._schedule now s) as [r s'] eqn:Hsched.
  apply schedule_anatomy in Hsched
    as [(_ & ra & fa & Hadm & -> & Hra)|(f' & Hrun & -> & Hfall)].
  - rewrite Hturn in Hadm. injection Hadm as <- <-. by rewrite Hra.
  - specialize (Hfall Hsw). by rewrite Hturn in Hfall.
Qed.

(** X2: when the block manager answers [NEVER] for the group at the front of
    the waiting queue, whose prompt is within the limit, the tick is a
    prompt run that ignores the group: it is the first ignored group, its
    waiting sequence is [FINISHED_IGNORED], and only groups behind it still
    wait. *)
Theorem never_allocatable_prompt_is_ignored now s out s' g post seq :
  Scheduler.swapped s = [] →
  Scheduler.waiting s = g :: post →
  get_seqs (Some WAITING) g = [seq] →
  can_allocate (Scheduler.block_manager s) g (Scheduler.ifb_mode s)
    (Scheduler.init_num_blocks s) = NEVER →
  Scheduler._schedule now s = (Val out, s') →
  SchedulerOutputs.prompt_run out = true
  ∧ (∃ rest, SchedulerOutputs.ignored_seq_groups out
             = retag WAITING FINISHED_IGNORED g :: rest)
  ∧ set_status FINISHED_IGNORED seq ∈ seqs (retag WAITING FINISHED_IGNORED g)
  ∧ Scheduler.waiting s' `suffix_of` post.
Proof.
  intros Hsw Hw Hseq Hnever Hsched.
  assert (Hin : seq ∈ seqs g ∧ status seq = WAITING).
  { assert (seq ∈ get_seqs (Some WAITING) g) as Hin
      by (rewrite Hseq; apply list_elem_of_here).
    unfold get_seqs in Hin. apply list_elem_of_filter in Hin. tauto. }
  assert (Hturn : Scheduler.admit_waiting (length (Scheduler.waiting s))
                    (first_locals s) (Scheduler.new_frame s)
                  = Scheduler.admit_waiting (length post)
                      (Scheduler.ignore g (first_locals s))
                      (Scheduler.popleft_waiting (Scheduler.new_frame s))).
  { rewrite (first_admission_turn s g post Hw), Hseq, Hnever.
    by destruct (_ <? _). }
  apply schedule_anatomy in Hsched
    as [(_ & ra & fa & Hadm & -> & Hra)|(f' & Hrun & -> & Hfall)].
  - rewrite Hturn in Hadm. destruct ra as [a|e]; [|done].
    destruct Hra as [_ [= ->]].
    apply admit_waiting_spec in Hadm
      as (adm & ign & con & lens & bm & _ & _ & _ & _ & Hcon & _ & _ & _ & ->).
    split; [done|]. split; [by eexists|].
    split; [apply (elem_of_seqs_retag WAITING FINISHED_IGNORED g seq); tauto|].
    exists con. revert Hcon. simpl. by rewrite Hw.
  - specialize (Hfall Hsw). rewrite Hturn in Hfall.
    apply admit_waiting_spec in Hfall
      as (adm & ign & con & lens & bm & _ & _ & _ & _ & _ & _ & _ & _ & Ha).
    exfalso. by injection Ha as Ha _.
Qed.

(** X3: when the group at the front of the waiting queue must wait, because
    the block manager answers [LATER] or because its bound would take the
    running groups over [max_num_seqs], the tick admits nothing: it goes on
    as a tick that runs no prompt, and the group and those behind it still
    wait, in order, at the back of the waiting queue. *)
Theorem front_prompt_deferred now s r s' g post seq :
  Scheduler.swapped s = [] →
  Scheduler.waiting s = g :: post →
  get_seqs (Some WAITING) g = [seq] →
  get_len seq ≤ Scheduler.prompt_limit s →
  can_allocate (Scheduler.block_manager s) g (Scheduler.ifb_mode s)
    (Scheduler.init_num_blocks s) = LATER
  ∨ (can_allocate (Scheduler.block_manager s) g (Scheduler.ifb_mode s)
       (Scheduler.init_num_blocks s) = OK
     ∧ max_num_seqs (Scheduler.scheduler_config s)
       < Scheduler.running_seqs_bound s + get_max_num_running_seqs g) →
  Scheduler._schedule now s = (r, s') →
  match r with
  | Val out =>
      SchedulerOutputs.prompt_run out = false
      ∧ SchedulerOutputs.ignored_seq_groups out = []
  | Raise e => from_preempt e
  end
  ∧ (g :: post) `suffix_of` Scheduler.waiting s'.
Proof.
  intros Hsw Hw Hseq Hlimit Hwhy Hsched.
  assert (Hturn : Scheduler.admit_waiting (length (Scheduler.waiting s))
                    (first_locals s) (Scheduler.new_frame s)
                  = (Val (first_locals s), Scheduler.new_frame s)).
  { rewrite (first_admission_turn s g post Hw), Hseq.
    destruct (Nat.ltb_spec (Scheduler.prompt_limit s) (get_len seq)); [lia|].
    destruct Hwhy as [->|[-> Hcap]]; [done|].
    destruct (_ <? sum_list _); [done|].
    destruct (Nat.ltb_spec (max_num_seqs (Scheduler.scheduler_config s))
                (Scheduler.running_seqs_bound s
                 + get_max_num_running_seqs g)); [done|lia]. }
  apply schedule_anatomy in Hsched
    as [(_ & ra & fa & Hadm & -> & Hra)|(f' & Hrun & -> & Hfall)].
  { rewrite Hturn in Hadm. injection Hadm as <- <-. by destruct Hra. }
  pose proof (schedule_running_waiting _ _ _ _ Hrun) as Hwait.
  simpl in Hwait. rewrite Hw in Hwait. split; [|done].
  pose proof (schedule_running_anatomy _ _ _ _ Hrun) as (rp & f1 & _ & Hrp).
  apply schedule_running_outcome in Hrun.
  destruct r as [out|e]; [|done]. destruct Hrun as (Hfalse & _).
  split; [done|].
  destruct rp as [p|e]; [|by destruct Hrp]. destruct Hrp as [_ Hout].
  match type of Hout with
  | _ = SchedulerOutputs.init ?sg ?pr ?n ?ri ?si ?ro ?so ?rc ?sc ?ig =>
      destruct (SchedulerOutputs_init_cases sg pr n ri si ro so rc sc ig)
        as [(_ & _ & Hinit)|(_ & a & Hinit & _)];
      rewrite Hinit in Hout; [by injection Hout as ->|done]
  end.
Qed.

Lemma dict_bool_empty {V} `{EqDecision V} : dict_bool (∅ : gmap nat V) = false.
Proof. by apply dict_bool_false. Qed.

(** What a tick that runs no prompt returns. *)
Lemma schedule_running_plan now f out f' :
  Scheduler.schedule_running now f = (Val out, f') →
  out = SchedulerOutputs.mk (Scheduler.running (Scheduler.self f')) false
          (sum_list_with (num_seqs (Some RUNNING))
             (Scheduler.running (Scheduler.self f')))
          (Scheduler.retrieval_blocks_to_swap_in f')
          (Scheduler.streaming_blocks_to_swap_in f')
          (Scheduler.retrieval_blocks_to_swap_out f')
          (Scheduler.streaming_blocks_to_swap_out f')
          (Scheduler.retrieval_blocks_to_copy f')
          (Scheduler.streaming_blocks_to_copy f') [].
Proof.
  intros Hrun.
  apply schedule_running_anatomy in Hrun as (rp & f1 & _ & Hrp).
  destruct rp as [p|e]; [|by destruct Hrp]. destruct Hrp as [_ Hout].
  match type of Hout with
  | _ = SchedulerOutputs.init ?sg ?pr ?n ?ri ?si ?ro ?so ?rc ?sc ?ig =>
      destruct (SchedulerOutputs_init_cases sg pr n ri si ro so rc sc ig)
        as [(_ & _ & Hinit)|(_ & a & Hinit & _)];
      rewrite Hinit in Hout; [by injection Hout as ->|done]
  end.
Qed.

(** X4: a tick on a scheduler whose three queues are empty returns the
    empty plan, with no prompt run and no token, and leaves the scheduler
    as it was (the policy sorts the empty queue to the empty queue). *)
Theorem tick_on_empty_queues now s :
  Scheduler.waiting s = [] →
  Scheduler.running s = [] →
  Scheduler.swapped s = [] →
  sort_by_priority now [] = [] →
  ∃ out,
    Scheduler._schedule now s = (Val out, s)
    ∧ SchedulerOutputs.is_empty out = true
    ∧ SchedulerOutputs.prompt_run out = false
    ∧ SchedulerOutputs.num_batched_tokens out = 0
    ∧ SchedulerOutputs.ignored_seq_groups out = [].
Proof.
  intros Hw Hr Hs Hsort. destruct s as [cfg ifb inb pl bm w r sw].
  simpl in Hw, Hr, Hs. subst w r sw.
  unfold Scheduler._schedule, bind, Scheduler.schedule_waiting,
    Scheduler.schedule_running, Scheduler.reserve_phase,
    Scheduler.swap_in_phase, Scheduler.decode_outputs, lift, ret, bind.
  simpl. rewrite Hsort. simpl. rewrite Hsort. simpl.
  eexists. split; [reflexivity|].
  unfold SchedulerOutputs.is_empty. simpl. by rewrite !dict_bool_empty.
Qed.

(** X5: the plan of a tick that runs no prompt schedules exactly the running
    queue that the tick leaves, in its order, ignores no group, and counts
    one token for each sequence that is [RUNNING] in that queue. *)
Theorem decode_plan_is_the_running_queue now s out s' :
  Scheduler._schedule now s = (Val out, s') →
  SchedulerOutputs.prompt_run out = false →
  SchedulerOutputs.scheduled_seq_groups out = Scheduler.running s'
  ∧ SchedulerOutputs.ignored_seq_groups out = []
  ∧ SchedulerOutputs.num_batched_tokens out
    = sum_list_with (num_seqs (Some RUNNING)) (Scheduler.running s').
Proof.
  intros Hsched Hprompt.
  apply schedule_anatomy in Hsched
    as [(_ & ra & fa & Hadm & -> & Hra)|(f' & Hrun & -> & Hfall)].
  { destruct ra as [a|e]; [|done]. by destruct Hra as [_ [= ->]]. }
  by pose proof (schedule_running_plan _ _ _ _ Hrun) as ->.
Qed.

(** X6: a prompt run admits or ignores at least one group.  The scheduled
    groups are appended, in order, to the running queue, which keeps the
    groups it had; what is left of the waiting queue is its back part; no
    scheduled or ignored group has a waiting sequence left; and [is_empty]
    tells whether no group was scheduled, whatever was ignored. *)
Theorem prompt_run_plan now s out s' :
  Scheduler._schedule now s = (Val out, s') →
  SchedulerOutputs.prompt_run out = true →
  (SchedulerOutputs.scheduled_seq_groups out ≠ []
   ∨ SchedulerOutputs.ignored_seq_groups out ≠ [])
  ∧ Scheduler.running s'
    = Scheduler.running s ++ SchedulerOutputs.scheduled_seq_groups out
  ∧ Scheduler.waiting s' `suffix_of` Scheduler.waiting s
  ∧ Scheduler.swapped s' = []
  ∧ Forall (λ g, get_seqs (Some WAITING) g = [])
      (SchedulerOutputs.scheduled_seq_groups out
       ++ SchedulerOutputs.ignored_seq_groups out)
  ∧ SchedulerOutputs.is_empty out
    = negb (list_bool (SchedulerOutputs.scheduled_seq_groups out)).
Proof.
  intros Hsched Hprompt.
  apply schedule_anatomy in Hsched
    as [(Hsw & ra & fa & Hadm & -> & Hra)|(f' & Hrun & -> & Hfall)].
  2:{ pose proof (schedule_running_plan _ _ _ _ Hrun) as ->. done. }
  destruct ra as [a|e]; [|done]. destruct Hra as [Hany [= ->]]. simpl.
  apply admit_waiting_spec in Hadm
    as (adm & ign & con & lens & bm & _ & _ & _ & _ & Hcon & -> & _ & _ & ->).
  simpl in *. split.
  { destruct adm; [|by left]. destruct ign; [done|by right]. }
  split; [done|]. split; [by exists con|]. split; [done|]. split.
  - apply Forall_app. split; apply Forall_fmap, Forall_forall; intros g _;
      by apply (get_seqs_retag_from WAITING _ g).
  - unfold SchedulerOutputs.is_empty. simpl.
    by rewrite !dict_bool_empty, !andb_true_r.
Qed.



(** *** Which groups are preempted, and where they go *)

Lemma on_group_preempt_mode f g g' f' :
  Scheduler.on_group (Scheduler._preempt None) g f = (Val g', f') →
  g' = preempted_as g
  ∧ Scheduler.running (Scheduler.self f') = Scheduler.running (Scheduler.self f)
  ∧ Scheduler.waiting (Scheduler.self f')
    = (retag RUNNING WAITING <$> filter recomputes [g])
      ++ Scheduler.waiting (Scheduler.self f)
  ∧ Scheduler.swapped (Scheduler.self f')
    = Scheduler.swapped (Scheduler.self f)
      ++ (retag RUNNING SWAPPED <$> filter (λ g, ¬ recomputes g) [g]).
Proof.
  unfold Scheduler.on_group, Scheduler._preempt, preempted_as, recomputes.
  destruct (Nat.eqb_spec (get_max_num_running_seqs g) 1) as [Hone|Hmany].
  - rewrite decide_True by done.
    rewrite filter_cons_True, filter_cons_False by tauto.
    unfold Scheduler._preempt_by_recompute.
    destruct (length (get_seqs (Some RUNNING) g) =? 1); simpl; [|done].
    intros [= <- <-]. simpl. by rewrite app_nil_r.
  - rewrite decide_False by done.
    rewrite filter_cons_False, filter_cons_True by tauto.
    unfold Scheduler._preempt_by_swap, Scheduler._swap_out, bind.
    destruct (can_swap_out _ g); simpl; [|done].
    destruct (swap_out _ g) as [bm [rm sm]]. by intros [= <- <-].
Qed.

(** The groups that one turn of the reserve loop evicts for the group [g]:
    [victims] from the back of the running queue and, when not even that
    makes room, [g] itself. *)
Lemma reserve_slot_evicts fuel g lr p f lr' p' f' :
  Scheduler.reserve_slot fuel g lr p f = (Val (lr', p'), f') →
  length (Scheduler.running (Scheduler.self f)) ≤ fuel →
  ∃ victims evicted,
    Scheduler.running (Scheduler.self f)
    = Scheduler.running (Scheduler.self f') ++ victims
    ∧ ((lr' = lr ++ [g] ∧ evicted = victims)
       ∨ (lr' = lr ∧ Scheduler.running (Scheduler.self f') = []
          ∧ evicted = g :: victims))
    ∧ p' = p ++ (preempted_as <$> reverse evicted)
    ∧ Scheduler.waiting (Scheduler.self f')
      = (retag RUNNING WAITING <$> filter recomputes evicted)
        ++ Scheduler.waiting (Scheduler.self f)
    ∧ Scheduler.swapped (Scheduler.self f')
      = Scheduler.swapped (Scheduler.self f)
        ++ (retag RUNNING SWAPPED
            <$> filter (λ g, ¬ recomputes g) (reverse evicted)).
Proof.
  revert p f.
  induction fuel as [|fuel IH]; intros p f; rewrite reserve_slot_unfold;
    (destruct (can_append_slot _ g);
     [ destruct (on_group_append_slot f g) as (bm & rc & sc & ->);
       intros [= <- <- <-] _; exists [], []; simpl;
       rewrite ?app_nil_r; (split; [done|]); (split; [by left|]); done
     | destruct (pop_right _) as [[rest v]|] eqn:Hpop;
       [ apply pop_right_Some in Hpop
       | apply pop_right_None in Hpop;
         destruct (Scheduler.on_group _ g f) as [[g'|e] f0] eqn:Hpre;
         [|done];
         apply on_group_preempt_mode in Hpre as (-> & Hr & Hw & Hs);
         intros [= <- <- <-] _; exists [], [g];
         rewrite Hr, Hpop, Hw, Hs;
         (split; [done|]); (split; [by right|]); done ] ]).
  - intros _ Hlen. rewrite Hpop, length_app in Hlen. simpl in Hlen. lia.
  - destruct (Scheduler.on_group _ v _) as [[v'|e] f0] eqn:Hpre; [|done].
    apply on_group_preempt_mode in Hpre as (-> & Hr & Hw & Hs).
    simpl in Hr, Hw, Hs.
    intros Hrec Hlen. rewrite Hpop, length_app in Hlen. simpl in Hlen.
    apply IH in Hrec; [|rewrite Hr; lia].
    destruct Hrec as (victims & evicted & Hrun & Hcase & -> & Hw' & Hs').
    rewrite Hr in Hrun. rewrite Hw in Hw'. rewrite Hs in Hs'.
    exists (victims ++ [v]), (evicted ++ [v]).
    split; [by rewrite Hpop, Hrun, app_assoc|].
    split.
    { destruct Hcase as [[-> ->]|(-> & Hnil & ->)]; [by left|by right]. }
    rewrite reverse_snoc, fmap_cons, filter_app, fmap_app, filter_cons.
    split; [by rewrite <-app_assoc|].
    split; [by rewrite Hw', <-app_assoc|].
    rewrite Hs', <-app_assoc. f_equal.
    rewrite !(filter_cons _ v). simpl.
    by destruct (decide (¬ recomputes v)).
Qed.

Lemma reserve_running_evicts fuel lr p f lr' p' f' :
  Scheduler.reserve_running fuel lr p f = (Val (lr', p'), f') →
  length (Scheduler.running (Scheduler.self f)) ≤ fuel →
  ∃ kept evicted,
    Scheduler.running (Scheduler.self f) = kept ++ evicted
    ∧ lr' = lr ++ kept
    ∧ Scheduler.running (Scheduler.self f') = []
    ∧ p' = p ++ (preempted_as <$> reverse evicted)
    ∧ Scheduler.waiting (Scheduler.self f')
      = (retag RUNNING WAITING <$> filter recomputes evicted)
        ++ Scheduler.waiting (Scheduler.self f)
    ∧ Scheduler.swapped (Scheduler.self f')
      = Scheduler.swapped (Scheduler.self f)
        ++ (retag RUNNING SWAPPED
            <$> filter (λ g, ¬ recomputes g) (reverse evicted)).
Proof.
  revert lr p f.
  induction fuel as [|fuel IH]; intros lr p f; rewrite reserve_running_unfold;
    destruct (Scheduler.running (Scheduler.self f)) as [|g rest] eqn:Hrun;
    try (intros [= <- <- <-] _; exists [], []; simpl;
         by rewrite ?app_nil_r).
  { simpl. intros _ ?. lia. }
  destruct (Scheduler.reserve_slot _ _ _ _ _) as [[[lr1 p1]|e] f1] eqn:Hslot;
    [|done].
  intros Hrec Hlen. simpl in Hlen.
  apply reserve_slot_evicts in Hslot; [|simpl; lia].
  destruct Hslot as (victims & ev & Hrest & Hcase & -> & Hw1 & Hs1).
  simpl in Hrest, Hw1, Hs1.
  apply IH in Hrec; [|rewrite Hrest, length_app in Hlen; lia].
  destruct Hrec as (kept & evicted & Hrun1 & -> & Hnil & -> & Hw & Hs).
  destruct Hcase as [[-> ->]|(-> & Hnil1 & ->)].
  - exists (g :: kept), (evicted ++ victims).
    split; [by rewrite Hrest, Hrun1, <-app_assoc|].
    split; [by rewrite <-app_assoc|]. split; [done|].
    rewrite reverse_app, fmap_app, !filter_app, !fmap_app.
    split; [by rewrite <-app_assoc|].
    split; [by rewrite Hw, Hw1, <-app_assoc|].
    by rewrite Hs, Hs1, <-app_assoc.
  - rewrite Hnil1 in Hrun1. symmetry in Hrun1.
    apply app_eq_nil in Hrun1 as [-> ->].
    rewrite Hnil1 in Hrest. simpl in *.
    exists [], (g :: victims). rewrite !app_nil_r in *.
    split; [by rewrite Hrest|]. split; [done|]. split; [done|].
    split; [done|]. split; [by rewrite Hw, Hw1|]. by rewrite Hs, Hs1.
Qed.

(** When the reserve phase returns, the running queue is a front part,
    unchanged, of the queue that the policy sorted, and the evicted groups
    are the rest of it. *)
Lemma reserve_phase_evicts now f preempted f1 :
  Scheduler.reserve_phase now f = (Val preempted, f1) →
  ∃ evicted,
    sort_by_priority now (Scheduler.running (Scheduler.self f))
    = Scheduler.running (Scheduler.self f1) ++ evicted
    ∧ preempted = preempted_as <$> reverse evicted
    ∧ Scheduler.waiting (Scheduler.self f1)
      = (retag RUNNING WAITING <$> filter recomputes evicted)
        ++ Scheduler.waiting (Scheduler.self f)
    ∧ Scheduler.swapped (Scheduler.self f1)
      = Scheduler.swapped (Scheduler.self f)
        ++ (retag RUNNING SWAPPED
            <$> filter (λ g, ¬ recomputes g) (reverse evicted)).
Proof.
  unfold Scheduler.reserve_phase.
  destruct (Scheduler.reserve_running _ _ _ _) as [[[lr p]|e] f2] eqn:Hres;
    [|done].
  apply reserve_running_evicts in Hres; [|done].
  destruct Hres as (kept & evicted & Hrun & -> & _ & -> & Hw & Hs).
  simpl in Hrun, Hw, Hs. intros [= <- <-]. simpl.
  by exists evicted.
Qed.

Lemma fmap_reverse_nil {A B} (h : A → B) (l : list A) :
  h <$> reverse l = [] → l = [].
Proof.
  intros Hnil. apply fmap_nil_inv in Hnil.
  destruct l as [|x l]; [done|].
  rewrite reverse_cons in Hnil. by destruct (reverse l).
Qed.

(** X7: how a tick that runs no prompt moves the groups.  The policy sorts
    the running queue; a front part [kept] of it stays, unchanged, and the
    rest, [evicted], is preempted.  Of the evicted groups, those preempted by
    recomputation go to the front of the waiting queue in their sorted
    order, and those swapped out go to the back of the swapped queue, last
    in the order first.  Then the swapped queue is sorted and, only when
    nothing was evicted, a front part [swapped_in] of it joins the back of
    the running queue. *)
Theorem decode_tick_moves now s out s' :
  Scheduler._schedule now s = (Val out, s') →
  SchedulerOutputs.prompt_run out = false →
  ∃ kept evicted swapped_in,
    sort_by_priority now (Scheduler.running s) = kept ++ evicted
    ∧ Scheduler.running s' = kept ++ (retag SWAPPED RUNNING <$> swapped_in)
    ∧ (evicted ≠ [] → swapped_in = [])
    ∧ Scheduler.waiting s'
      = (retag RUNNING WAITING <$> filter recomputes evicted)
        ++ Scheduler.waiting s
    ∧ sort_by_priority now
        (Scheduler.swapped s
         ++ (retag RUNNING SWAPPED
             <$> filter (λ g, ¬ recomputes g) (reverse evicted)))
      = swapped_in ++ Scheduler.swapped s'.
Proof.
  intros Hsched Hprompt.
  apply schedule_anatomy in Hsched
    as [(_ & ra & fa & Hadm & -> & Hra)|(f' & Hrun & -> & Hfall)].
  { destruct ra as [a|e]; [|done]. by destruct Hra as [_ [= ->]]. }
  apply schedule_running_anatomy in Hrun as (rp & f1 & Hres & Hrp).
  destruct rp as [p|e]; [|by destruct Hrp]. destruct Hrp as [Hswap _].
  apply reserve_phase_evicts in Hres as (evicted & Hrun & -> & Hw & Hs).
  simpl in Hrun, Hw, Hs.
  apply swap_in_phase_spec in Hswap as (_ & Hsome & Hnone).
  destruct evicted as [|g evicted].
  - destruct Hnone as (n & pre & _ & Hpre & Hrunning & _ & _ & _ & _ & Hw'
                       & _); [done|].
    simpl in *. exists (Scheduler.running (Scheduler.self f1)), [], pre.
    rewrite app_nil_r in Hs.
    split; [done|]. split; [done|]. split; [done|].
    split; [by rewrite Hw', Hw|].
    change (reverse (@nil SequenceGroup)) with (@nil SequenceGroup).
    rewrite filter_nil, fmap_nil, app_nil_r. by rewrite <-Hs, Hpre.
  - rewrite Hsome.
    2:{ intros Hnil. by apply fmap_reverse_nil in Hnil. }
    simpl. exists (Scheduler.running (Scheduler.self f1)), (g :: evicted), [].
    rewrite app_nil_r. split; [done|]. split; [done|]. split; [done|].
    split; [done|]. by rewrite Hs.
Qed.

(** *** No group is lost *)

Lemma request_id_retag from to (l : list SequenceGroup) :
  request_id <$> (retag from to <$> l) = request_id <$> l.
Proof. rewrite <-list_fmap_compose. by apply list_fmap_ext. Qed.

Lemma filter_both_Permutation {A} (P : A → Prop) `{∀ x, Decision (P x)}
    (l : list A) :
  filter P l ++ filter (λ x, ¬ P x) l ≡ₚ l.
Proof.
  induction l as [|x l IH]; [done|].
  rewrite !filter_cons. destruct (decide (P x)).
  - rewrite decide_False by tauto. simpl. by rewrite IH.
  - rewrite decide_True by done. rewrite <-Permutation_middle. by rewrite IH.
Qed.

(** The admission loop takes groups off the waiting queue only to put them
    on the running queue or among the ignored groups. *)
Lemma admit_waiting_keeps_groups fuel a f a' f' :
  Scheduler.admit_waiting fuel a f = (Val a', f') →
  Scheduler.swapped (Scheduler.self f') = Scheduler.swapped (Scheduler.self f)
  ∧ (request_id <$> Scheduler.waiting (Scheduler.self f'))
    ++ (request_id <$> Scheduler.running (Scheduler.self f'))
    ++ (request_id <$> Scheduler.ignored_seq_groups a')
    ≡ₚ (request_id <$> Scheduler.waiting (Scheduler.self f))
       ++ (request_id <$> Scheduler.running (Scheduler.self f))
       ++ (request_id <$> Scheduler.ignored_seq_groups a).
Proof.
  revert a f. induction fuel as [|fuel IH]; intros a f;
    rewrite admit_waiting_unfold;
    destruct (Scheduler.waiting (Scheduler.self f)) as [|g w] eqn:Hw;
    try (intros [= <- <-]; by rewrite Hw).
  destruct (get_seqs (Some WAITING) g) as [|seq [|??]]; try done.
  assert (Hignore :
    Scheduler.admit_waiting fuel (Scheduler.ignore g a)
      (Scheduler.popleft_waiting f) = (Val a', f') →
    Scheduler.swapped (Scheduler.self f')
    = Scheduler.swapped (Scheduler.self f)
    ∧ (request_id <$> Scheduler.waiting (Scheduler.self f'))
      ++ (request_id <$> Scheduler.running (Scheduler.self f'))
      ++ (request_id <$> Scheduler.ignored_seq_groups a')
      ≡ₚ (request_id <$> g :: w)
         ++ (request_id <$> Scheduler.running (Scheduler.self f))
         ++ (request_id <$> Scheduler.ignored_seq_groups a)).
  { intros Hrec. apply IH in Hrec as [Hsw Hperm]. split; [done|].
    rewrite Hperm. simpl. rewrite Hw. simpl. rewrite fmap_app. simpl.
    solve_Permutation. }
  destruct (_ <? get_len seq); [done|].
  destruct (can_allocate _ _ _ _); [|by intros [= <- <-]; rewrite Hw|done].
  destruct (_ <? _); [by intros [= <- <-]; rewrite Hw|].
  destruct (_ <? _); [by intros [= <- <-]; rewrite Hw|].
  rewrite on_group_allocate. intros Hrec.
  apply IH in Hrec as [Hsw Hperm]. split; [done|].
  rewrite Hperm. simpl. rewrite Hw. simpl. rewrite fmap_app. simpl.
  solve_Permutation.
Qed.

(** X8: a tick that returns loses no group and makes none up: the requests
    of the three queues and of the ignored groups after the tick are the
    requests of the three queues before it, when the policy only
    reorders. *)
Theorem tick_keeps_every_group now s out s' :
  (∀ l, sort_by_priority now l ≡ₚ l) →
  Scheduler._schedule now s = (Val out, s') →
  (request_id <$> Scheduler.waiting s')
  ++ (request_id <$> Scheduler.running s')
  ++ (request_id <$> Scheduler.swapped s')
  ++ (request_id <$> SchedulerOutputs.ignored_seq_groups out)
  ≡ₚ (request_id <$> Scheduler.waiting s)
     ++ (request_id <$> Scheduler.running s)
     ++ (request_id <$> Scheduler.swapped s).
Proof.
  intros Hsort Hsched.
  apply schedule_anatomy in Hsched
    as [(Hsw0 & ra & fa & Hadm & -> & Hra)|(f' & Hrun & -> & Hfall)].
  - destruct ra as [a|e]; [|done]. destruct Hra as [_ [= ->]]. simpl.
    apply admit_waiting_keeps_groups in Hadm as [Hsw Hperm].
    simpl in Hsw, Hperm. rewrite Hsw, Hsw0. simpl.
    by rewrite Hperm.
  - pose proof (schedule_running_plan _ _ _ _ Hrun) as ->. simpl.
    rewrite app_nil_r.
    apply schedule_running_anatomy in Hrun as (rp & f1 & Hres & Hrp).
    destruct rp as [p|e]; [|by destruct Hrp]. destruct Hrp as [Hswap _].
    apply reserve_phase_evicts in Hres as (evicted & Hrun & -> & Hw & Hs).
    simpl in Hrun, Hw, Hs.
    apply swap_in_phase_spec in Hswap as (_ & Hsome & Hnone).
    assert (Hev :
      (request_id <$> filter recomputes evicted)
      ++ (request_id <$> filter (λ g, ¬ recomputes g) (reverse evicted))
      ≡ₚ request_id <$> evicted).
    { rewrite (reverse_Permutation evicted), <-fmap_app.
      by rewrite filter_both_Permutation. }
    assert (Hsorted :
      request_id <$> Scheduler.running s
      ≡ₚ (request_id <$> Scheduler.running (Scheduler.self f1))
         ++ (request_id <$> evicted)).
    { by rewrite <-(Hsort (Scheduler.running s)), Hrun, fmap_app. }
    assert (Hbase :
      (request_id <$> Scheduler.waiting (Scheduler.self f1))
      ++ (request_id <$> Scheduler.running (Scheduler.self f1))
      ++ (request_id <$> Scheduler.swapped (Scheduler.self f1))
      ≡ₚ (request_id <$> Scheduler.waiting s)
         ++ (request_id <$> Scheduler.running s)
         ++ (request_id <$> Scheduler.swapped s)).
    { rewrite Hw, Hs, !fmap_app, !request_id_retag, Hsorted, <-Hev.
      solve_Permutation. }
    rewrite <-Hbase. clear Hbase Hev Hsorted Hw Hs Hrun.
    destruct evicted as [|g evicted].
    + destruct Hnone as (n & pre & _ & Hpre & Hrunning & _ & _ & _ & _ & Hw'
                         & _); [done|].
      simpl in Hpre, Hrunning, Hw'.
      rewrite Hw', Hrunning, fmap_app, request_id_retag.
      rewrite <-(Hsort (Scheduler.swapped (Scheduler.self f1))), Hpre.
      rewrite fmap_app. solve_Permutation.
    + rewrite Hsome.
      2:{ intros Hnil. by apply fmap_reverse_nil in Hnil. }
      simpl. by rewrite (Hsort (Scheduler.swapped (Scheduler.self f1))).
Qed.

(** *** The helpers, once more *)

(** X9: preemption by recomputation asserts that the group has exactly one
    running sequence.  When it has none or several, [_preempt] with the mode
    [RECOMPUTE], or with no mode for a group whose bound is one, raises the
    assertion and leaves the scheduler, the dicts and the group as they
    were. *)
Theorem recompute_asserts_one_running f g :
  length (get_seqs (Some RUNNING) g) ≠ 1 →
  Scheduler._preempt (Some RECOMPUTE) (f, g)
  = (Raise (AssertionError one_running_sequence), (f, g))
  ∧ (get_max_num_running_seqs g = 1 →
     Scheduler._preempt None (f, g)
     = (Raise (AssertionError one_running_sequence), (f, g))).
Proof.
  intros Hlen.
  assert (Hraise : Scheduler._preempt_by_recompute (f, g)
                   = (Raise (AssertionError one_running_sequence), (f, g))).
  { unfold Scheduler._preempt_by_recompute.
    destruct (Nat.eqb_spec (length (get_seqs (Some RUNNING) g)) 1); done. }
  split; [exact Hraise|]. intros Hone.
  unfold Scheduler._preempt. rewrite Hone. exact Hraise.
Qed.

Lemma retag_there_and_back a b g :
  a ≠ b → get_seqs (Some b) g = [] → retag b a (retag a b g) = g.
Proof.
  intros Hne Hnone. destruct g as [rid l arr sp].
  unfold retag, get_seqs in *; simpl in *. f_equal.
  rewrite <-list_fmap_compose.
  induction l as [|seq l IH]; [done|]. csimpl.
  rewrite filter_cons in Hnone.
  destruct (decide (status seq = b)) as [|Hb]; [done|].
  rewrite IH by done. f_equal.
  destruct (decide (status seq = a)) as [Ha|Ha]; simpl.
  - rewrite decide_True by done. destruct seq as [i st n].
    simpl in *. by subst.
  - by rewrite decide_False.
Qed.

(** X10: swapping a group out and in again gives every sequence its status
    back when the block manager can swap the group out and none of its
    sequences was swapped: the group comes back as it was, and the three
    queues are not touched.  The swap-out dicts have been updated with the
    mapping of [swap_out], the swap-in dicts with the mapping of [swap_in]
    on the swapped group, and the block manager is the one that [swap_in]
    left. *)
Theorem status_round_trips f g :
  can_swap_out (Scheduler.block_manager (Scheduler.self f)) g = true →
  get_seqs (Some SWAPPED) g = [] →
  ∃ f',
    (do _ <- Scheduler._swap_out; Scheduler._swap_in) (f, g)
    = (Val (), (f', g))
    ∧ Scheduler.waiting (Scheduler.self f')
      = Scheduler.waiting (Scheduler.self f)
    ∧ Scheduler.running (Scheduler.self f')
      = Scheduler.running (Scheduler.self f)
    ∧ Scheduler.swapped (Scheduler.self f')
      = Scheduler.swapped (Scheduler.self f)
    ∧ ∀ bm out_plan bm' in_plan,
        swap_out (Scheduler.block_manager (Scheduler.self f)) g
        = (bm, out_plan) →
        swap_in bm (retag RUNNING SWAPPED g) = (bm', in_plan) →
        Scheduler.block_manager (Scheduler.self f') = bm'
        ∧ Scheduler.retrieval_blocks_to_swap_out f'
          = out_plan.1 ∪ Scheduler.retrieval_blocks_to_swap_out f
        ∧ Scheduler.streaming_blocks_to_swap_out f'
          = out_plan.2 ∪ Scheduler.streaming_blocks_to_swap_out f
        ∧ Scheduler.retrieval_blocks_to_swap_in f'
          = in_plan.1 ∪ Scheduler.retrieval_blocks_to_swap_in f
        ∧ Scheduler.streaming_blocks_to_swap_in f'
          = in_plan.2 ∪ Scheduler.streaming_blocks_to_swap_in f.
Proof.
  intros Hcan Hnone.
  unfold bind, Scheduler._swap_out, Scheduler._swap_in. rewrite Hcan. simpl.
  destruct (swap_out _ g) as [bm [rm sm]]. simpl.
  destruct (swap_in _ _) as [bm' [rm' sm']] eqn:Hin. simpl in Hin.
  rewrite retag_there_and_back by done. eexists. split; [done|].
  simpl. split; [done|]. split; [done|]. split; [done|].
  intros bm0 out_plan bm1 in_plan [= <- <-] Hin'.
  rewrite Hin in Hin'. by injection Hin' as <- <-.
Qed.

Lemma add_copy_keeps (ret : option (nat * nat)) (d : gmap nat (list nat))
    (src : nat) (l : list nat) :
  d !! src = Some l →
  ∃ l', Scheduler.add_copy ret d !! src = Some (l ++ l').
Proof.
  intros Hl. unfold Scheduler.add_copy.
  destruct ret as [[s0 d0]|]; [|exists []; by rewrite app_nil_r].
  destruct (decide (s0 = src)) as [->|Hne].
  - rewrite Hl, lookup_insert_eq. by eexists.
  - destruct (d !! s0); rewrite lookup_insert_ne by done;
      exists []; by rewrite app_nil_r.
Qed.

(** X11: [_append_slot] only adds to the copy dicts: a source block that
    had destinations keeps them, in order, at the front of its list.  It
    changes no sequence group, no queue and no swap dict. *)
Theorem append_slot_only_adds_copies f g f' g' :
  Scheduler._append_slot (f, g) = (Val (), (f', g')) →
  g' = g
  ∧ (∀ src l, Scheduler.retrieval_blocks_to_copy f !! src = Some l →
       ∃ l', Scheduler.retrieval_blocks_to_copy f' !! src = Some (l ++ l'))
  ∧ (∀ src l, Scheduler.streaming_blocks_to_copy f !! src = Some l →
       ∃ l', Scheduler.streaming_blocks_to_copy f' !! src = Some (l ++ l'))
  ∧ Scheduler.waiting (Scheduler.self f') = Scheduler.waiting (Scheduler.self f)
  ∧ Scheduler.running (Scheduler.self f') = Scheduler.running (Scheduler.self f)
  ∧ Scheduler.swapped (Scheduler.self f') = Scheduler.swapped (Scheduler.self f)
  ∧ Scheduler.retrieval_blocks_to_swap_in f'
    = Scheduler.retrieval_blocks_to_swap_in f
  ∧ Scheduler.streaming_blocks_to_swap_in f'
    = Scheduler.streaming_blocks_to_swap_in f
  ∧ Scheduler.retrieval_blocks_to_swap_out f'
    = Scheduler.retrieval_blocks_to_swap_out f
  ∧ Scheduler.streaming_blocks_to_swap_out f'
    = Scheduler.streaming_blocks_to_swap_out f.
Proof.
  unfold Scheduler._append_slot. intros [= <- <-]. split; [done|].
  assert (Hcopies : ∀ (l0 : list Sequence) f0,
    (∀ src l, Scheduler.retrieval_blocks_to_copy f0 !! src = Some l →
       ∃ l', Scheduler.retrieval_blocks_to_copy
               (foldl Scheduler.append_slot_seq f0 l0) !! src
             = Some (l ++ l'))
    ∧ (∀ src l, Scheduler.streaming_blocks_to_copy f0 !! src = Some l →
         ∃ l', Scheduler.streaming_blocks_to_copy
                 (foldl Scheduler.append_slot_seq f0 l0) !! src
               = Some (l ++ l'))).
  { induction l0 as [|seq l0 IH]; intros f0; simpl.
    - split; intros src l Hl; exists []; by rewrite app_nil_r.
    - destruct (IH (Scheduler.append_slot_seq f0 seq)) as [IHr IHs].
      unfold Scheduler.append_slot_seq in *.
      destruct (append_slot _ seq) as [bm [rr sr]]. simpl in *.
      split; intros src l Hl.
      + destruct (add_copy_keeps rr _ src l Hl) as [l1 Hl1].
        destruct (IHr src _ Hl1) as [l2 Hl2].
        exists (l1 ++ l2). by rewrite app_assoc.
      + destruct (add_copy_keeps sr _ src l Hl) as [l1 Hl1].
        destruct (IHs src _ Hl1) as [l2 Hl2].
        exists (l1 ++ l2). by rewrite app_assoc. }
  destruct (Hcopies (get_seqs (Some RUNNING) g) f) as [Hr Hs].
  split; [exact Hr|]. split; [exact Hs|].
  change (filter (λ seq, status seq = RUNNING) (seqs g))
    with (get_seqs (Some RUNNING) g).
  by destruct (append_slot_seqs_shape f (get_seqs (Some RUNNING) g))
    as (bm & rc & sc & ->).
Qed.

(** *** schedule and prepare_input *)

(** X12: [schedule] and [prepare_input] run the same tick as [_schedule]:
    they raise when it raises, and otherwise return its plan and leave the
    same scheduler.  The metadata has one record for each scheduled group,
    in order, with the request id of the group, the [prompt_run] of the plan
    and the sequences of the group that are [RUNNING], under their ids;
    [prepare_input] returns the records of [schedule] without the block
    tables. *)
Theorem schedule_and_prepare_input now s :
  match Scheduler._schedule now s with
  | (Val out, s') =>
      ∃ metadata,
        Scheduler.schedule now s = (Val (metadata, out), s')
        ∧ Scheduler.prepare_input now s
          = (Val (without_tables <$> metadata, out), s')
        ∧ md_request_id <$> metadata
          = request_id <$> SchedulerOutputs.scheduled_seq_groups out
        ∧ Forall2 (λ m g,
            md_is_prompt m = SchedulerOutputs.prompt_run out
            ∧ md_seq_data m
              = (λ seq, (seq_id seq, seq)) <$> get_seqs (Some RUNNING) g
            ∧ md_retrieval_block_tables m
              = Some ((λ seq, (seq_id seq,
                         get_retrieval_block_table
                           (Scheduler.block_manager s') seq))
                      <$> get_seqs (Some RUNNING) g))
            metadata (SchedulerOutputs.scheduled_seq_groups out)
  | (Raise e, s') =>
      Scheduler.schedule now s = (Raise e, s')
      ∧ Scheduler.prepare_input now s = (Raise e, s')
  end.
Proof.
  unfold Scheduler.schedule, Scheduler.prepare_input, bind, ret.
  destruct (Scheduler._schedule now s) as [[out|e] s']; [|done].
  eexists. split; [reflexivity|]. split.
  { do 3 f_equal. rewrite <-list_fmap_compose. by apply list_fmap_ext. }
  split; [rewrite <-list_fmap_compose; by apply list_fmap_ext|].
  induction (SchedulerOutputs.scheduled_seq_groups out) as [|g l IH];
    csimpl; by constructor.
Qed.

(** *** abort_seq_group *)

Lemma abort_scan_no_match (q : list SequenceGroup) (ids : gset string)
    (ab : list SequenceGroup) :
  Forall (λ g, request_id g ∉ ids) q →
  (Scheduler.abort_scan q ids ab).1 = ab
  ∧ (Scheduler.abort_scan q ids ab).2 = ids.
Proof.
  induction 1 as [|g q Hg Hq IH]; simpl; [done|].
  destruct (decide (ids = ∅)); [done|].
  by rewrite decide_False.
Qed.

Lemma abort_in_queue_no_match (q : list SequenceGroup) (ids : gset string)
    (bm : BM) done :
  Forall (λ g, request_id g ∉ ids) q →
  Scheduler.abort_in_queue q ids bm done = (q, ids, bm, done).
Proof.
  intros Hq. unfold Scheduler.abort_in_queue.
  destruct (abort_scan_no_match q ids [] Hq) as [H1 H2].
  destruct (Scheduler.abort_scan q ids []) as [ab ids']. simpl in *.
  by subst.
Qed.

(** X13: aborting request ids that no group of the three queues carries
    does nothing: the scheduler is as before, the block manager with it,
    and no group is aborted. *)
Theorem abort_of_unknown_ids_does_nothing r s :
  Forall (λ g, request_id g ∉ requested r)
    (Scheduler.waiting s ++ Scheduler.running s ++ Scheduler.swapped s) →
  Scheduler.abort_seq_group r s = (s, []).
Proof.
  intros Hall. apply Forall_app in Hall as [Hw Hall].
  apply Forall_app in Hall as [Hr Hs].
  unfold Scheduler.abort_seq_group. fold (requested r).
  rewrite (abort_in_queue_no_match _ _ _ _ Hw).
  rewrite (abort_in_queue_no_match _ _ _ _ Hr).
  rewrite (abort_in_queue_no_match _ _ _ _ Hs).
  by destruct s.
Qed.

Lemma remove_first_length {A} `{EqDecision A} (x : A) (l : list A) :
  x ∈ l → S (length (remove_first x l)) = length l.
Proof.
  induction l as [|y l IH]; simpl; [by intros ?%elem_of_nil|].
  destruct (decide (y = x)); [done|].
  intros [?|Hin]%elem_of_cons; [congruence|]. simpl. by rewrite IH.
Qed.

Lemma remove_first_sublist {A} `{EqDecision A} (x : A) (l : list A) :
  remove_first x l `sublist_of` l.
Proof.
  induction l as [|y l IH]; simpl; [done|].
  destruct (decide (y = x)); [by apply sublist_cons|by apply sublist_skip].
Qed.

Lemma remove_first_other {A} `{EqDecision A} (x y : A) (l : list A) :
  y ∈ l → y ≠ x → y ∈ remove_first x l.
Proof.
  induction l as [|z l IH]; simpl; [done|].
  intros Hin Hne. destruct (decide (z = x)) as [->|].
  - apply elem_of_cons in Hin as [?|?]; [congruence|done].
  - apply elem_of_cons in Hin as [->|?]; [apply list_elem_of_here|].
    apply list_elem_of_further. by apply IH.
Qed.

Lemma abort_scan_spec (q : list SequenceGroup) (ids : gset string)
    (ab : list SequenceGroup) :
  ∃ found,
    Scheduler.abort_scan q ids ab
    = (ab ++ found, ids ∖ list_to_set (request_id <$> found))
    ∧ found `sublist_of` q
    ∧ Forall (λ g, request_id g ∈ ids) found
    ∧ NoDup (request_id <$> found).
Proof.
  revert ids ab. induction q as [|g q IH]; intros ids ab; simpl.
  { exists []. rewrite app_nil_r. simpl. split; [f_equal; set_solver|].
    split; [done|]. split; constructor. }
  destruct (decide (ids = ∅)) as [->|Hne].
  { exists []. rewrite app_nil_r. simpl. split; [f_equal; set_solver|].
    split; [apply sublist_nil_l|]. split; constructor. }
  destruct (decide (request_id g ∈ ids)) as [Hin|Hnotin].
  - destruct (IH (ids ∖ {[request_id g]}) (ab ++ [g]))
      as (found & -> & Hsub & Hall & Hnodup).
    exists (g :: found). split.
    { rewrite <-app_assoc. simpl. f_equal. set_solver. }
    split; [by apply sublist_skip|]. split.
    + constructor; [done|]. eapply Forall_impl; [exact Hall|].
      simpl. set_solver.
    + csimpl. constructor; [|done].
      intros Hdup. apply list_elem_of_fmap in Hdup as (g' & Heq & Hg').
      rewrite Forall_forall in Hall. specialize (Hall g' Hg'). set_solver.
  - destruct (IH ids ab) as (found & -> & Hsub & Hall & Hnodup).
    exists found. split; [done|]. split; [by apply sublist_cons|]. done.
Qed.

Lemma abort_seqs_group (bm : BM) g :
  (Scheduler.abort_seqs bm g).2 = aborted_group g.
Proof. done. Qed.

Lemma abort_groups_spec (found q : list SequenceGroup) (bm : BM) done :
  Forall (λ g, g ∈ q) found →
  NoDup found →
  ∃ q' bm',
    Scheduler.abort_groups found q bm done
    = (q', bm', done ++ (aborted_group <$> found))
    ∧ q' `sublist_of` q
    ∧ length q' + length found = length q
    ∧ (∀ h, h ∈ q → h ∉ found → h ∈ q').
Proof.
  revert q bm done. induction found as [|g found IH]; intros q bm done.
  { intros _ _. exists q, bm. simpl. rewrite app_nil_r. split; [done|].
    split; [done|]. split; [lia|done]. }
  intros [Hg Hall]%Forall_cons [Hnotin Hnodup]%NoDup_cons.
  change (Scheduler.abort_groups (g :: found) q bm done)
    with (Scheduler.abort_groups found (remove_first g q)
            (Scheduler.abort_seqs bm g).1 (done ++ [aborted_group g])).
  destruct (IH (remove_first g q) (Scheduler.abort_seqs bm g).1
              (done ++ [aborted_group g]))
    as (q' & bm' & -> & Hsub & Hlen & Hstay); [|done|].
  { rewrite Forall_forall in Hall |- *. intros h Hh.
    apply remove_first_other; [by apply Hall|]. intros ->. done. }
  exists q', bm'. split; [by rewrite <-app_assoc|].
  split; [etrans; [exact Hsub|apply remove_first_sublist]|].
  split; [pose proof (remove_first_length g q Hg); simpl; lia|].
  intros h Hh Hnot. apply not_elem_of_cons in Hnot as [Hne Hnot].
  apply Hstay; [|done]. by apply remove_first_other.
Qed.

Lemma abort_in_queue_spec (q : list SequenceGroup) (ids : gset string)
    (bm : BM) done :
  ∃ found q' bm',
    Scheduler.abort_in_queue q ids bm done
    = (q', ids ∖ list_to_set (request_id <$> found), bm',
       done ++ (aborted_group <$> found))
    ∧ q' `sublist_of` q
    ∧ length q' + length found = length q
    ∧ Forall (λ g, request_id g ∈ ids) found
    ∧ NoDup (request_id <$> found)
    ∧ (∀ h, h ∈ q → request_id h ∉ ids → h ∈ q').
Proof.
  unfold Scheduler.abort_in_queue.
  destruct (abort_scan_spec q ids []) as (found & -> & Hsub & Hall & Hnodup).
  simpl.
  destruct (abort_groups_spec found q bm done)
    as (q' & bm' & -> & Hsub' & Hlen & Hstay).
  { rewrite Forall_forall. intros g Hg. by eapply elem_of_sublist. }
  { by eapply NoDup_fmap_1. }
  exists found, q', bm'. repeat split; try done.
  intros h Hh Hnot. apply Hstay; [done|]. intros Hin.
  rewrite Forall_forall in Hall. by apply Hnot, Hall.
Qed.

Lemma aborted_group_is_finished g : is_finished (aborted_group g) = true.
Proof.
  unfold is_finished, aborted_group; simpl.
  apply forallb_forall. intros seq Hin. apply list_elem_of_In in Hin.
  apply list_elem_of_fmap in Hin as (seq0 & -> & _).
  by destruct (seq_is_finished seq0) eqn:Hfin.
Qed.

(** X14: [abort_seq_group] aborts at most one group for each request id it
    is given.  The queues keep their other groups, in order, and lose as
    many groups as were aborted; a group whose id was not requested stays in
    its queue; every aborted group carried a requested id, and all its
    sequences are finished afterwards. *)
Theorem abort_takes_one_group_per_id r s s' aborted :
  Scheduler.abort_seq_group r s = (s', aborted) →
  Scheduler.get_num_unfinished_seq_groups s' + length aborted
  = Scheduler.get_num_unfinished_seq_groups s
  ∧ Scheduler.waiting s' `sublist_of` Scheduler.waiting s
  ∧ Scheduler.running s' `sublist_of` Scheduler.running s
  ∧ Scheduler.swapped s' `sublist_of` Scheduler.swapped s
  ∧ (∀ g, request_id g ∉ requested r →
       (g ∈ Scheduler.waiting s → g ∈ Scheduler.waiting s')
       ∧ (g ∈ Scheduler.running s → g ∈ Scheduler.running s')
       ∧ (g ∈ Scheduler.swapped s → g ∈ Scheduler.swapped s'))
  ∧ NoDup (request_id <$> aborted)
  ∧ Forall (λ g, request_id g ∈ requested r ∧ is_finished g = true) aborted.
Proof.
  unfold Scheduler.abort_seq_group. fold (requested r).
  destruct (abort_in_queue_spec (Scheduler.waiting s) (requested r)
              (Scheduler.block_manager s) [])
    as (f1 & q1 & bm1 & -> & Hs1 & Hl1 & Ha1 & Hn1 & Hk1).
  match goal with
  | |- context [Scheduler.abort_in_queue (Scheduler.running s) ?ids ?bm ?d] =>
      destruct (abort_in_queue_spec (Scheduler.running s) ids bm d)
        as (f2 & q2 & bm2 & -> & Hs2 & Hl2 & Ha2 & Hn2 & Hk2)
  end.
  match goal with
  | |- context [Scheduler.abort_in_queue (Scheduler.swapped s) ?ids ?bm ?d] =>
      destruct (abort_in_queue_spec (Scheduler.swapped s) ids bm d)
        as (f3 & q3 & bm3 & -> & Hs3 & Hl3 & Ha3 & Hn3 & Hk3)
  end.
  intros [= <- <-]. unfold Scheduler.get_num_unfinished_seq_groups. simpl.
  rewrite !length_app, !length_fmap.
  split; [lia|]. split; [done|]. split; [done|]. split; [done|].
  split.
  { intros g Hg. split; [|split]; intros Hin.
    - by apply Hk1.
    - apply Hk2; [done|]. set_solver.
    - apply Hk3; [done|]. set_solver. }
  rewrite Forall_forall in Ha1, Ha2, Ha3.
  split.
  - rewrite !fmap_app.
    assert (Hid : ∀ l : list SequenceGroup,
              request_id <$> (aborted_group <$> l)
                       = request_id <$> l).
    { intros l. rewrite <-list_fmap_compose. by apply list_fmap_ext. }
    rewrite !Hid. apply NoDup_app. split; [|split; [|done]].
    + apply NoDup_app. split; [done|]. split; [|done].
      intros x Hx1 Hx2. apply list_elem_of_fmap in Hx2 as (g2 & -> & Hg2).
      specialize (Ha2 g2 Hg2). set_solver.
    + intros x Hx Hx3. apply list_elem_of_fmap in Hx3 as (g3 & -> & Hg3).
      specialize (Ha3 g3 Hg3).
      apply elem_of_app in Hx as [Hx|Hx]; [set_solver|].
      apply list_elem_of_fmap in Hx as (g2 & Heq & Hg2). set_solver.
  - rewrite !Forall_app. repeat split; apply Forall_fmap, Forall_forall;
      intros g Hg; simpl; (split; [|apply aborted_group_is_finished]).
    + by apply Ha1.
    + specialize (Ha2 g Hg). set_solver.
    + specialize (Ha3 g Hg). set_solver.
Qed.

(** *** The settings of the scheduler *)

Lemma same_settings_refl s : same_settings s s.
Proof. by repeat split. Qed.

Lemma same_settings_trans s1 s2 s3 :
  same_settings s1 s2 → same_settings s2 s3 → same_settings s1 s3.
Proof.
  intros (? & ? & ? & ?) (? & ? & ? & ?). repeat split; congruence.
Qed.

Lemma on_group_append_slot_settings g f r f' :
  Scheduler.on_group Scheduler._append_slot g f = (r, f') →
  same_settings (Scheduler.self f) (Scheduler.self f').
Proof.
  destruct (on_group_append_slot f g) as (bm & rc & sc & ->).
  intros [= <- <-]. by repeat split.
Qed.

Lemma on_group_preempt_settings g f r f' :
  Scheduler.on_group (Scheduler._preempt None) g f = (r, f') →
  same_settings (Scheduler.self f) (Scheduler.self f').
Proof.
  intros [(e & _ & -> & _)|[(bm & _ & ->)|(bm & rm & sm & _ & ->)]]
    %on_group_preempt; by repeat split.
Qed.

Lemma reserve_slot_settings fuel g lr p f r f' :
  Scheduler.reserve_slot fuel g lr p f = (r, f') →
  same_settings (Scheduler.self f) (Scheduler.self f').
Proof.
  revert p f. induction fuel as [|fuel IH]; intros p f;
    rewrite reserve_slot_unfold;
    (destruct (can_append_slot _ g);
     [destruct (Scheduler.on_group Scheduler._append_slot g f)
        as [[g'|e] f1] eqn:Happ;
      apply on_group_append_slot_settings in Happ;
      by intros [= <- <-]|]);
    (destruct (pop_right _) as [[rest v]|];
     [|destruct (Scheduler.on_group (Scheduler._preempt None) g f)
         as [[g'|e] f1] eqn:Hpre;
       apply on_group_preempt_settings in Hpre;
       by intros [= <- <-]]).
  - intros [= <- <-]. apply same_settings_refl.
  - destruct (Scheduler.on_group (Scheduler._preempt None) v _)
      as [[v'|e] f1] eqn:Hpre;
      apply on_group_preempt_settings in Hpre.
    + intros Hrec%IH. eapply same_settings_trans; [|exact Hrec]. exact Hpre.
    + by intros [= <- <-].
Qed.

Lemma reserve_running_settings fuel lr p f r f' :
  Scheduler.reserve_running fuel lr p f = (r, f') →
  same_settings (Scheduler.self f) (Scheduler.self f').
Proof.
  revert lr p f. induction fuel as [|fuel IH]; intros lr p f;
    rewrite reserve_running_unfold;
    (destruct (Scheduler.running (Scheduler.self f)) as [|g rest];
     [intros [= <- <-]; apply same_settings_refl|]).
  - intros [= <- <-]. apply same_settings_refl.
  - destruct (Scheduler.reserve_slot fuel g lr p _)
      as [[[lr' p']|e] f1] eqn:Hslot;
      apply reserve_slot_settings in Hslot.
    + intros Hrec%IH. eapply same_settings_trans; [|exact Hrec]. exact Hslot.
    + by intros [= <- <-].
Qed.

Lemma reserve_phase_settings now f r f' :
  Scheduler.reserve_phase now f = (r, f') →
  same_settings (Scheduler.self f) (Scheduler.self f').
Proof.
  unfold Scheduler.reserve_phase.
  destruct (Scheduler.reserve_running _ _ _ _)
    as [[[lr p]|e] f1] eqn:Hrun;
    apply reserve_running_settings in Hrun;
    intros [= <- <-]; destruct Hrun as (? & ? & ? & ?); by repeat split.
Qed.

Lemma swap_in_loop_settings fuel n f r f' :
  Scheduler.swap_in_loop fuel n f = (r, f') →
  same_settings (Scheduler.self f) (Scheduler.self f').
Proof.
  revert n f. induction fuel as [|fuel IH]; intros n f;
    rewrite swap_in_loop_unfold;
    (destruct (Scheduler.swapped (Scheduler.self f)) as [|g rest];
     [intros [= <- <-]; apply same_settings_refl|]).
  - intros [= <- <-]. apply same_settings_refl.
  - destruct (negb _); [intros [= <- <-]; apply same_settings_refl|].
    destruct (_ <? _); [intros [= <- <-]; apply same_settings_refl|].
    match goal with
    | |- context [Scheduler.on_group _ g ?f0] =>
        destruct (on_group_swap_in_append_slot f0 g) as (bm & rc & sc & ->)
    end.
    intros (? & ? & ? & ?)%IH. by repeat split.
Qed.

Lemma swap_in_phase_settings now p f r f' :
  Scheduler.swap_in_phase now p f = (r, f') →
  same_settings (Scheduler.self f) (Scheduler.self f').
Proof.
  unfold Scheduler.swap_in_phase. destruct (list_bool p).
  - intros [= <- <-]. by repeat split.
  - destruct (Scheduler.swap_in_loop _ _ _) as [[n|e] f1] eqn:Hloop;
      apply swap_in_loop_settings in Hloop;
      intros [= <- <-]; destruct Hloop as (? & ? & ? & ?); by repeat split.
Qed.

Lemma admit_waiting_settings fuel a f r f' :
  Scheduler.admit_waiting fuel a f = (r, f') →
  same_settings (Scheduler.self f) (Scheduler.self f').
Proof.
  revert a f. induction fuel as [|fuel IH]; intros a f;
    rewrite admit_waiting_unfold;
    (destruct (Scheduler.waiting (Scheduler.self f)) as [|g rest];
     [intros [= <- <-]; apply same_settings_refl|]).
  - intros [= <- <-]. apply same_settings_refl.
  - destruct (get_seqs (Some WAITING) g) as [|seq [|??]];
      try (intros [= <- <-]; apply same_settings_refl).
    destruct (_ <? _).
    { intros (? & ? & ? & ?)%IH. by repeat split. }
    destruct (can_allocate _ _ _ _).
    + destruct (_ <? _); [intros [= <- <-]; apply same_settings_refl|].
      destruct (_ <? _); [intros [= <- <-]; apply same_settings_refl|].
      rewrite on_group_allocate.
      intros (? & ? & ? & ?)%IH. by repeat split.
    + intros [= <- <-]. apply same_settings_refl.
    + intros (? & ? & ? & ?)%IH. by repeat split.
Qed.

(** X15: a tick writes none of the settings of the scheduler.  Whether
    [_schedule] returns or raises, the configuration, [ifb_mode],
    [prompt_limit] and [init_num_blocks] are what they were; on a scheduler
    made by [__init__] and given [init_num_blocks] by
    [update_init_num_blocks], the limit is still the smaller of
    [max_model_len] and [max_num_batched_tokens]. *)
Theorem tick_keeps_settings now s r s' :
  Scheduler._schedule now s = (r, s') →
  same_settings s s'
  ∧ (∀ config ifb bm n,
       same_settings
         (Scheduler.update_init_num_blocks n (Scheduler.init config ifb bm))
         s →
       Scheduler.prompt_limit s'
       = max_model_len config `min` max_num_batched_tokens config
       ∧ Scheduler.init_num_blocks s' = Some n
       ∧ Scheduler.scheduler_config s' = config
       ∧ Scheduler.ifb_mode s' = ifb).
Proof.
  intros Hsched.
  assert (Hsame : same_settings s s').
  { apply schedule_anatomy in Hsched
      as [(_ & ra & fa & Hadm & -> & _)|(f' & Hrun & -> & _)].
    - by apply admit_waiting_settings in Hadm.
    - apply schedule_running_anatomy in Hrun as (rp & f1 & Hres & Hrp).
      apply reserve_phase_settings in Hres.
      destruct rp as [p|e]; [|by destruct Hrp as [_ ->]].
      destruct Hrp as [Hswap _]. apply swap_in_phase_settings in Hswap.
      eapply same_settings_trans; [exact Hres|exact Hswap]. }
  split; [done|]. intros config ifb bm n Hinit.
  destruct (same_settings_trans _ _ _ Hinit Hsame) as (Hc & Hi & Hn & Hp).
  by rewrite Hc, Hi, Hn, Hp.
Qed.


(** *** The prompt at the front, admitted *)

(** X16: when the swapped queue is empty and the group at the front of the
    waiting queue is a prompt within the limit and the token budget, for
    which the block manager answers [OK] and whose bound fits under
    [max_num_seqs], the tick admits it: it is the first group that joins
    the running queue and it has left the waiting queue.  A tick that
    returns is a prompt run whose plan schedules the group first and counts
    at least its prompt; a tick that raises at a later group raises the
    assertion of the admission loop, and the group has been admitted all the
    same. *)
Theorem front_prompt_admitted now s r s' g post seq :
  Scheduler.swapped s = [] →
  Scheduler.waiting s = g :: post →
  get_seqs (Some WAITING) g = [seq] →
  get_len seq ≤ Scheduler.prompt_limit s →
  can_allocate (Scheduler.block_manager s) g (Scheduler.ifb_mode s)
    (Scheduler.init_num_blocks s) = OK →
  get_len seq ≤ max_num_batched_tokens (Scheduler.scheduler_config s) →
  Scheduler.running_seqs_bound s + get_max_num_running_seqs g
  ≤ max_num_seqs (Scheduler.scheduler_config s) →
  Scheduler._schedule now s = (r, s') →
  (∃ rest, Scheduler.running s'
           = Scheduler.running s ++ retag WAITING RUNNING g :: rest)
  ∧ Scheduler.waiting s' `suffix_of` post
  ∧ match r with
    | Val out =>
        SchedulerOutputs.prompt_run out = true
        ∧ (∃ rest, SchedulerOutputs.scheduled_seq_groups out
                   = retag WAITING RUNNING g :: rest)
        ∧ get_len seq ≤ SchedulerOutputs.num_batched_tokens out
    | Raise e => e = AssertionError one_prompt_sequence
    end.
Proof.
  intros Hsw Hw Hseq Hlimit Hok Htok Hcap Hsched.
  pose proof (first_admission_turn s g post Hw) as Hturn.
  rewrite Hseq, Hok in Hturn.
  destruct (Nat.ltb_spec (Scheduler.prompt_limit s) (get_len seq)); [lia|].
  destruct (Nat.ltb_spec (max_num_batched_tokens (Scheduler.scheduler_config s))
              (sum_list [get_len seq])); [simpl in *; lia|].
  destruct (Nat.ltb_spec (max_num_seqs (Scheduler.scheduler_config s))
              (Scheduler.running_seqs_bound s + get_max_num_running_seqs g));
    [lia|].
  destruct (Scheduler.admit_waiting (length post) _ _) as [ra1 fa1] eqn:Hrest
    in Hturn.
  apply admit_waiting_spec in Hrest
    as (adm & ign & con & lens & bm & _ & _ & _ & _ & Hcon & Hfa & _ & _ & Hr).
  simpl in Hcon, Hfa, Hr.
  apply schedule_anatomy in Hsched
    as [(_ & ra & fa & Hadm & -> & Hra)|(f' & Hrun & -> & Hfall)].
  - rewrite Hturn in Hadm. injection Hadm as <- <-.
    split; [|split].
    + rewrite Hfa. simpl. rewrite <-app_assoc. by eexists.
    + rewrite Hcon. by eexists.
    + destruct ra1 as [a|e]; [|by rewrite Hra].
      destruct Hra as [_ ->]. rewrite Hr. simpl.
      split; [done|]. split; [by eexists|]. lia.
  - specialize (Hfall Hsw). rewrite Hturn in Hfall.
    injection Hfall as Hra1 _. destruct ra1 as [a|e]; [|done].
    injection Hra1 as ->. by rewrite Hr in *.
Qed.


End more_properties.

(** ** The further properties on the schedulers above *)

(** [two_waiting_sequences]: the group at the front has two waiting
    sequences, and the tick raises. *)
Lemma tick_asserts_one_prompt_witness :
  length (get_seqs (Some WAITING) G5) = 2
  ∧ Scheduler._schedule 0%Z two_waiting_sequences
    = (Raise (AssertionError one_prompt_sequence), two_waiting_sequences).
Proof.
  split; [reflexivity|].
  apply (tick_asserts_one_prompt 0%Z two_waiting_sequences G5 []);
    [reflexivity | reflexivity | vm_compute; lia].
Defined.

(** [too_small]: the prompt of [G1], 12 tokens, is within the limit of 16
    but the block manager has 8 blocks in all; the tick ignores it. *)
Lemma never_allocatable_prompt_is_ignored_witness :
  ∃ out s',
    Scheduler._schedule 0%Z too_small = (Val out, s')
    ∧ get_len (mkSequence 1 WAITING 12) ≤ Scheduler.prompt_limit too_small
    ∧ SchedulerOutputs.scheduled_seq_groups out = []
    ∧ SchedulerOutputs.prompt_run out = true
    ∧ (∃ rest, SchedulerOutputs.ignored_seq_groups out
               = retag WAITING FINISHED_IGNORED G1 :: rest)
    ∧ set_status FINISHED_IGNORED (mkSequence 1 WAITING 12)
      ∈ seqs (retag WAITING FINISHED_IGNORED G1)
    ∧ Scheduler.waiting s' `suffix_of` [G2].
Proof.
  eexists _, _. split; [vm_compute; reflexivity|].
  split; [vm_compute; lia|]. split; [reflexivity|].
  eapply (never_allocatable_prompt_is_ignored 0%Z too_small _ _ G1 [G2]
            (mkSequence 1 WAITING 12));
    [reflexivity | reflexivity | reflexivity | reflexivity
    | vm_compute; reflexivity].
Defined.

(** [no_room_yet]: 4 blocks are free and the prompt of [G1] needs 12; the
    tick admits nothing and both groups still wait. *)
Lemma front_prompt_deferred_witness :
  ∃ out s',
    Scheduler._schedule 0%Z no_room_yet = (Val out, s')
    ∧ SchedulerOutputs.scheduled_seq_groups out = []
    ∧ (SchedulerOutputs.prompt_run out = false
       ∧ SchedulerOutputs.ignored_seq_groups out = [])
    ∧ (G1 :: [G2]) `suffix_of` Scheduler.waiting s'.
Proof.
  eexists _, _. split; [vm_compute; reflexivity|]. split; [reflexivity|].
  eapply (front_prompt_deferred 0%Z no_room_yet (Val _) _ G1 [G2]
            (mkSequence 1 WAITING 12));
    [reflexivity | reflexivity | reflexivity | vm_compute; lia
    | left; reflexivity | vm_compute; reflexivity].
Defined.

(** [fresh_scheduler] has no group at all. *)
Lemma tick_on_empty_queues_witness :
  ∃ out,
    Scheduler._schedule 0%Z fresh_scheduler = (Val out, fresh_scheduler)
    ∧ SchedulerOutputs.is_empty out = true
    ∧ SchedulerOutputs.prompt_run out = false
    ∧ SchedulerOutputs.num_batched_tokens out = 0
    ∧ SchedulerOutputs.ignored_seq_groups out = [].
Proof.
  apply (tick_on_empty_queues 0%Z fresh_scheduler); reflexivity.
Defined.

(** [one_running_one_swapped]: the tick swaps [S1] in; the plan schedules
    [R1] and [S1] and counts their three running sequences. *)
Lemma decode_plan_is_the_running_queue_witness :
  ∃ out s',
    Scheduler._schedule 0%Z one_running_one_swapped = (Val out, s')
    ∧ SchedulerOutputs.prompt_run out = false
    ∧ SchedulerOutputs.num_batched_tokens out = 3
    ∧ SchedulerOutputs.scheduled_seq_groups out = Scheduler.running s'
    ∧ SchedulerOutputs.ignored_seq_groups out = []
    ∧ SchedulerOutputs.num_batched_tokens out
      = sum_list_with (num_seqs (Some RUNNING)) (Scheduler.running s').
Proof.
  eexists _, _. split; [vm_compute; reflexivity|].
  split; [reflexivity|]. split; [reflexivity|].
  eapply (decode_plan_is_the_running_queue 0%Z one_running_one_swapped);
    [vm_compute; reflexivity | reflexivity].
Defined.

(** [three_waiting]: the prompt run admits [G1] and leaves [G2] and [G3]
    waiting. *)
Lemma prompt_run_plan_witness :
  ∃ out s',
    Scheduler._schedule 0%Z three_waiting = (Val out, s')
    ∧ SchedulerOutputs.prompt_run out = true
    ∧ request_id <$> SchedulerOutputs.scheduled_seq_groups out = ["G1"]
    ∧ (SchedulerOutputs.scheduled_seq_groups out ≠ []
       ∨ SchedulerOutputs.ignored_seq_groups out ≠ [])
    ∧ Scheduler.running s'
      = Scheduler.running three_waiting
        ++ SchedulerOutputs.scheduled_seq_groups out
    ∧ Scheduler.waiting s' `suffix_of` Scheduler.waiting three_waiting
    ∧ Scheduler.swapped s' = []
    ∧ Forall (λ g, get_seqs (Some WAITING) g = [])
        (SchedulerOutputs.scheduled_seq_groups out
         ++ SchedulerOutputs.ignored_seq_groups out)
    ∧ SchedulerOutputs.is_empty out
      = negb (list_bool (SchedulerOutputs.scheduled_seq_groups out)).
Proof.
  eexists _, _. split; [vm_compute; reflexivity|].
  split; [reflexivity|]. split; [reflexivity|].
  eapply (prompt_run_plan 0%Z three_waiting);
    [vm_compute; reflexivity | reflexivity].
Defined.

(** [no_block_left]: [R1] is kept, [R2] is evicted and, its bound being
    two, swapped out; nothing is swapped in. *)
Lemma decode_tick_moves_witness :
  ∃ out s',
    Scheduler._schedule 0%Z no_block_left = (Val out, s')
    ∧ SchedulerOutputs.prompt_run out = false
    ∧ Scheduler.running s' = [R1]
    ∧ Scheduler.swapped s' = [retag RUNNING SWAPPED R2]
    ∧ ∃ kept evicted swapped_in,
        sort_by_priority 0%Z (Scheduler.running no_block_left)
        = kept ++ evicted
        ∧ Scheduler.running s'
          = kept ++ (retag SWAPPED RUNNING <$> swapped_in)
        ∧ (evicted ≠ [] → swapped_in = [])
        ∧ Scheduler.waiting s'
          = (retag RUNNING WAITING <$> filter recomputes evicted)
            ++ Scheduler.waiting no_block_left
        ∧ sort_by_priority 0%Z
            (Scheduler.swapped no_block_left
             ++ (retag RUNNING SWAPPED
                 <$> filter (λ g, ¬ recomputes g) (reverse evicted)))
          = swapped_in ++ Scheduler.swapped s'.
Proof.
  eexists _, _. split; [vm_compute; reflexivity|].
  split; [reflexivity|]. split; [reflexivity|]. split; [reflexivity|].
  eapply (decode_tick_moves 0%Z no_block_left);
    [vm_compute; reflexivity | reflexivity].
Defined.

(** [too_small] under the FCFS policy: both groups are ignored, and their
    requests are the requests that waited. *)
Lemma tick_keeps_every_group_witness :
  ∃ out s',
    Scheduler._schedule 0%Z too_small = (Val out, s')
    ∧ request_id <$> SchedulerOutputs.ignored_seq_groups out = ["G1"; "G2"]
    ∧ (request_id <$> Scheduler.waiting s')
      ++ (request_id <$> Scheduler.running s')
      ++ (request_id <$> Scheduler.swapped s')
      ++ (request_id <$> SchedulerOutputs.ignored_seq_groups out)
      ≡ₚ (request_id <$> Scheduler.waiting too_small)
         ++ (request_id <$> Scheduler.running too_small)
         ++ (request_id <$> Scheduler.swapped too_small).
Proof.
  eexists _, _. split; [vm_compute; reflexivity|]. split; [reflexivity|].
  eapply (tick_keeps_every_group 0%Z too_small);
    [apply fcfs_reorders | vm_compute; reflexivity].
Defined.

(** [G1] has no running sequence and its bound is one. *)
Lemma recompute_asserts_one_running_witness :
  get_seqs (Some RUNNING) G1 = []
  ∧ get_max_num_running_seqs G1 = 1
  ∧ Scheduler._preempt (Some RECOMPUTE)
      (Scheduler.new_frame fresh_scheduler, G1)
    = (Raise (AssertionError one_running_sequence),
       (Scheduler.new_frame fresh_scheduler, G1))
  ∧ Scheduler._preempt None (Scheduler.new_frame fresh_scheduler, G1)
    = (Raise (AssertionError one_running_sequence),
       (Scheduler.new_frame fresh_scheduler, G1)).
Proof.
  split; [reflexivity|]. split; [reflexivity|].
  destruct (recompute_asserts_one_running
              (Scheduler.new_frame fresh_scheduler) G1) as [Hmode Hnone];
    [vm_compute; lia|].
  split; [exact Hmode|]. apply Hnone. reflexivity.
Defined.

(** [R2] can be swapped out of [no_block_left] and comes back as it was,
    with the blocks of its two sequences in the swap-out and in the swap-in
    dict. *)
Lemma status_round_trips_witness :
  ∃ f',
    (do _ <- Scheduler._swap_out; Scheduler._swap_in)
      (Scheduler.new_frame no_block_left, R2)
    = (Val (), (f', R2))
    ∧ Scheduler.running (Scheduler.self f')
      = Scheduler.running no_block_left
    ∧ Scheduler.retrieval_blocks_to_swap_out f' = {[6 := 6; 7 := 7]}
    ∧ Scheduler.retrieval_blocks_to_swap_in f' = {[6 := 6; 7 := 7]}.
Proof.
  destruct (status_round_trips (Scheduler.new_frame no_block_left) R2)
    as (f' & Hrun & _ & Hrunning & _ & Hplans); [reflexivity | reflexivity |].
  exists f'. split; [exact Hrun|]. split; [exact Hrunning|].
  edestruct Hplans as (_ & Hout & _ & Hin & _);
    [vm_compute; reflexivity | vm_compute; reflexivity |].
  rewrite Hout, Hin. split; vm_compute; reflexivity.
Defined.

(** [copying_frame]: block 6 had been copied to block 40; appending a slot
    to the two sequences of [R2] copies block 6 to block 50 as well, and
    block 7 to block 51. *)
Lemma append_slot_only_adds_copies_witness :
  ∃ f',
    Scheduler._append_slot (copying_frame, R2) = (Val (), (f', R2))
    ∧ Scheduler.retrieval_blocks_to_copy f' = {[6 := [40; 50]; 7 := [51]]}
    ∧ (∀ src l, Scheduler.retrieval_blocks_to_copy copying_frame !! src
                = Some l →
         ∃ l', Scheduler.retrieval_blocks_to_copy f' !! src = Some (l ++ l'))
    ∧ Scheduler.running (Scheduler.self f')
      = Scheduler.running (Scheduler.self copying_frame)
    ∧ Scheduler.retrieval_blocks_to_swap_in f'
      = Scheduler.retrieval_blocks_to_swap_in copying_frame.
Proof.
  eexists. split; [vm_compute; reflexivity|]. split; [vm_compute; reflexivity|].
  lazymatch goal with
  | |- context [Scheduler.running (Scheduler.self ?f') = _] =>
      destruct (append_slot_only_adds_copies copying_frame R2 f' R2)
        as (_ & Hcopy & _ & _ & Hrunning & _ & Hin & _);
      [vm_compute; reflexivity|]
  end.
  split; [exact Hcopy|]. split; [exact Hrunning|exact Hin].
Defined.

(** No group of [three_waiting] has the request id [G9]. *)
Lemma abort_of_unknown_ids_does_nothing_witness :
  Scheduler.abort_seq_group (one_id "G9") three_waiting
  = (three_waiting, []).
Proof.
  apply (abort_of_unknown_ids_does_nothing (one_id "G9") three_waiting).
  apply (bool_decide_unpack _). vm_compute. reflexivity.
Defined.

(** Aborting [G2] and the unknown [G9] in [three_waiting] aborts [G2],
    and [G1] and [G3] still wait. *)
Lemma abort_takes_one_group_per_id_witness :
  ∃ s' aborted,
    Scheduler.abort_seq_group (many_ids ["G2"; "G9"]) three_waiting
    = (s', aborted)
    ∧ Scheduler.waiting s' = [G1; G3]
    ∧ request_id <$> aborted = ["G2"]
    ∧ Scheduler.get_num_unfinished_seq_groups s' + length aborted
      = Scheduler.get_num_unfinished_seq_groups three_waiting
    ∧ Scheduler.waiting s' `sublist_of` Scheduler.waiting three_waiting
    ∧ Scheduler.running s' `sublist_of` Scheduler.running three_waiting
    ∧ Scheduler.swapped s' `sublist_of` Scheduler.swapped three_waiting
    ∧ (∀ g, request_id g ∉ requested (many_ids ["G2"; "G9"]) →
         (g ∈ Scheduler.waiting three_waiting → g ∈ Scheduler.waiting s')
         ∧ (g ∈ Scheduler.running three_waiting → g ∈ Scheduler.running s')
         ∧ (g ∈ Scheduler.swapped three_waiting → g ∈ Scheduler.swapped s'))
    ∧ NoDup (request_id <$> aborted)
    ∧ Forall (λ g, request_id g ∈ requested (many_ids ["G2"; "G9"])
                   ∧ is_finished g = true) aborted.
Proof.
  eexists _, _. split; [vm_compute; reflexivity|].
  split; [reflexivity|]. split; [reflexivity|].
  eapply (abort_takes_one_group_per_id (many_ids ["G2"; "G9"]) three_waiting).
  vm_compute; reflexivity.
Defined.

(** [with_init_blocks]: made by [__init__] with [small_config], given 8
    initial blocks, then one request; after the tick the limit is 16 and
    the initial blocks are 8. *)
Lemma tick_keeps_settings_witness :
  ∃ out s',
    Scheduler._schedule 0%Z with_init_blocks = (Val out, s')
    ∧ same_settings with_init_blocks s'
    ∧ Scheduler.prompt_limit s' = 16
    ∧ Scheduler.init_num_blocks s' = Some 8.
Proof.
  eexists _, _.
  lazymatch goal with
  | |- ?tick ∧ _ => assert (Htick : tick) by (vm_compute; reflexivity)
  end.
  split; [exact Htick|].
  destruct (tick_keeps_settings _ _ _ _ Htick) as [Hsame Hinit].
  split; [exact Hsame|].
  destruct (Hinit small_config false roomy_manager 8) as (Hlimit & Hblocks & _);
    [by repeat split|].
  split; [exact Hlimit|exact Hblocks].
Defined.

(** [three_waiting]: the tick admits [G1] and returns.
    [prompt_then_pair]: the tick admits [G1] and raises at [G5]; [G1] runs
    all the same. *)
Lemma front_prompt_admitted_witness :
  (∃ out s',
     Scheduler._schedule 0%Z three_waiting = (Val out, s')
     ∧ (∃ rest, Scheduler.running s'
                = Scheduler.running three_waiting
                  ++ retag WAITING RUNNING G1 :: rest)
     ∧ Scheduler.waiting s' `suffix_of` [G2; G3]
     ∧ SchedulerOutputs.prompt_run out = true
     ∧ (∃ rest, SchedulerOutputs.scheduled_seq_groups out
                = retag WAITING RUNNING G1 :: rest)
     ∧ 12 ≤ SchedulerOutputs.num_batched_tokens out)
  ∧ (∃ s',
       Scheduler._schedule 0%Z prompt_then_pair
       = (Raise (AssertionError one_prompt_sequence), s')
       ∧ Scheduler.waiting s' = [G5]
       ∧ ∃ rest, Scheduler.running s'
                 = Scheduler.running prompt_then_pair
                   ++ retag WAITING RUNNING G1 :: rest).
Proof.
  split.
  - eexists _, _.
    lazymatch goal with
    | |- ?tick ∧ _ => assert (Htick : tick) by (vm_compute; reflexivity)
    end.
    split; [exact Htick|].
    eapply (front_prompt_admitted _ _ _ _ G1 [G2; G3]
              (mkSequence 1 WAITING 12)) in Htick;
      [exact Htick | reflexivity | reflexivity | reflexivity
      | vm_compute; lia | reflexivity | vm_compute; lia | vm_compute; lia].
  - eexists.
    lazymatch goal with
    | |- ?tick ∧ _ => assert (Htick : tick) by (vm_compute; reflexivity)
    end.
    split; [exact Htick|]. split; [reflexivity|].
    eapply (front_prompt_admitted _ _ _ _ G1 [G5]
              (mkSequence 1 WAITING 12)) in Htick;
      [exact (proj1 Htick) | reflexivity | reflexivity | reflexivity
      | vm_compute; lia | reflexivity | vm_compute; lia | vm_compute; lia].
Defined.
